(** * frakti: the kubelet runtime adapter over hyperd, embedded in Rocq

    The development follows the Go sources: package [hyper] (the gRPC
    client wrapper [Client], the direct-call surface [HyperRuntime] and its
    helpers) and package [manager] (the RPC-server surface
    [KubeHyperManager] with its own copies of the helpers).

    Conventions of the embedding:
    - a Go [string] is a [string] of bytes; [==] is [String.eqb];
    - a pointer-valued (optional) protobuf field is an [option]; the
      generated getters return the zero value on [nil];
    - a Go [map[string]string] is a [gmap string string], a nil map is
      [None] where the source tests for nil;
    - a call returning [(T, error)] is a sum [Error + T], a call returning
      only [error] a sum [Error + unit];
    - run-time panics (index or slice out of range) are [None] in an
      [option];
    - the hyperd daemon is an abstract state [World] threaded through the
      calls, and every RPC issued is appended to a trace of [Event]s;
    - [float64] is IEEE 754 binary64 ([spec_float] at precision 53), Go's
      [int] is the 64-bit two's complement integer of the amd64 port.
    Logging through glog has no effect on the values computed and is left
    out. *)

From Stdlib Require Import ZArith String Ascii List Lia Lqa Bool QArith Qround Qpower.
From Stdlib Require Import Floats.SpecFloat.
From stdpp Require Import base option gmap strings list fin_maps.

Local Open Scope string_scope.
Local Open Scope list_scope.
Local Open Scope Z_scope.

(* ===================================================================== *)
(** * Part I: definitions                                                  *)
(* ===================================================================== *)

(** ** The functions of Go's [strings] package that the sources call

    Every separator passed by the sources is a one-byte constant
    (["@"], [":"], ["/"]), so the separator is an [ascii]. *)
Module gostrings.

(** [strings.Index(s, sep)]: index of the first [sep] in [s], or -1. *)
Fixpoint Index (s : string) (sep : ascii) : Z :=
  match s with
  | EmptyString => -1
  | String a s' =>
      if Ascii.eqb a sep then 0
      else let n := Index s' sep in if n <? 0 then -1 else n + 1
  end.

(** [strings.LastIndex(s, sep)]: index of the last [sep] in [s], or -1. *)
Fixpoint LastIndex (s : string) (sep : ascii) : Z :=
  match s with
  | EmptyString => -1
  | String a s' =>
      let n := LastIndex s' sep in
      if 0 <=? n then n + 1 else if Ascii.eqb a sep then 0 else -1
  end.

(** [strings.Contains(s, sep)] is [Index(s, sep) >= 0]. *)
Definition Contains (s : string) (sep : ascii) : bool := 0 <=? Index s sep.

(** [strings.Split(s, sep)]: all the substrings between the separators;
    [n] separators give [n + 1] parts. *)
Fixpoint Split (s : string) (sep : ascii) : list string :=
  match s with
  | EmptyString => [EmptyString]
  | String a s' =>
      if Ascii.eqb a sep then EmptyString :: Split s' sep
      else match Split s' sep with
           | p :: ps => String a p :: ps
           | [] => [String a EmptyString]
           end
  end.

Fixpoint drop_bytes (n : nat) (s : string) : string :=
  match n, s with
  | O, _ => s
  | S n', String _ s' => drop_bytes n' s'
  | S _, EmptyString => EmptyString
  end.

Fixpoint take_bytes (n : nat) (s : string) : string :=
  match n, s with
  | O, _ => EmptyString
  | S n', String a s' => String a (take_bytes n' s')
  | S _, EmptyString => EmptyString
  end.

Definition len (s : string) : Z := Z.of_nat (String.length s).

(** The slice expression [s[i:]]; out of range is a run-time panic. *)
Definition slice_from (s : string) (i : Z) : option string :=
  if (0 <=? i) && (i <=? len s) then Some (drop_bytes (Z.to_nat i) s) else None.

(** The slice expression [s[:j]]; out of range is a run-time panic. *)
Definition slice_to (s : string) (j : Z) : option string :=
  if (0 <=? j) && (j <=? len s) then Some (take_bytes (Z.to_nat j) s) else None.

(** [strings.TrimPrefix(s, prefix)]. *)
Definition TrimPrefix (s pre : string) : string :=
  if String.prefix pre s then drop_bytes (String.length pre) s else s.

End gostrings.

(** ** Go's [time] package, as far as [parseTimeString] uses it

    [time.Parse] is library code; it is modelled after [parse] in the
    standard library's [time/format.go], as of Go 1.17 and later (where a
    comma may open the fractional second and the day is checked against
    the month), for the one layout the sources pass,
    ["2006-01-02T15:04:05Z"].  [nextStdChunk] cuts that layout into the
    elements [2006], [01], [02], [15], [04], [05], each after a one-byte
    literal prefix, and the literal ["Z"] at the end; no element names a
    zone, so the time parsed is in UTC.  The text of a parse error is not
    modelled. *)
Module gotime.

Inductive Location := UTC | Local.

(** A [Time], given by the arguments of the [time.Date] call that makes
    it. *)
Record Time := Date {
  year : Z; month : Z; day : Z; hour : Z; min : Z; sec : Z; nsec : Z; loc : Location
}.

(** The zero [Time], which [Parse] returns next to an error: January 1,
    year 1, 00:00:00 UTC. *)
Definition zero : Time := Date 1 1 1 0 0 0 0 UTC.

(** [time.Date(0, 0, 0, 0, 0, 0, 0, time.Local)]. *)
Definition Date_0_Local : Time := Date 0 0 0 0 0 0 0 Local.

(** A value that does not parse, and a layout other than the one
    modelled. *)
Inductive ParseError := errBad | errLayout.

(** [isDigit] on one byte, and the digit's value [c - '0']. *)
Definition isDigit (c : ascii) : bool :=
  ((48 <=? N_of_ascii c) && (N_of_ascii c <=? 57))%N.

Definition digit (c : ascii) : Z := Z.of_N (N_of_ascii c) - 48.

(** [getnum(s, fixed)]: a number of one or two digits at the start of
    [s], of exactly two when [fixed]. *)
Definition getnum (s : string) (fixed : bool) : option (Z * string) :=
  match s with
  | String c0 s1 =>
      if isDigit c0 then
        match s1 with
        | String c1 s2 =>
            if isDigit c1 then Some (digit c0 * 10 + digit c1, s2)
            else if fixed then None else Some (digit c0, s1)
        | EmptyString => if fixed then None else Some (digit c0, s1)
        end
      else None
  | EmptyString => None
  end.

(** [skip(value, prefix)] for a prefix without spaces, as the prefixes of
    this layout are: [value] must start with [prefix]. *)
Fixpoint skip (value prefix : string) {struct prefix} : option string :=
  match prefix with
  | EmptyString => Some value
  | String p prefix' =>
      match value with
      | String v value' => if Ascii.eqb v p then skip value' prefix' else None
      | EmptyString => None
      end
  end.

(** The element [2006]: [value] must have four bytes and start with a
    digit, and [atoi] of the four bytes must succeed, which it does when
    all four are digits. *)
Definition stdLongYear (value : string) : option (Z * string) :=
  match value with
  | String a (String b (String c (String d rest))) =>
      if isDigit a && isDigit b && isDigit c && isDigit d
      then Some (((digit a * 10 + digit b) * 10 + digit c) * 10 + digit d, rest)
      else None
  | _ => None
  end.

Definition commaOrPeriod (c : ascii) : bool := Ascii.eqb c "." || Ascii.eqb c ",".

(** The longest run of digits at the start of [s], and what follows. *)
Fixpoint leadingDigits (s : string) : string * string :=
  match s with
  | String c s' =>
      if isDigit c then let '(ds, rest) := leadingDigits s' in (String c ds, rest)
      else (EmptyString, s)
  | EmptyString => (EmptyString, EmptyString)
  end.

(** [atoi] on digits, from the value [acc] read so far. *)
Fixpoint atoi (acc : Z) (ds : string) : Z :=
  match ds with
  | String c ds' => atoi (acc * 10 + digit c) ds'
  | EmptyString => acc
  end.

(** [parseNanoseconds] on the digits after the separator: at most nine
    count, scaled to nine places. *)
Definition parseNanoseconds (ds : string) : Z :=
  let ds := gostrings.take_bytes 9 ds in
  atoi 0 ds * 10 ^ (9 - gostrings.len ds).

(** After the seconds: a fractional second in the input, which the layout
    does not have, is read when a comma or period is followed by a
    digit. *)
Definition fraction (value : string) : Z * string :=
  match value with
  | String sep (String d rest) =>
      if commaOrPeriod sep && isDigit d
      then let '(ds, rest') := leadingDigits (String d rest) in (parseNanoseconds ds, rest')
      else (0, value)
  | _ => (0, value)
  end.

Definition isLeap (year : Z) : bool :=
  (year mod 4 =? 0) && (negb (year mod 100 =? 0) || (year mod 400 =? 0)).

(** [daysIn(m, year)] for a month from 1 to 12. *)
Definition daysIn (m year : Z) : Z :=
  if (m =? 2) && isLeap year then 29
  else if m =? 2 then 28
  else if (m =? 4) || (m =? 6) || (m =? 9) || (m =? 11) then 30
  else 31.

(** The loop of [parse] over the elements of the layout, the test for
    text after the last literal, and the test of the day against the
    month; [None] is any of its errors. *)
Definition parse (value : string) : option Time :=
  '(year, value) ← stdLongYear value;
  value ← skip value "-";
  '(month, value) ← getnum value true;
  if (month <=? 0) || (12 <? month) then None else
  value ← skip value "-";
  '(day, value) ← getnum value true;
  value ← skip value "T";
  '(hour, value) ← getnum value false;
  if (hour <? 0) || (24 <=? hour) then None else
  value ← skip value ":";
  '(min, value) ← getnum value true;
  if (min <? 0) || (60 <=? min) then None else
  value ← skip value ":";
  '(sec, value) ← getnum value true;
  if (sec <? 0) || (60 <=? sec) then None else
  let '(nsec, value) := fraction value in
  value ← skip value "Z";
  if negb (String.eqb value "") then None else
  if (day <? 1) || (daysIn month year <? day) then None else
  Some (Date year month day hour min sec nsec UTC).

(** [time.Parse(layout, value)]. *)
Definition Parse (layout value : string) : Time * option ParseError :=
  if String.eqb layout "2006-01-02T15:04:05Z" then
    match parse value with
    | Some t => (t, None)
    | None => (zero, Some errBad)
    end
  else (zero, Some errLayout).

End gotime.

(** ** The kubelet runtime API messages read or built by the sources

    The generated protobuf package is not part of the sources; the records
    below list the fields the code touches, optional fields as [option],
    with the nil-safe getters of the generated code. *)
Module kubeapi.

Inductive PodSandBoxState := PodSandBoxState_READY | PodSandBoxState_NOTREADY.

Inductive ContainerState :=
| ContainerState_CREATED
| ContainerState_RUNNING
| ContainerState_EXITED
| ContainerState_UNKNOWN.

Definition ContainerState_eqb (a b : ContainerState) : bool :=
  match a, b with
  | ContainerState_CREATED, ContainerState_CREATED
  | ContainerState_RUNNING, ContainerState_RUNNING
  | ContainerState_EXITED, ContainerState_EXITED
  | ContainerState_UNKNOWN, ContainerState_UNKNOWN => true
  | _, _ => false
  end.

Record AuthConfig := {
  Username : option string;
  Password : option string;
  Auth : option string;
  ServerAddress : option string;
  RegistryToken : option string
}.

Definition GetUsername (a : AuthConfig) : string := default "" (Username a).
Definition GetPassword (a : AuthConfig) : string := default "" (Password a).
Definition GetAuth (a : AuthConfig) : string := default "" (Auth a).
Definition GetServerAddress (a : AuthConfig) : string := default "" (ServerAddress a).
Definition GetRegistryToken (a : AuthConfig) : string := default "" (RegistryToken a).

Record ImageSpec := { Image : option string }.

(** [GetImage] on a possibly nil [*ImageSpec]. *)
Definition GetImage (s : option ImageSpec) : string :=
  match s with
  | Some i => default "" (Image i)
  | None => ""
  end.

Record ImageFilter := { FilterImage : option ImageSpec }.

Record Image_ := {
  ImageId : string;
  ImageRepoTags : list string;
  ImageRepoDigests : list string;
  ImageSize_ : Z
}.

Record ContainerFilter := {
  FilterName : option string;
  FilterId : option string;
  FilterState : option ContainerState;
  FilterPodSandboxId : option string;
  FilterLabelSelector : option (gmap string string)
}.

Record Container := {
  ContainerId : string;
  ContainerName : string;
  ContainerImage : ImageSpec;
  ContainerImageRef : string;
  ContainerLabels : gmap string string;
  ContainerState_ : ContainerState
}.

(** [ResourceRequirements.Limits] is an optional [double]. *)
Record ResourceRequirements := { Limits : option spec_float }.

Definition GetLimits (r : ResourceRequirements) : spec_float :=
  default (S754_zero false) (Limits r).

Record PodSandboxResources := {
  Cpu : option ResourceRequirements;
  Memory : option ResourceRequirements
}.

Record DNSOption := { Servers : list string }.

Record PodSandboxConfig := {
  Name : option string;
  Hostname : option string;
  Labels : option (gmap string string);
  Annotations : gmap string string;
  DnsOptions : option DNSOption;
  Resources : option PodSandboxResources
}.

Definition GetName (c : PodSandboxConfig) : string := default "" (Name c).
Definition GetHostname (c : PodSandboxConfig) : string := default "" (Hostname c).

(** Requests and responses of the RPC-server surface. *)
Record StartContainerRequest := { StartContainerId : option string }.
Record StopContainerRequest := {
  StopContainerId : option string;
  StopTimeout : option Z
}.
Record RemoveContainerRequest := { RemoveContainerId : option string }.
Record ListContainersRequest := { ListContainersFilter : option ContainerFilter }.
Record ListImagesRequest := { ListImagesFilter : option ImageFilter }.
Record CreatePodSandboxRequest := { Config : PodSandboxConfig }.

Inductive StartContainerResponse := StartContainerResponse_empty.
Inductive StopContainerResponse := StopContainerResponse_empty.
Inductive RemoveContainerResponse := RemoveContainerResponse_empty.
Record ListContainersResponse := { Containers : list Container }.
Record ListImagesResponse := { Images : list Image_ }.
Record CreatePodSandboxResponse := { PodSandboxId : option string }.

(** [PodSandboxFilter] and the items that [ListPodSandbox] returns. *)
Definition PodSandBoxState_eqb (a b : PodSandBoxState) : bool :=
  match a, b with
  | PodSandBoxState_READY, PodSandBoxState_READY
  | PodSandBoxState_NOTREADY, PodSandBoxState_NOTREADY => true
  | _, _ => false
  end.

Record PodSandboxFilter := {
  PodFilterName : option string;
  PodFilterId : option string;
  PodFilterState : option PodSandBoxState;
  PodFilterLabelSelector : option (gmap string string)
}.

Record PodSandboxListItem := {
  ItemId : string;
  ItemName : string;
  ItemLabels : gmap string string;
  ItemState : PodSandBoxState;
  ItemCreatedAt : Z
}.

(** The mounts of a [ContainerStatus]; [HostPath] is optional. *)
Record Mount := {
  MountName : string;
  MountContainerPath : string;
  MountReadonly : bool;
  MountHostPath : option string
}.

Definition set_HostPath (v : string) (m : Mount) : Mount :=
  {| MountName := MountName m; MountContainerPath := MountContainerPath m;
     MountReadonly := MountReadonly m; MountHostPath := Some v |}.

End kubeapi.

(** ** The hyperd API messages ([github.com/hyperhq/hyperd/types])

    Again only the fields the sources read or write. *)
Module types.

Record AuthConfig := {
  Username : string;
  Password : string;
  Auth : string;
  Serveraddress : string;
  Registrytoken : string
}.

(** The zero value [types.AuthConfig{}]. *)
Definition AuthConfig_zero : AuthConfig :=
  {| Username := ""; Password := ""; Auth := ""; Serveraddress := ""; Registrytoken := "" |}.

Definition set_Username (v : string) (c : AuthConfig) : AuthConfig :=
  {| Username := v; Password := Password c; Auth := Auth c;
     Serveraddress := Serveraddress c; Registrytoken := Registrytoken c |}.
Definition set_Password (v : string) (c : AuthConfig) : AuthConfig :=
  {| Username := Username c; Password := v; Auth := Auth c;
     Serveraddress := Serveraddress c; Registrytoken := Registrytoken c |}.
Definition set_Auth (v : string) (c : AuthConfig) : AuthConfig :=
  {| Username := Username c; Password := Password c; Auth := v;
     Serveraddress := Serveraddress c; Registrytoken := Registrytoken c |}.
Definition set_Serveraddress (v : string) (c : AuthConfig) : AuthConfig :=
  {| Username := Username c; Password := Password c; Auth := Auth c;
     Serveraddress := v; Registrytoken := Registrytoken c |}.
Definition set_Registrytoken (v : string) (c : AuthConfig) : AuthConfig :=
  {| Username := Username c; Password := Password c; Auth := Auth c;
     Serveraddress := Serveraddress c; Registrytoken := v |}.

Record UserResource := { Vcpu : Z; Memory : Z }.

Record UserPod := {
  Id : string;
  Hostname : string;
  Labels : gmap string string;
  Dns : list string;
  Resource : UserResource
}.

Record ContainerListResult := {
  ContainerID : string;
  ContainerName : string;
  PodID : string
}.

Record ContainerStatus := { Phase : string }.

Record Container := {
  Image : string;
  ImageID : string;
  ContainerLabels : gmap string string
}.

Record ContainerInfo := {
  InfoContainer : Container;
  InfoPodID : string;
  InfoStatus : ContainerStatus
}.

Record ImageInfo := {
  ImageInfoId : string;
  RepoTags : list string;
  RepoDigests : list string;
  VirtualSize : Z
}.

Record PodListResult := {
  PodListPodID : string;
  PodListPodName : string;
  PodListLabels : gmap string string;
  PodListCreatedAt : Z;
  PodListStatus : string
}.

Record VolumeMount := {
  VolumeMountName : string;
  MountPath : string;
  ReadOnly : bool
}.

Record PodVolume := {
  VolumeName : string;
  Source : string
}.

End types.

(** ** Go's numeric types and conversions *)
Module gonum.

(** [float64] is IEEE 754 binary64. *)
Definition float64 := spec_float.
Definition prec : Z := 53.
Definition emax : Z := 1024.

Definition fadd : float64 -> float64 -> float64 := SFadd prec emax.
Definition fdiv : float64 -> float64 -> float64 := SFdiv prec emax.
(** [x > y]; false when either side is NaN. *)
Definition fgt (x y : float64) : bool := SFltb y x.

(** The constants [0], [0.5] and [1024] converted to [float64]. *)
Definition f0 : float64 := S754_zero false.
Definition f0_5 : float64 := S754_finite false 4503599627370496 (-53).
Definition f1024 : float64 := S754_finite false 4503599627370496 (-42).

(** The conversion [float64(n)] of an integer, rounded to nearest. *)
Definition float64_of_Z (n : Z) : float64 := binary_normalize prec emax n 0 false.

(** The integer part of a finite float, rounding toward zero; nothing
    for infinities and NaN. *)
Definition trunc (f : float64) : option Z :=
  match f with
  | S754_zero _ => Some 0
  | S754_finite s m e => Some (cond_Zopp s (Z.shiftl (Z.pos m) e))
  | S754_infinity _ | S754_nan => None
  end.

Definition fits_int (z : Z) : bool := (- 2 ^ 63 <=? z) && (z <? 2 ^ 63).

(** The conversion [int(f)]: the fraction is discarded; when the value is
    not representable in [int] the conversion succeeds with an
    implementation-dependent result, here [unrepresentable f]. *)
Definition int_of_float64 (unrepresentable : float64 -> Z) (f : float64) : Z :=
  match trunc f with
  | Some z => if fits_int z then z else unrepresentable f
  | None => unrepresentable f
  end.

(** The conversion [int32(n)] keeps the low 32 bits, as a signed value. *)
Definition int32_of_int (n : Z) : Z := (n + 2 ^ 31) mod 2 ^ 32 - 2 ^ 31.

(** The conversion [uint64(n)] of an [int64]. *)
Definition uint64_of_int64 (n : Z) : Z := n mod 2 ^ 64.

End gonum.

(** ** The hyperd daemon seen through its gRPC client

    [PublicAPIClient] is the generated client interface; the daemon's
    state is [World], a failed or timed-out call returns an [Error].
    [PodStart] is a streaming call: the stream is opened, one message is
    sent and one response received. *)
Module provider.

Record PublicAPIClient (World Error Stream : Type) := {
  ContainerList : bool -> World -> (Error + list types.ContainerListResult) * World;
  ContainerInfo : string -> World -> (Error + types.ContainerInfo) * World;
  ImageList : World -> (Error + list types.ImageInfo) * World;
  PodCreate : types.UserPod -> World -> (Error + string) * World;
  PodStart : World -> (Error + Stream) * World;
  PodStart_Send : Stream -> string -> World -> (Error + unit) * World;
  PodStart_Recv : Stream -> World -> (Error + unit) * World;
  PodStop : string -> World -> (Error + (Z * string)) * World
}.
Arguments ContainerList {World Error Stream}.
Arguments ContainerInfo {World Error Stream}.
Arguments ImageList {World Error Stream}.
Arguments PodCreate {World Error Stream}.
Arguments PodStart {World Error Stream}.
Arguments PodStart_Send {World Error Stream}.
Arguments PodStart_Recv {World Error Stream}.
Arguments PodStop {World Error Stream}.

(** One entry per RPC issued to the daemon, with its request. *)
Inductive Event :=
| EvContainerList (auxiliary : bool)
| EvContainerInfo (container : string)
| EvImageList
| EvPodCreate (spec : types.UserPod)
| EvPodStart
| EvPodStartSend (podID : string)
| EvPodStartRecv
| EvPodStop (podID : string).

Record State (World : Type) := { world : World; trace : list Event }.
Arguments world {World}.
Arguments trace {World}.

(** Computations that call the daemon and may fail. *)
Definition M (World Error A : Type) : Type :=
  State World -> (Error + A) * State World.

Definition ret {World Error A} (a : A) : M World Error A :=
  fun st => (inr a, st).

Definition bind {World Error A B} (m : M World Error A) (k : A -> M World Error B)
  : M World Error B :=
  fun st =>
    match m st with
    | (inl err, st') => (inl err, st')
    | (inr a, st') => k a st'
    end.

(** Issue one RPC: run it on the daemon and record it. *)
Definition rpc {World Error A} (ev : Event) (call : World -> (Error + A) * World)
  : M World Error A :=
  fun st =>
    let '(r, w) := call (world st) in
    (r, {| world := w; trace := trace st ++ [ev] |}).

(** The state [st] after the daemon moved to [w] and [evs] were issued. *)
Definition extend {World} (st : State World) (w : World) (evs : list Event) : State World :=
  {| world := w; trace := trace st ++ evs |}.

(** The events a computation adds when started from [st]. *)
Definition issued {World Error A} (m : M World Error A) (st : State World) : list Event :=
  drop (length (trace st)) (trace (snd (m st))).

End provider.

Notation "x <- m ;; k" := (provider.bind m (fun x => k))
  (at level 100, m at next level, right associativity).

(** ** Package [hyper] *)
Module hyper.

Definition defaultCPUNumber : Z := 1.
Definition defaultMemoryinMegabytes : Z := 128.

(** *** Helpers *)

Definition getHyperAuthConfig (auth : option kubeapi.AuthConfig) : option types.AuthConfig :=
  match auth with
  | None => Some types.AuthConfig_zero
  | Some auth =>
      let config := types.AuthConfig_zero in
      let config :=
        if kubeapi.Username auth is Some _
        then types.set_Username (kubeapi.GetUsername auth) config else config in
      let config :=
        if kubeapi.Password auth is Some _
        then types.set_Password (kubeapi.GetPassword auth) config else config in
      let config :=
        if kubeapi.Auth auth is Some _
        then types.set_Auth (kubeapi.GetAuth auth) config else config in
      let config :=
        if kubeapi.RegistryToken auth is Some _
        then types.set_Registrytoken (kubeapi.GetRegistryToken auth) config else config in
      let config :=
        if kubeapi.ServerAddress auth is Some _
        then types.set_Serveraddress (kubeapi.GetServerAddress auth) config else config in
      Some config
  end.

(** [None] stands for a run-time panic ([parts[1]] or a slice out of
    range). *)
Definition parseRepositoryTag (repos : string) : option (string * string) :=
  let n := gostrings.Index repos "@" in
  if 0 <=? n then
    let parts := gostrings.Split repos "@" in
    p0 ← parts !! 0%nat;
    p1 ← parts !! 1%nat;
    Some (p0, p1)
  else
    let n := gostrings.LastIndex repos ":" in
    if n <? 0 then Some (repos, "latest")
    else
      tag ← gostrings.slice_from repos (n + 1);
      if negb (gostrings.Contains tag "/")
      then (r ← gostrings.slice_to repos n; Some (r, tag))
      else Some (repos, "latest").

Fixpoint inList (in_ : string) (list_ : list string) : bool :=
  match list_ with
  | [] => false
  | str :: rest => if String.eqb in_ str then true else inList in_ rest
  end.

Definition inMap (in_ dest : gmap string string) : bool :=
  map_fold
    (fun k v ok =>
       ok && match dest !! k with
             | Some value => String.eqb value v
             | None => false
             end)
    true in_.

Section Time.
(** Go's [time] package: the value of
    [time.Date(0, 0, 0, 0, 0, 0, 0, time.Local)], [time.Parse] (which
    returns the zero [Time] together with an error when the value does
    not match the layout) and [Time.Unix]. *)
Context {Time ParseError : Type}.
Variable Date_0_Local : Time.
Variable Parse : string -> string -> Time * option ParseError.
Variable Unix : Time -> Z.

Definition parseTimeString (str : string) : Z * option ParseError :=
  let t := Date_0_Local in
  if String.eqb str "" then (Unix t, None)
  else
    let layout := "2006-01-02T15:04:05Z" in
    let '(t, err) := Parse layout str in
    match err with
    | Some e => (Unix t, Some e)
    | None => (Unix t, None)
    end.
End Time.

Definition toPodSandboxState (state : string) : kubeapi.PodSandBoxState :=
  if String.eqb state "running" || String.eqb state "Running"
  then kubeapi.PodSandBoxState_READY
  else kubeapi.PodSandBoxState_NOTREADY.

Definition toKubeContainerState (state : string) : kubeapi.ContainerState :=
  if String.eqb state "running" then kubeapi.ContainerState_RUNNING
  else if String.eqb state "pending" then kubeapi.ContainerState_CREATED
  else if String.eqb state "failed" || String.eqb state "succeeded"
       then kubeapi.ContainerState_EXITED
  else kubeapi.ContainerState_UNKNOWN.

(** *** The gRPC client wrapper [Client] *)
Module Client.
Section Client.
Context {World Error Stream : Type}.
Variable client : provider.PublicAPIClient World Error Stream.
Local Abbreviation M := (provider.M World Error).

Definition GetContainerList (auxiliary : bool) : M (list types.ContainerListResult) :=
  provider.rpc (provider.EvContainerList auxiliary)
               (provider.ContainerList client auxiliary).

Definition GetContainerInfo (container : string) : M types.ContainerInfo :=
  provider.rpc (provider.EvContainerInfo container)
               (provider.ContainerInfo client container).

Definition GetImageList : M (list types.ImageInfo) :=
  provider.rpc provider.EvImageList (provider.ImageList client).

Definition CreatePod (spec : types.UserPod) : M string :=
  provider.rpc (provider.EvPodCreate spec) (provider.PodCreate client spec).

Definition StartPod (podID : string) : M unit :=
  stream <- provider.rpc provider.EvPodStart (provider.PodStart client) ;;
  _ <- provider.rpc (provider.EvPodStartSend podID)
                    (provider.PodStart_Send client stream podID) ;;
  _ <- provider.rpc provider.EvPodStartRecv
                    (provider.PodStart_Recv client stream) ;;
  provider.ret tt.

(** The code and the cause of the response; on an error the source
    returns [-1] and the empty string next to it. *)
Definition StopPod (podID : string) : M (Z * string) :=
  provider.rpc (provider.EvPodStop podID) (provider.PodStop client podID).

Definition StartContainer (containerID : string) : M unit :=
  info <- GetContainerInfo containerID ;;
  _ <- StopPod (types.InfoPodID info) ;;
  _ <- StartPod (types.InfoPodID info) ;;
  provider.ret tt.

Definition StopContainer (containerID : string) (timeout : Z) : M unit :=
  provider.ret tt.

Definition RemoveContainer (containerID : string) : M unit :=
  provider.ret tt.
End Client.
End Client.

(** *** The direct-call surface [HyperRuntime] *)
Module HyperRuntime.
Section HyperRuntime.
Context {World Error Stream : Type}.
Variable client : provider.PublicAPIClient World Error Stream.
(** The result of [int(f)] where the language leaves it to the
    implementation. *)
Variable unrepresentable : gonum.float64 -> Z.
Local Abbreviation M := (provider.M World Error).

(** The [types.UserResource] that [CreatePodSandbox] builds. *)
Definition CreatePodSandbox_resource (config : kubeapi.PodSandboxConfig)
  : types.UserResource :=
  let vcpu := defaultCPUNumber in
  let memory := defaultMemoryinMegabytes in
  let '(vcpu, memory) :=
    match kubeapi.Resources config with
    | Some resources =>
        let vcpu :=
          match kubeapi.Cpu resources with
          | Some cpu =>
              if gonum.fgt (kubeapi.GetLimits cpu) gonum.f0 then
                let vcpu :=
                  gonum.int_of_float64 unrepresentable
                    (gonum.fadd (kubeapi.GetLimits cpu) gonum.f0_5) in
                if vcpu =? 0 then 1 else vcpu
              else vcpu
          | None => vcpu
          end in
        let memory :=
          match kubeapi.Memory resources with
          | Some mem =>
              if gonum.fgt (kubeapi.GetLimits mem) gonum.f0 then
                gonum.int_of_float64 unrepresentable
                  (gonum.fdiv (gonum.fdiv (kubeapi.GetLimits mem) gonum.f1024)
                              gonum.f1024)
              else memory
          | None => memory
          end in
        (vcpu, memory)
    | None => (vcpu, memory)
    end in
  {| types.Vcpu := gonum.int32_of_int vcpu;
     types.Memory := gonum.int32_of_int memory |}.

(** The [types.UserPod] that [CreatePodSandbox] sends. *)
Definition CreatePodSandbox_spec (config : kubeapi.PodSandboxConfig) : types.UserPod :=
  let labels := default ∅ (kubeapi.Labels config) in
  let labels :=
    map_fold (fun k v (acc : gmap string string) => <[k:=v]> acc)
             labels (kubeapi.Annotations config) in
  let dns :=
    match kubeapi.DnsOptions config with
    | Some opts => kubeapi.Servers opts
    | None => []
    end in
  {| types.Id := kubeapi.GetName config;
     types.Hostname := kubeapi.GetHostname config;
     types.Labels := labels;
     types.Dns := dns;
     types.Resource := CreatePodSandbox_resource config |}.

Definition CreatePodSandbox (config : kubeapi.PodSandboxConfig) : M string :=
  let spec := CreatePodSandbox_spec config in
  podID <- Client.CreatePod client spec ;;
  _ <- Client.StartPod client podID ;;
  provider.ret podID.

Definition StartContainer (rawContainerID : string) : M unit :=
  _ <- Client.StartContainer client rawContainerID ;;
  provider.ret tt.

Definition StopContainer (rawContainerID : string) (timeout : Z) : M unit :=
  _ <- Client.StopContainer (World:=World) rawContainerID timeout ;;
  provider.ret tt.

Definition RemoveContainer (rawContainerID : string) : M unit :=
  _ <- Client.RemoveContainer (World:=World) rawContainerID ;;
  provider.ret tt.

(** The tests of [ListContainers] made before the info lookup:
    [true] when the container is skipped ([continue]). *)
Definition ListContainers_skip_listed (filter : option kubeapi.ContainerFilter)
           (c : types.ContainerListResult) (containerName : string) : bool :=
  match filter with
  | Some filter =>
      if (if kubeapi.FilterName filter is Some name
          then negb (String.eqb containerName name) else false) then true
      else if (if kubeapi.FilterId filter is Some id
               then negb (String.eqb (types.ContainerID c) id) else false) then true
      else if (if kubeapi.FilterPodSandboxId filter is Some pod
               then negb (String.eqb (types.PodID c) pod) else false) then true
      else false
  | None => false
  end.

(** The tests made after the info lookup. *)
Definition ListContainers_skip_info (filter : option kubeapi.ContainerFilter)
           (info : types.ContainerInfo) (state : kubeapi.ContainerState) : bool :=
  match filter with
  | Some filter =>
      if (if kubeapi.FilterState filter is Some st
          then negb (kubeapi.ContainerState_eqb state st) else false) then true
      else if (if kubeapi.FilterLabelSelector filter is Some sel
               then negb (inMap sel (types.ContainerLabels (types.InfoContainer info)))
               else false) then true
      else false
  | None => false
  end.

(** The loop of [ListContainers] over the daemon's listing;
    [containers] is the slice built so far. *)
Fixpoint ListContainers_loop (filter : option kubeapi.ContainerFilter)
         (containerList : list types.ContainerListResult)
         (containers : list kubeapi.Container) : M (list kubeapi.Container) :=
  match containerList with
  | [] => provider.ret containers
  | c :: rest =>
      let containerName := gostrings.TrimPrefix (types.ContainerName c) "/" in
      if ListContainers_skip_listed filter c containerName
      then ListContainers_loop filter rest containers
      else
        info <- Client.GetContainerInfo client (types.ContainerID c) ;;
        let state := toKubeContainerState (types.Phase (types.InfoStatus info)) in
        if ListContainers_skip_info filter info state
        then ListContainers_loop filter rest containers
        else
          ListContainers_loop filter rest
            (containers ++
             [ {| kubeapi.ContainerId := types.ContainerID c;
                  kubeapi.ContainerName := containerName;
                  kubeapi.ContainerImage :=
                    {| kubeapi.Image := Some (types.Image (types.InfoContainer info)) |};
                  kubeapi.ContainerImageRef := types.ImageID (types.InfoContainer info);
                  kubeapi.ContainerLabels :=
                    types.ContainerLabels (types.InfoContainer info);
                  kubeapi.ContainerState_ := state |} ])
  end.

Definition ListContainers (filter : option kubeapi.ContainerFilter)
  : M (list kubeapi.Container) :=
  containerList <- Client.GetContainerList client false ;;
  ListContainers_loop filter containerList [].

(** The loop of [ListImages]; it calls nothing. *)
Fixpoint ListImages_loop (filter : option kubeapi.ImageFilter)
         (images : list types.ImageInfo) (results : list kubeapi.Image_)
  : list kubeapi.Image_ :=
  match images with
  | [] => results
  | img :: rest =>
      let skip :=
        match filter with
        | Some filter =>
            let filter := kubeapi.GetImage (kubeapi.FilterImage filter) in
            let filter :=
              if negb (gostrings.Contains filter ":")
              then String.append filter ":latest" else filter in
            negb (inList filter (types.RepoTags img))
        | None => false
        end in
      if skip then ListImages_loop filter rest results
      else
        let imageSize := gonum.uint64_of_int64 (types.VirtualSize img) in
        ListImages_loop filter rest
          (results ++
           [ {| kubeapi.ImageId := types.ImageInfoId img;
                kubeapi.ImageRepoTags := types.RepoTags img;
                kubeapi.ImageRepoDigests := types.RepoDigests img;
                kubeapi.ImageSize_ := imageSize |} ])
  end.

Definition ListImages (filter : option kubeapi.ImageFilter) : M (list kubeapi.Image_) :=
  images <- Client.GetImageList client ;;
  provider.ret (ListImages_loop filter images []).

(** The tests of [ListPodSandbox]: [true] when the pod is skipped. *)
Definition ListPodSandbox_skip (filter : option kubeapi.PodSandboxFilter)
           (pod : types.PodListResult) (state : kubeapi.PodSandBoxState) : bool :=
  if (match filter with
      | Some filter =>
          if (if kubeapi.PodFilterName filter is Some name
              then negb (String.eqb (types.PodListPodName pod) name) else false) then true
          else if (if kubeapi.PodFilterId filter is Some id
                   then negb (String.eqb (types.PodListPodID pod) id) else false) then true
          else if (if kubeapi.PodFilterState filter is Some st
                   then negb (kubeapi.PodSandBoxState_eqb state st) else false) then true
          else false
      | None => false
      end) then true
  else
    match filter with
    | Some filter =>
        if kubeapi.PodFilterLabelSelector filter is Some sel
        then negb (inMap sel (types.PodListLabels pod)) else false
    | None => false
    end.

(** The loop of [ListPodSandbox] over the pods that [GetPodList]
    returned; [items] is the slice built so far. *)
Fixpoint ListPodSandbox_loop (filter : option kubeapi.PodSandboxFilter)
         (pods : list types.PodListResult) (items : list kubeapi.PodSandboxListItem)
  : list kubeapi.PodSandboxListItem :=
  match pods with
  | [] => items
  | pod :: rest =>
      let state := toPodSandboxState (types.PodListStatus pod) in
      if ListPodSandbox_skip filter pod state
      then ListPodSandbox_loop filter rest items
      else
        ListPodSandbox_loop filter rest
          (items ++
           [ {| kubeapi.ItemId := types.PodListPodID pod;
                kubeapi.ItemName := types.PodListPodName pod;
                kubeapi.ItemLabels := types.PodListLabels pod;
                kubeapi.ItemState := state;
                kubeapi.ItemCreatedAt := types.PodListCreatedAt pod |} ])
  end.

(** The inner loop of [ContainerStatus] over the pod's volumes: every
    volume named as the mount stores its source in [mounts[idx]]. *)
Fixpoint ContainerStatus_hostPath (idx : nat) (mnt : types.VolumeMount)
         (volumes : list types.PodVolume) (mounts : list (option kubeapi.Mount))
  : list (option kubeapi.Mount) :=
  match volumes with
  | [] => mounts
  | v :: rest =>
      let mounts :=
        if String.eqb (types.VolumeName v) (types.VolumeMountName mnt)
        then alter (fmap (kubeapi.set_HostPath (types.Source v))) idx mounts
        else mounts in
      ContainerStatus_hostPath idx mnt rest mounts
  end.

(** The outer loop, from index [idx] on. *)
Fixpoint ContainerStatus_mounts_loop (volumes : list types.PodVolume) (idx : nat)
         (volumeMounts : list types.VolumeMount) (mounts : list (option kubeapi.Mount))
  : list (option kubeapi.Mount) :=
  match volumeMounts with
  | [] => mounts
  | mnt :: rest =>
      let mounts :=
        <[idx := Some {| kubeapi.MountName := types.VolumeMountName mnt;
                         kubeapi.MountContainerPath := types.MountPath mnt;
                         kubeapi.MountReadonly := types.ReadOnly mnt;
                         kubeapi.MountHostPath := None |}]> mounts in
      let mounts := ContainerStatus_hostPath idx mnt volumes mounts in
      ContainerStatus_mounts_loop volumes (S idx) rest mounts
  end.

(** The mounts of [ContainerStatus]: a slice of [len(VolumeMounts)] nil
    pointers, filled by the loop. *)
Definition ContainerStatus_mounts (volumeMounts : list types.VolumeMount)
           (volumes : list types.PodVolume) : list (option kubeapi.Mount) :=
  let mounts := replicate (length volumeMounts) None in
  ContainerStatus_mounts_loop volumes 0 volumeMounts mounts.
End HyperRuntime.
End HyperRuntime.

End hyper.

(** ** Package [manager]

    The RPC-server surface; it carries its own copies of the helpers and of
    the translation code, and calls the daemon through [hyper.Client]. *)
Module manager.

Definition defaultCPUNumber : Z := 1.
Definition defaultMemoryinMegabytes : Z := 128.

(** *** Helpers *)

Fixpoint inList (in_ : string) (list_ : list string) : bool :=
  match list_ with
  | [] => false
  | str :: rest => if String.eqb in_ str then true else inList in_ rest
  end.

Definition inMap (in_ dest : gmap string string) : bool :=
  map_fold
    (fun k v ok =>
       ok && match dest !! k with
             | Some value => String.eqb value v
             | None => false
             end)
    true in_.

Section Time.
Context {Time ParseError : Type}.
Variable Date_0_Local : Time.
Variable Parse : string -> string -> Time * option ParseError.
Variable Unix : Time -> Z.

Definition parseTimeString (str : string) : Z * option ParseError :=
  let t := Date_0_Local in
  if String.eqb str "" then (Unix t, None)
  else
    let layout := "2006-01-02T15:04:05Z" in
    let '(t, err) := Parse layout str in
    match err with
    | Some e => (Unix t, Some e)
    | None => (Unix t, None)
    end.
End Time.

Definition toPodSandboxState (state : string) : kubeapi.PodSandBoxState :=
  if String.eqb state "running" || String.eqb state "Running"
  then kubeapi.PodSandBoxState_READY
  else kubeapi.PodSandBoxState_NOTREADY.

Definition toKubeContainerState (state : string) : kubeapi.ContainerState :=
  if String.eqb state "running" then kubeapi.ContainerState_RUNNING
  else if String.eqb state "pending" then kubeapi.ContainerState_CREATED
  else if String.eqb state "failed" || String.eqb state "succeeded"
       then kubeapi.ContainerState_EXITED
  else kubeapi.ContainerState_UNKNOWN.

(** This copy returns the nil pointer for a nil argument. *)
Definition getHyperAuthConfig (auth : option kubeapi.AuthConfig) : option types.AuthConfig :=
  match auth with
  | None => None
  | Some auth =>
      let config := types.AuthConfig_zero in
      let config :=
        if kubeapi.Username auth is Some _
        then types.set_Username (kubeapi.GetUsername auth) config else config in
      let config :=
        if kubeapi.Password auth is Some _
        then types.set_Password (kubeapi.GetPassword auth) config else config in
      let config :=
        if kubeapi.Auth auth is Some _
        then types.set_Auth (kubeapi.GetAuth auth) config else config in
      let config :=
        if kubeapi.RegistryToken auth is Some _
        then types.set_Registrytoken (kubeapi.GetRegistryToken auth) config else config in
      let config :=
        if kubeapi.ServerAddress auth is Some _
        then types.set_Serveraddress (kubeapi.GetServerAddress auth) config else config in
      Some config
  end.

Definition parseRepositoryTag (repos : string) : option (string * string) :=
  let n := gostrings.Index repos "@" in
  if 0 <=? n then
    let parts := gostrings.Split repos "@" in
    p0 ← parts !! 0%nat;
    p1 ← parts !! 1%nat;
    Some (p0, p1)
  else
    let n := gostrings.LastIndex repos ":" in
    if n <? 0 then Some (repos, "latest")
    else
      tag ← gostrings.slice_from repos (n + 1);
      if negb (gostrings.Contains tag "/")
      then (r ← gostrings.slice_to repos n; Some (r, tag))
      else Some (repos, "latest").

(** *** The server [KubeHyperManager] *)
Module KubeHyperManager.
Section KubeHyperManager.
Context {World Error Stream : Type}.
Variable client : provider.PublicAPIClient World Error Stream.
Variable unrepresentable : gonum.float64 -> Z.
Local Abbreviation M := (provider.M World Error).

Definition CreatePodSandbox_resource (config : kubeapi.PodSandboxConfig)
  : types.UserResource :=
  let vcpu := defaultCPUNumber in
  let memory := defaultMemoryinMegabytes in
  let '(vcpu, memory) :=
    match kubeapi.Resources config with
    | Some resources =>
        let vcpu :=
          match kubeapi.Cpu resources with
          | Some cpu =>
              if gonum.fgt (kubeapi.GetLimits cpu) gonum.f0 then
                let vcpu :=
                  gonum.int_of_float64 unrepresentable
                    (gonum.fadd (kubeapi.GetLimits cpu) gonum.f0_5) in
                if vcpu =? 0 then 1 else vcpu
              else vcpu
          | None => vcpu
          end in
        let memory :=
          match kubeapi.Memory resources with
          | Some mem =>
              if gonum.fgt (kubeapi.GetLimits mem) gonum.f0 then
                gonum.int_of_float64 unrepresentable
                  (gonum.fdiv (gonum.fdiv (kubeapi.GetLimits mem) gonum.f1024)
                              gonum.f1024)
              else memory
          | None => memory
          end in
        (vcpu, memory)
    | None => (vcpu, memory)
    end in
  {| types.Vcpu := gonum.int32_of_int vcpu;
     types.Memory := gonum.int32_of_int memory |}.

Definition CreatePodSandbox_spec (config : kubeapi.PodSandboxConfig) : types.UserPod :=
  let labels := default ∅ (kubeapi.Labels config) in
  let labels :=
    map_fold (fun k v (acc : gmap string string) => <[k:=v]> acc)
             labels (kubeapi.Annotations config) in
  let dns :=
    match kubeapi.DnsOptions config with
    | Some opts => kubeapi.Servers opts
    | None => []
    end in
  {| types.Id := kubeapi.GetName config;
     types.Hostname := kubeapi.GetHostname config;
     types.Labels := labels;
     types.Dns := dns;
     types.Resource := CreatePodSandbox_resource config |}.

Definition CreatePodSandbox (req : kubeapi.CreatePodSandboxRequest)
  : M kubeapi.CreatePodSandboxResponse :=
  let config := kubeapi.Config req in
  let spec := CreatePodSandbox_spec config in
  podID <- hyper.Client.CreatePod client spec ;;
  _ <- hyper.Client.StartPod client podID ;;
  provider.ret {| kubeapi.PodSandboxId := Some podID |}.

Definition StartContainer (req : kubeapi.StartContainerRequest)
  : M kubeapi.StartContainerResponse :=
  let containerID := default "" (kubeapi.StartContainerId req) in
  _ <- hyper.Client.StartContainer client containerID ;;
  provider.ret kubeapi.StartContainerResponse_empty.

Definition StopContainer (req : kubeapi.StopContainerRequest)
  : M kubeapi.StopContainerResponse :=
  let containerID := default "" (kubeapi.StopContainerId req) in
  _ <- hyper.Client.StopContainer (World:=World) containerID
         (default 0 (kubeapi.StopTimeout req)) ;;
  provider.ret kubeapi.StopContainerResponse_empty.

Definition RemoveContainer (req : kubeapi.RemoveContainerRequest)
  : M kubeapi.RemoveContainerResponse :=
  let containerID := default "" (kubeapi.RemoveContainerId req) in
  _ <- hyper.Client.RemoveContainer (World:=World) containerID ;;
  provider.ret kubeapi.RemoveContainerResponse_empty.

Definition ListContainers_skip_listed (filter : option kubeapi.ContainerFilter)
           (c : types.ContainerListResult) (containerName : string) : bool :=
  match filter with
  | Some filter =>
      if (if kubeapi.FilterName filter is Some name
          then negb (String.eqb containerName name) else false) then true
      else if (if kubeapi.FilterId filter is Some id
               then negb (String.eqb (types.ContainerID c) id) else false) then true
      else if (if kubeapi.FilterPodSandboxId filter is Some pod
               then negb (String.eqb (types.PodID c) pod) else false) then true
      else false
  | None => false
  end.

Definition ListContainers_skip_info (filter : option kubeapi.ContainerFilter)
           (info : types.ContainerInfo) (state : kubeapi.ContainerState) : bool :=
  match filter with
  | Some filter =>
      if (if kubeapi.FilterState filter is Some st
          then negb (kubeapi.ContainerState_eqb state st) else false) then true
      else if (if kubeapi.FilterLabelSelector filter is Some sel
               then negb (inMap sel (types.ContainerLabels (types.InfoContainer info)))
               else false) then true
      else false
  | None => false
  end.

Fixpoint ListContainers_loop (filter : option kubeapi.ContainerFilter)
         (containerList : list types.ContainerListResult)
         (containers : list kubeapi.Container) : M (list kubeapi.Container) :=
  match containerList with
  | [] => provider.ret containers
  | c :: rest =>
      let containerName := gostrings.TrimPrefix (types.ContainerName c) "/" in
      if ListContainers_skip_listed filter c containerName
      then ListContainers_loop filter rest containers
      else
        info <- hyper.Client.GetContainerInfo client (types.ContainerID c) ;;
        let state := toKubeContainerState (types.Phase (types.InfoStatus info)) in
        if ListContainers_skip_info filter info state
        then ListContainers_loop filter rest containers
        else
          ListContainers_loop filter rest
            (containers ++
             [ {| kubeapi.ContainerId := types.ContainerID c;
                  kubeapi.ContainerName := containerName;
                  kubeapi.ContainerImage :=
                    {| kubeapi.Image := Some (types.Image (types.InfoContainer info)) |};
                  kubeapi.ContainerImageRef := types.ImageID (types.InfoContainer info);
                  kubeapi.ContainerLabels :=
                    types.ContainerLabels (types.InfoContainer info);
                  kubeapi.ContainerState_ := state |} ])
  end.

Definition ListContainers (req : kubeapi.ListContainersRequest)
  : M kubeapi.ListContainersResponse :=
  containerList <- hyper.Client.GetContainerList client false ;;
  containers <- ListContainers_loop (kubeapi.ListContainersFilter req) containerList [] ;;
  provider.ret {| kubeapi.Containers := containers |}.

Fixpoint ListImages_loop (filter : option kubeapi.ImageFilter)
         (images : list types.ImageInfo) (results : list kubeapi.Image_)
  : list kubeapi.Image_ :=
  match images with
  | [] => results
  | img :: rest =>
      let skip :=
        match filter with
        | Some filter =>
            let filter := kubeapi.GetImage (kubeapi.FilterImage filter) in
            let filter :=
              if negb (gostrings.Contains filter ":")
              then String.append filter ":latest" else filter in
            negb (inList filter (types.RepoTags img))
        | None => false
        end in
      if skip then ListImages_loop filter rest results
      else
        let imageSize := gonum.uint64_of_int64 (types.VirtualSize img) in
        ListImages_loop filter rest
          (results ++
           [ {| kubeapi.ImageId := types.ImageInfoId img;
                kubeapi.ImageRepoTags := types.RepoTags img;
                kubeapi.ImageRepoDigests := types.RepoDigests img;
                kubeapi.ImageSize_ := imageSize |} ])
  end.

Definition ListImages (req : kubeapi.ListImagesRequest) : M kubeapi.ListImagesResponse :=
  images <- hyper.Client.GetImageList client ;;
  provider.ret
    {| kubeapi.Images := ListImages_loop (kubeapi.ListImagesFilter req) images [] |}.
Definition ListPodSandbox_skip (filter : option kubeapi.PodSandboxFilter)
           (pod : types.PodListResult) (state : kubeapi.PodSandBoxState) : bool :=
  if (match filter with
      | Some filter =>
          if (if kubeapi.PodFilterName filter is Some name
              then negb (String.eqb (types.PodListPodName pod) name) else false) then true
          else if (if kubeapi.PodFilterId filter is Some id
                   then negb (String.eqb (types.PodListPodID pod) id) else false) then true
          else if (if kubeapi.PodFilterState filter is Some st
                   then negb (kubeapi.PodSandBoxState_eqb state st) else false) then true
          else false
      | None => false
      end) then true
  else
    match filter with
    | Some filter =>
        if kubeapi.PodFilterLabelSelector filter is Some sel
        then negb (inMap sel (types.PodListLabels pod)) else false
    | None => false
    end.

Fixpoint ListPodSandbox_loop (filter : option kubeapi.PodSandboxFilter)
         (pods : list types.PodListResult) (items : list kubeapi.PodSandboxListItem)
  : list kubeapi.PodSandboxListItem :=
  match pods with
  | [] => items
  | pod :: rest =>
      let state := toPodSandboxState (types.PodListStatus pod) in
      if ListPodSandbox_skip filter pod state
      then ListPodSandbox_loop filter rest items
      else
        ListPodSandbox_loop filter rest
          (items ++
           [ {| kubeapi.ItemId := types.PodListPodID pod;
                kubeapi.ItemName := types.PodListPodName pod;
                kubeapi.ItemLabels := types.PodListLabels pod;
                kubeapi.ItemState := state;
                kubeapi.ItemCreatedAt := types.PodListCreatedAt pod |} ])
  end.
End KubeHyperManager.
End KubeHyperManager.

End manager.

(** ** [ListContainers] on replies that may leave sub-messages out

    In the hyperd API a [ContainerInfo] holds pointers to its [Container]
    and its [Status], and the response of the info call a pointer to the
    [ContainerInfo]; each is nil when the daemon left the sub-message
    out.  [types.ContainerInfo] above stands for a reply in which all
    three are present.  Here the reply is taken as it arrives, and the
    run-time panic of a nil dereference is the result [None]. *)
Module nilable.

Record ContainerInfo := {
  Container : option types.Container;
  PodID : string;
  Status : option types.ContainerStatus
}.

(** The reply in which both sub-messages are present. *)
Definition present (info : types.ContainerInfo) : ContainerInfo :=
  {| Container := Some (types.InfoContainer info);
     PodID := types.InfoPodID info;
     Status := Some (types.InfoStatus info) |}.

Section HyperRuntime.
Context {World Error Stream : Type}.
Variable client : provider.PublicAPIClient World Error Stream.
(** The [ContainerInfo] call of the client with its reply as it arrives:
    [None] is a response without a [ContainerInfo]. *)
Variable ContainerInfo_reply : string -> World -> (Error + option ContainerInfo) * World.
Local Abbreviation M := (provider.M World Error).

Definition GetContainerInfo (container : string) : M (option ContainerInfo) :=
  provider.rpc (provider.EvContainerInfo container) (ContainerInfo_reply container).

(** The loop of [HyperRuntime.ListContainers].  [info.Status.Phase]
    dereferences [info] and [info.Status]; once the state test is passed,
    [info.Container] is dereferenced by the selector test or, without a
    selector, by the container appended. *)
Fixpoint ListContainers_loop (filter : option kubeapi.ContainerFilter)
         (containerList : list types.ContainerListResult)
         (containers : list kubeapi.Container) : M (option (list kubeapi.Container)) :=
  match containerList with
  | [] => provider.ret (Some containers)
  | c :: rest =>
      let containerName := gostrings.TrimPrefix (types.ContainerName c) "/" in
      if hyper.HyperRuntime.ListContainers_skip_listed filter c containerName
      then ListContainers_loop filter rest containers
      else
        info <- GetContainerInfo (types.ContainerID c) ;;
        match info with
        | None => provider.ret None
        | Some info =>
            match Status info with
            | None => provider.ret None
            | Some status =>
                let state := hyper.toKubeContainerState (types.Phase status) in
                if (match filter with
                    | Some filter =>
                        if kubeapi.FilterState filter is Some st
                        then negb (kubeapi.ContainerState_eqb state st) else false
                    | None => false
                    end)
                then ListContainers_loop filter rest containers
                else
                  match Container info with
                  | None => provider.ret None
                  | Some container =>
                      if (match filter with
                          | Some filter =>
                              if kubeapi.FilterLabelSelector filter is Some sel
                              then negb (hyper.inMap sel (types.ContainerLabels container))
                              else false
                          | None => false
                          end)
                      then ListContainers_loop filter rest containers
                      else
                        ListContainers_loop filter rest
                          (containers ++
                           [ {| kubeapi.ContainerId := types.ContainerID c;
                                kubeapi.ContainerName := containerName;
                                kubeapi.ContainerImage :=
                                  {| kubeapi.Image := Some (types.Image container) |};
                                kubeapi.ContainerImageRef := types.ImageID container;
                                kubeapi.ContainerLabels := types.ContainerLabels container;
                                kubeapi.ContainerState_ := state |} ])
                  end
            end
        end
  end.

Definition ListContainers (filter : option kubeapi.ContainerFilter)
  : M (option (list kubeapi.Container)) :=
  containerList <- hyper.Client.GetContainerList client false ;;
  ListContainers_loop filter containerList [].

End HyperRuntime.

(** The replies of a daemon that never leaves a sub-message out. *)
Definition complete_replies {World Error Stream : Type}
           (client : provider.PublicAPIClient World Error Stream)
  : string -> World -> (Error + option ContainerInfo) * World :=
  fun container w =>
    let '(r, w') := provider.ContainerInfo client container w in
    (match r with
     | inl e => inl e
     | inr info => inr (Some (present info))
     end, w').

End nilable.

(** ** Reference definitions, written from the specification's words *)
Module reference.

(** Whether the byte [c] occurs in [s]. *)
Fixpoint occurs (c : ascii) (s : string) : bool :=
  match s with
  | EmptyString => false
  | String a s' => Ascii.eqb a c || occurs c s'
  end.

(** The split of [s] on all occurrences of [c], reading [s] from the left
    and closing the current part [cur] at every [c]. *)
Fixpoint split_all (c : ascii) (cur : string) (s : string) : list string :=
  match s with
  | EmptyString => [cur]
  | String a s' =>
      if Ascii.eqb a c then cur :: split_all c EmptyString s'
      else split_all c (String.append cur (String a EmptyString)) s'
  end.

(** The parts joined again, with [c] between them. *)
Fixpoint join (c : ascii) (parts : list string) : string :=
  match parts with
  | [] => EmptyString
  | [p] => p
  | p :: ps => String.append p (String c (join c ps))
  end.

(** [s] cut at its last [c]: what is before and what is after it. *)
Fixpoint cut_last (c : ascii) (s : string) : option (string * string) :=
  match s with
  | EmptyString => None
  | String a s' =>
      match cut_last c s' with
      | Some (l, r) => Some (String a l, r)
      | None => if Ascii.eqb a c then Some (EmptyString, s') else None
      end
  end.

(** The reference parser: with an ['@'], the first two parts of the split
    on all ['@']; otherwise [(ref, "latest")] when there is no [':'] or
    when what follows the last [':'] contains ['/'], else the cut at the
    last [':']. *)
Definition parseRepositoryTag (ref : string) : string * string :=
  if occurs "@" ref then
    let parts := split_all "@" EmptyString ref in
    (nth 0 parts EmptyString, nth 1 parts EmptyString)
  else
    match cut_last ":" ref with
    | None => (ref, "latest")
    | Some (repository, tag) =>
        if occurs "/" tag then (ref, "latest") else (repository, tag)
    end.

(** The exact value of a finite float; infinities and NaN have none and
    are given 0 here. *)
Definition value (f : spec_float) : Q :=
  match f with
  | S754_finite s m e => (inject_Z (cond_Zopp s (Z.pos m)) * Qpower 2 e)%Q
  | _ => 0%Q
  end.

Definition is_finite (f : spec_float) : bool :=
  match f with
  | S754_finite _ _ _ | S754_zero _ => true
  | _ => false
  end.

(** A float whose sign bit is clear, or NaN. *)
Definition nonneg_or_nan (f : spec_float) : Prop :=
  match f with
  | S754_zero s | S754_infinity s | S754_finite s _ _ => s = false
  | S754_nan => True
  end.

(** The CPU and memory limits of a sandbox configuration, when set. *)
Definition cpu_limit (config : kubeapi.PodSandboxConfig) : option spec_float :=
  match kubeapi.Resources config with
  | Some resources =>
      match kubeapi.Cpu resources with
      | Some cpu => kubeapi.Limits cpu
      | None => None
      end
  | None => None
  end.

Definition memory_limit (config : kubeapi.PodSandboxConfig) : option spec_float :=
  match kubeapi.Resources config with
  | Some resources =>
      match kubeapi.Memory resources with
      | Some mem => kubeapi.Limits mem
      | None => None
      end
  | None => None
  end.

(** Round half up: [floor (limit + 0.5)], at least 1. *)
Definition vcpu_of (limit : spec_float) : Z :=
  Z.max 1 (Qfloor (value limit + (1 # 2))%Q).

(** [floor (limit_bytes / 1024 / 1024)]. *)
Definition memoryMB_of (limit : spec_float) : Z :=
  Qfloor (value limit / inject_Z 1024 / inject_Z 1024)%Q.

(** The translation as the specification words it, for limits that are
    numbers: the defaults when a limit is unset or not positive, the two
    formulas otherwise. *)
Definition translate (cpu memory : option spec_float) : Z * Z :=
  (match cpu with
   | Some limit => if Qlt_le_dec 0 (value limit) then vcpu_of limit else 1
   | None => 1
   end,
   match memory with
   | Some limit => if Qlt_le_dec 0 (value limit) then memoryMB_of limit else 128
   | None => 128
   end).

(** *** Rounding, for the proofs about [float64] arithmetic

    [inbetween m l N D]: the rational [N / D] lies in [[m, m + 1)] at the
    place the location [l] says (exactly [m], below, at or above the
    middle). *)
Definition inbetween (m : Z) (l : location) (N D : Z) : Prop :=
  match l with
  | loc_Exact => N = m * D
  | loc_Inexact Lt => m * D < N /\ 2 * (N - m * D) < D
  | loc_Inexact Eq => 2 * (N - m * D) = D
  | loc_Inexact Gt => D < 2 * (N - m * D) /\ N < (m + 1) * D
  end.

(** A shift record that stands for [N / (D * 2^k)]. *)
Definition represents (N D : Z) (k : Z) (mrs : shr_record) : Prop :=
  0 <= shr_m mrs /\ inbetween (shr_m mrs) (loc_of_shr_record mrs) N (D * 2 ^ k).

(** The float [f] has sign [sx] and value [z * 2^e1] (or is the infinity
    that an exponent above 971 gives). *)
Definition rounded (sx : bool) (z e1 : Z) (f : spec_float) : Prop :=
  (z = 0 /\ f = S754_zero sx)
  \/ (0 < z /\ exists m3 e3,
        Z.pos m3 * 2 ^ (e3 - e1) = z /\ e1 <= e3 <= e1 + 1
        /\ Z.pos m3 < 2 ^ 53 /\ -1074 <= e3
        /\ f = if e3 <=? 971 then S754_finite sx m3 e3 else S754_infinity sx).

(** A limit that is unset, or a well-formed [float64] other than
    [+Inf]. *)
Definition number_or_unset (limit : option spec_float) : Prop :=
  match limit with
  | Some f => valid_binary 53 1024 f = true /\ f <> S754_infinity false
  | None => True
  end.

(** A provider field after translation: the request's value when the
    request sets the field, the default (empty) value otherwise. *)
Definition copied (field : option string) : string :=
  match field with
  | Some v => v
  | None => EmptyString
  end.

(** The consumer-side image built from a listed provider image. *)
Definition image_of (img : types.ImageInfo) : kubeapi.Image_ :=
  {| kubeapi.ImageId := types.ImageInfoId img;
     kubeapi.ImageRepoTags := types.RepoTags img;
     kubeapi.ImageRepoDigests := types.RepoDigests img;
     kubeapi.ImageSize_ := types.VirtualSize img mod 2 ^ 64 |}.

(** The filter reference of [ListImages] after normalisation. *)
Definition normalized (image : string) : string :=
  if occurs ":" image then image else String.append image ":latest".

End reference.

(** ** What the filters select, stated on the data

    Declarative counterparts of the tests that the listing loops make
    with [continue], and of the values they append. *)
Module selects.

(** An optional filter field accepts every value when it is unset. *)
Definition field {A} (eqb : A -> A -> bool) (want : option A) (got : A) : bool :=
  match want with
  | Some w => eqb got w
  | None => true
  end.

(** A label selector accepts the label sets that contain it. *)
Definition labels (want : option (gmap string string)) (got : gmap string string) : bool :=
  match want with
  | Some sel => bool_decide (sel ⊆ got)
  | None => true
  end.

(** The name under which a listed container is reported. *)
Definition name_of (c : types.ContainerListResult) : string :=
  gostrings.TrimPrefix (types.ContainerName c) "/".

(** The part of a container filter decided on the listing entry. *)
Definition listed (filter : option kubeapi.ContainerFilter)
           (c : types.ContainerListResult) : bool :=
  match filter with
  | Some f =>
      field String.eqb (kubeapi.FilterName f) (name_of c)
      && field String.eqb (kubeapi.FilterId f) (types.ContainerID c)
      && field String.eqb (kubeapi.FilterPodSandboxId f) (types.PodID c)
  | None => true
  end.

(** The part decided on the container's info. *)
Definition described (filter : option kubeapi.ContainerFilter)
           (info : types.ContainerInfo) : bool :=
  match filter with
  | Some f =>
      field kubeapi.ContainerState_eqb (kubeapi.FilterState f)
            (hyper.toKubeContainerState (types.Phase (types.InfoStatus info)))
      && labels (kubeapi.FilterLabelSelector f)
                (types.ContainerLabels (types.InfoContainer info))
  | None => true
  end.

(** The state test alone, on the status of a reply. *)
Definition state (filter : option kubeapi.ContainerFilter) (status : types.ContainerStatus)
  : bool :=
  match filter with
  | Some f =>
      field kubeapi.ContainerState_eqb (kubeapi.FilterState f)
            (hyper.toKubeContainerState (types.Phase status))
  | None => true
  end.

(** The replies on which the listing loop dereferences a nil pointer: no
    [ContainerInfo], no [Status], or a state that passes the filter and
    no [Container]. *)
Definition nil_dereferenced (filter : option kubeapi.ContainerFilter)
           (reply : option nilable.ContainerInfo) : bool :=
  match reply with
  | None => true
  | Some info =>
      match nilable.Status info with
      | None => true
      | Some status =>
          state filter status
          && match nilable.Container info with
             | None => true
             | Some _ => false
             end
      end
  end.

(** The reported container of a listing entry and its info. *)
Definition container (c : types.ContainerListResult) (info : types.ContainerInfo)
  : kubeapi.Container :=
  {| kubeapi.ContainerId := types.ContainerID c;
     kubeapi.ContainerName := name_of c;
     kubeapi.ContainerImage :=
       {| kubeapi.Image := Some (types.Image (types.InfoContainer info)) |};
     kubeapi.ContainerImageRef := types.ImageID (types.InfoContainer info);
     kubeapi.ContainerLabels := types.ContainerLabels (types.InfoContainer info);
     kubeapi.ContainerState_ :=
       hyper.toKubeContainerState (types.Phase (types.InfoStatus info)) |}.

(** The sandboxes a sandbox filter accepts, and the reported item. *)
Definition pod (filter : option kubeapi.PodSandboxFilter) (p : types.PodListResult) : bool :=
  match filter with
  | Some f =>
      field String.eqb (kubeapi.PodFilterName f) (types.PodListPodName p)
      && field String.eqb (kubeapi.PodFilterId f) (types.PodListPodID p)
      && field kubeapi.PodSandBoxState_eqb (kubeapi.PodFilterState f)
               (hyper.toPodSandboxState (types.PodListStatus p))
      && labels (kubeapi.PodFilterLabelSelector f) (types.PodListLabels p)
  | None => true
  end.

Definition item (p : types.PodListResult) : kubeapi.PodSandboxListItem :=
  {| kubeapi.ItemId := types.PodListPodID p;
     kubeapi.ItemName := types.PodListPodName p;
     kubeapi.ItemLabels := types.PodListLabels p;
     kubeapi.ItemState := hyper.toPodSandboxState (types.PodListStatus p);
     kubeapi.ItemCreatedAt := types.PodListCreatedAt p |}.

(** The source of the last volume called [name], if there is one. *)
Definition host_path (name : string) (volumes : list types.PodVolume) : option string :=
  types.Source <$> last (filter (fun v => types.VolumeName v = name) volumes).

Definition mount (volumes : list types.PodVolume) (mnt : types.VolumeMount) : kubeapi.Mount :=
  {| kubeapi.MountName := types.VolumeMountName mnt;
     kubeapi.MountContainerPath := types.MountPath mnt;
     kubeapi.MountReadonly := types.ReadOnly mnt;
     kubeapi.MountHostPath := host_path (types.VolumeMountName mnt) volumes |}.

End selects.

(** ** Timestamps, described by their parts

    A timestamp written [Y-M-DTh:m:s] with an optional fraction and a
    final [Z], each part a string of digits. *)
Module timestamp.

Record parts := {
  Y : string; M : string; D : string; h : string; m : string; s : string; frac : string
}.

Fixpoint digits_only (ds : string) : bool :=
  match ds with
  | String c ds' => gotime.isDigit c && digits_only ds'
  | EmptyString => true
  end.

(** The number that the decimal digits [ds] write. *)
Definition number (ds : string) : Z := gotime.atoi 0 ds.

Definition render (p : parts) : string :=
  String.append (Y p) (String "-"
 (String.append (M p) (String "-"
 (String.append (D p) (String "T"
 (String.append (h p) (String ":"
 (String.append (m p) (String ":"
 (String.append (s p)
 (String.append (frac p) "Z"))))))))))).

(** No fraction, or a period or comma and at least one digit. *)
Definition fraction_ok (fr : string) : bool :=
  match fr with
  | EmptyString => true
  | String sep ds =>
      (Ascii.eqb sep "." || Ascii.eqb sep ",")
      && negb (String.eqb ds "") && digits_only ds
  end.

Definition nanoseconds (fr : string) : Z :=
  match fr with
  | EmptyString => 0
  | String _ ds => gotime.parseNanoseconds ds
  end.

(** Four digits of year, two of month, day, minute and second, one or two
    of hour, and the numbers name a month, a day of that month and a time
    of day. *)
Definition well_formed (p : parts) : bool :=
  digits_only (Y p) && (String.length (Y p) =? 4)%nat
  && digits_only (M p) && (String.length (M p) =? 2)%nat
  && digits_only (D p) && (String.length (D p) =? 2)%nat
  && digits_only (h p)
  && ((String.length (h p) =? 1)%nat || (String.length (h p) =? 2)%nat)
  && digits_only (m p) && (String.length (m p) =? 2)%nat
  && digits_only (s p) && (String.length (s p) =? 2)%nat
  && fraction_ok (frac p)
  && (1 <=? number (M p)) && (number (M p) <=? 12)
  && (1 <=? number (D p)) && (number (D p) <=? gotime.daysIn (number (M p)) (number (Y p)))
  && (number (h p) <? 24) && (number (m p) <? 60) && (number (s p) <? 60).

(** The time that the parts name, in UTC. *)
Definition time_of (p : parts) : gotime.Time :=
  gotime.Date (number (Y p)) (number (M p)) (number (D p))
              (number (h p)) (number (m p)) (number (s p))
              (nanoseconds (frac p)) gotime.UTC.

(** The strings of the form [YYYY-MM-DDTh[h]:mm:ss[fraction]Z]. *)
Definition accepted (str : string) : Prop :=
  exists p, well_formed p = true /\ str = render p.

(** The strings that match the layout as the specification writes it,
    [YYYY-MM-DDThh:mm:ssZ]: two digits of hour and no fraction. *)
Definition matches_layout (str : string) : Prop :=
  exists p, well_formed p = true
            /\ String.length (h p) = 2%nat /\ frac p = EmptyString
            /\ str = render p.

End timestamp.

(** ** A small daemon to run the adapter on

    Five listed containers ["c1"] .. ["c5"], all of pod ["pod1"]; the info
    lookup fails for ["c3"] and succeeds for every other id.  The state is
    the list of running pods; stopping a pod that is not running is an
    error. *)
Module demo.

Definition World := list string.
Definition Error := string.
Definition Stream := unit.

Definition listed (id name : string) : types.ContainerListResult :=
  {| types.ContainerID := id; types.ContainerName := name; types.PodID := "pod1" |}.

Definition listing : list types.ContainerListResult :=
  [listed "c1" "/web"; listed "c2" "/db"; listed "c3" "/cache";
   listed "c4" "/log"; listed "c5" "/proxy"].

Definition info1 : types.ContainerInfo :=
  {| types.InfoContainer :=
       {| types.Image := "nginx:1.19"; types.ImageID := "sha256:0a";
          types.ContainerLabels := {[ "app" := "web" ]} |};
     types.InfoPodID := "pod1";
     types.InfoStatus := {| types.Phase := "running" |} |}.

Definition nginx : types.ImageInfo :=
  {| types.ImageInfoId := "sha256:0a"; types.RepoTags := ["nginx:latest"; "nginx:1.19"];
     types.RepoDigests := []; types.VirtualSize := 1000 |}.
Definition foo : types.ImageInfo :=
  {| types.ImageInfoId := "localhost:5000/foo";
     types.RepoTags := ["localhost:5000/foo:latest"];
     types.RepoDigests := ["localhost:5000/foo@sha256:0b"]; types.VirtualSize := 2000 |}.

Fixpoint without (p : string) (w : World) : World :=
  match w with
  | [] => []
  | q :: w' => if String.eqb p q then without p w' else q :: without p w'
  end.

Definition client : provider.PublicAPIClient World Error Stream :=
  {| provider.ContainerList := fun _ w => (inr listing, w);
     provider.ContainerInfo := fun c w =>
       if String.eqb c "c3" then (inl "no such container", w) else (inr info1, w);
     provider.ImageList := fun w => (inr [nginx; foo], w);
     provider.PodCreate := fun spec w => (inr (types.Id spec), w);
     provider.PodStart := fun w => (inr tt, w);
     provider.PodStart_Send := fun _ p w => (inr tt, p :: w);
     provider.PodStart_Recv := fun _ w => (inr tt, w);
     provider.PodStop := fun p w =>
       if hyper.inList p w then (inr (0, ""), without p w)
       else (inl "pod is not running", w) |}.

Definition running (w : World) : provider.State World :=
  {| provider.world := w; provider.trace := [] |}.

(** Sandbox configurations with the given limits and nothing else. *)
Definition limits (cpu memory : option gonum.float64) : kubeapi.PodSandboxConfig :=
  {| kubeapi.Name := Some "sandbox"; kubeapi.Hostname := None;
     kubeapi.Labels := None; kubeapi.Annotations := ∅;
     kubeapi.DnsOptions := None;
     kubeapi.Resources :=
       Some {| kubeapi.Cpu := Some {| kubeapi.Limits := cpu |};
               kubeapi.Memory := Some {| kubeapi.Limits := memory |} |} |}.

(** The floats nearest to 0.4 and 2.6, and some exact ones. *)
Definition f0_4 : gonum.float64 := S754_finite false 7205759403792794 (-54).
Definition f2_6 : gonum.float64 := S754_finite false 5854679515581645 (-51).
Definition f1 : gonum.float64 := gonum.float64_of_Z 1.
Definition f300MiB : gonum.float64 := gonum.float64_of_Z (300 * 1024 * 1024).
Definition f2p32 : gonum.float64 := gonum.float64_of_Z (2 ^ 32).

(** A second container info, and a daemon on which every lookup
    succeeds: ["c2"] is pending with other labels. *)
Definition info2 : types.ContainerInfo :=
  {| types.InfoContainer :=
       {| types.Image := "postgres:13"; types.ImageID := "sha256:0c";
          types.ContainerLabels := {[ "app" := "db" ]} |};
     types.InfoPodID := "pod1";
     types.InfoStatus := {| types.Phase := "pending" |} |}.

Definition info_of (c : string) : types.ContainerInfo :=
  if String.eqb c "c2" then info2 else info1.

Definition steady : provider.PublicAPIClient World Error Stream :=
  {| provider.ContainerList := fun _ w => (inr listing, w);
     provider.ContainerInfo := fun c w => (inr (info_of c), w);
     provider.ImageList := fun w => (inl "daemon is busy", w);
     provider.PodCreate := fun spec w => (inr (String.append "pod-" (types.Id spec)), w);
     provider.PodStart := fun w => (inr tt, w);
     provider.PodStart_Send := fun _ p w => (inr tt, p :: w);
     provider.PodStart_Recv := fun _ w => (inr tt, w);
     provider.PodStop := fun p w => (inr (0, ""), without p w) |}.

(** A clock for [parseTimeString]: the days from 1970-01-01 to the day
    [d] of month [m] (1 to 12) of year [y], and [Time.Unix] where the
    local zone is UTC; months outside 1 to 12 carry into the year, days
    outside the month into the neighbouring months, as [time.Date]
    normalises them. *)
Definition days_from_civil (y m d : Z) : Z :=
  let y := if m <=? 2 then y - 1 else y in
  let era := y / 400 in
  let yoe := y - era * 400 in
  let doy := (153 * (if 2 <? m then m - 3 else m + 9) + 2) / 5 + d - 1 in
  let doe := yoe * 365 + yoe / 4 - yoe / 100 + doy in
  era * 146097 + doe - 719468.

Definition Unix (t : gotime.Time) : Z :=
  let y := gotime.year t + (gotime.month t - 1) / 12 in
  let m := (gotime.month t - 1) mod 12 + 1 in
  days_from_civil y m (gotime.day t) * 86400
  + gotime.hour t * 3600 + gotime.min t * 60 + gotime.sec t.

(** The steady daemon, but no answer comes on the start stream. *)
Definition deaf : provider.PublicAPIClient World Error Stream :=
  {| provider.ContainerList := provider.ContainerList steady;
     provider.ContainerInfo := provider.ContainerInfo steady;
     provider.ImageList := provider.ImageList steady;
     provider.PodCreate := provider.PodCreate steady;
     provider.PodStart := provider.PodStart steady;
     provider.PodStart_Send := provider.PodStart_Send steady;
     provider.PodStart_Recv := fun _ w => (inl "no answer", w);
     provider.PodStop := provider.PodStop steady |}.

(** Replies as they arrive: the one for ["c2"] has no [Status]. *)
Definition reply_of (c : string) : option nilable.ContainerInfo :=
  if String.eqb c "c2"
  then Some {| nilable.Container := Some (types.InfoContainer info2);
               nilable.PodID := "pod1"; nilable.Status := None |}
  else Some (nilable.present info1).

End demo.

(* ===================================================================== *)
(** * Part II: properties                                                  *)
(* ===================================================================== *)

(** ** Running computations *)

Section Run.
Context {World Error : Type}.
Local Abbreviation M := (provider.M World Error).

Lemma run_rpc {A} (ev : provider.Event) (call : World -> (Error + A) * World)
      (st : provider.State World) :
  provider.rpc ev call st =
  (fst (call (provider.world st)),
   {| provider.world := snd (call (provider.world st));
      provider.trace := provider.trace st ++ [ev] |}).
Proof. unfold provider.rpc. destruct (call (provider.world st)); reflexivity. Qed.

Lemma run_bind_inl {A B} (m : M A) (k : A -> M B) st e st' :
  m st = (inl e, st') -> provider.bind m k st = (inl e, st').
Proof. intros H. unfold provider.bind. rewrite H. reflexivity. Qed.

Lemma run_bind_inr {A B} (m : M A) (k : A -> M B) st a st' :
  m st = (inr a, st') -> provider.bind m k st = k a st'.
Proof. intros H. unfold provider.bind. rewrite H. reflexivity. Qed.

Lemma run_bind_ret {A} (m : M A) st :
  fst (provider.bind m (fun _ => provider.ret tt) st) =
  match fst (m st) with inl e => inl e | inr _ => inr tt end
  /\ snd (provider.bind m (fun _ => provider.ret tt) st) = snd (m st).
Proof. unfold provider.bind, provider.ret. destruct (m st) as [[e|a] st']; auto. Qed.

(** The events issued, read off a final trace that extends the initial
    one. *)
Lemma issued_app {A} (m : M A) st evs :
  provider.trace (snd (m st)) = provider.trace st ++ evs ->
  provider.issued m st = evs.
Proof.
  intros H. unfold provider.issued. rewrite H. apply drop_app_length.
Qed.
End Run.

(** ** Status mapper *)

Lemma eqb_running_Running : String.eqb "Running" "running" = false.
Proof. reflexivity. Qed.

Lemma toPodSandboxState_READY (phase : string) :
  hyper.toPodSandboxState phase = kubeapi.PodSandBoxState_READY
  <-> phase = "running" \/ phase = "Running".
Proof.
  unfold hyper.toPodSandboxState.
  destruct (String.eqb_spec phase "running") as [->|H1]; simpl.
  - split; auto.
  - destruct (String.eqb_spec phase "Running") as [->|H2]; simpl.
    + split; auto.
    + split; [discriminate | intros [?|?]; contradiction].
Qed.

Lemma toKubeContainerState_cases (phase : string) :
  (phase = "running" /\ hyper.toKubeContainerState phase = kubeapi.ContainerState_RUNNING)
  \/ (phase = "pending" /\ hyper.toKubeContainerState phase = kubeapi.ContainerState_CREATED)
  \/ ((phase = "failed" \/ phase = "succeeded")
      /\ hyper.toKubeContainerState phase = kubeapi.ContainerState_EXITED)
  \/ (phase <> "running" /\ phase <> "pending" /\ phase <> "failed" /\ phase <> "succeeded"
      /\ hyper.toKubeContainerState phase = kubeapi.ContainerState_UNKNOWN).
Proof.
  unfold hyper.toKubeContainerState.
  destruct (String.eqb_spec phase "running") as [->|H1]; [left; auto|].
  destruct (String.eqb_spec phase "pending") as [->|H2]; [right; left; auto|].
  destruct (String.eqb_spec phase "failed") as [->|H3]; [right; right; left; auto|].
  destruct (String.eqb_spec phase "succeeded") as [->|H4]; [right; right; left; auto|].
  right; right; right. simpl. auto.
Qed.

(** The two packages carry the same mappers. *)
Lemma manager_toPodSandboxState (phase : string) :
  manager.toPodSandboxState phase = hyper.toPodSandboxState phase.
Proof. reflexivity. Qed.

Lemma manager_toKubeContainerState (phase : string) :
  manager.toKubeContainerState phase = hyper.toKubeContainerState phase.
Proof. reflexivity. Qed.

(** C3: both status mappers are total functions of the phase string and
    follow the table, byte for byte: the sandbox is READY exactly for
    ["running"] and ["Running"] and NOT_READY otherwise; a container is
    RUNNING exactly for ["running"], CREATED exactly for ["pending"], EXITED
    exactly for ["failed"] and ["succeeded"], UNKNOWN exactly for every other
    string, so ["Running"] is UNKNOWN for a container.  The copies of package
    [manager] agree with those of package [hyper]. *)
Theorem status_mapper_table (phase : string) :
  (hyper.toPodSandboxState phase = kubeapi.PodSandBoxState_READY
   <-> phase = "running" \/ phase = "Running")
  /\ (hyper.toPodSandboxState phase = kubeapi.PodSandBoxState_NOTREADY
      <-> ~ (phase = "running" \/ phase = "Running"))
  /\ (hyper.toKubeContainerState phase = kubeapi.ContainerState_RUNNING
      <-> phase = "running")
  /\ (hyper.toKubeContainerState phase = kubeapi.ContainerState_CREATED
      <-> phase = "pending")
  /\ (hyper.toKubeContainerState phase = kubeapi.ContainerState_EXITED
      <-> phase = "failed" \/ phase = "succeeded")
  /\ (hyper.toKubeContainerState phase = kubeapi.ContainerState_UNKNOWN
      <-> phase <> "running" /\ phase <> "pending"
          /\ phase <> "failed" /\ phase <> "succeeded")
  /\ hyper.toKubeContainerState "Running" = kubeapi.ContainerState_UNKNOWN
  /\ manager.toPodSandboxState phase = hyper.toPodSandboxState phase
  /\ manager.toKubeContainerState phase = hyper.toKubeContainerState phase.
Proof.
  pose proof (toPodSandboxState_READY phase) as HR.
  pose proof (toKubeContainerState_cases phase) as HC.
  split; [exact HR|]. split.
  { destruct (hyper.toPodSandboxState phase) eqn:E.
    - split; [discriminate | intros HN; exfalso; apply HN, HR; reflexivity].
    - split; [intros _ HP; apply HR in HP; discriminate | reflexivity]. }
  repeat (split; [ solve [ destruct HC as [[? E]|[[? E]|[[[?|?] E]|(?&?&?&?&E)]]];
                           subst; rewrite ?E; intuition (congruence || discriminate) ] | ]).
  repeat split; reflexivity.
Qed.

(** ** Lifecycle bridge *)

Section Lifecycle.
Context {World Error Stream : Type}.
Variable client : provider.PublicAPIClient World Error Stream.

Lemma extend_extend (st : provider.State World) w1 w2 evs1 evs2 :
  provider.extend (provider.extend st w1 evs1) w2 evs2
  = provider.extend st w2 (evs1 ++ evs2).
Proof. unfold provider.extend; simpl. rewrite <- app_assoc. reflexivity. Qed.

Lemma issued_extend {A} (m : provider.M World Error A) st r w evs :
  m st = (r, provider.extend st w evs) -> provider.issued m st = evs.
Proof. intros H. apply issued_app. rewrite H. reflexivity. Qed.

Lemma run_GetContainerInfo c st :
  hyper.Client.GetContainerInfo client c st
  = (fst (provider.ContainerInfo client c (provider.world st)),
     provider.extend st (snd (provider.ContainerInfo client c (provider.world st)))
                     [provider.EvContainerInfo c]).
Proof. unfold hyper.Client.GetContainerInfo. apply run_rpc. Qed.

Lemma run_StopPod p st :
  hyper.Client.StopPod client p st
  = (fst (provider.PodStop client p (provider.world st)),
     provider.extend st (snd (provider.PodStop client p (provider.world st)))
                     [provider.EvPodStop p]).
Proof. unfold hyper.Client.StopPod. apply run_rpc. Qed.

(** [StartPod] opens the stream, sends the pod id and waits for the
    answer; it stops at the first failure. *)
Lemma StartPod_issued p st :
  exists w tail,
    snd (hyper.Client.StartPod client p st)
    = provider.extend st w (provider.EvPodStart :: tail)
    /\ (tail = [] \/ tail = [provider.EvPodStartSend p]
        \/ tail = [provider.EvPodStartSend p; provider.EvPodStartRecv])
    /\ (fst (hyper.Client.StartPod client p st) = inr tt ->
        tail = [provider.EvPodStartSend p; provider.EvPodStartRecv]).
Proof.
  unfold hyper.Client.StartPod, provider.bind.
  rewrite run_rpc.
  destruct (provider.PodStart client (provider.world st)) as [[e|stream] w1]; simpl.
  { exists w1, []. split; [reflexivity|]. split; [auto | discriminate]. }
  rewrite run_rpc; simpl.
  destruct (provider.PodStart_Send client stream p w1) as [[e|[]] w2]; simpl.
  { exists w2, [provider.EvPodStartSend p].
    split; [unfold provider.extend; simpl; rewrite <- app_assoc; reflexivity|].
    split; [auto | discriminate]. }
  rewrite run_rpc; simpl.
  destruct (provider.PodStart_Recv client stream w2) as [[e|[]] w3]; simpl;
    exists w3, [provider.EvPodStartSend p; provider.EvPodStartRecv];
    (split; [unfold provider.extend; simpl; rewrite <- !app_assoc; reflexivity|]);
    split; auto.
Qed.

Lemma bind_ret_tt (m : provider.M World Error unit) st :
  provider.bind m (fun _ => provider.ret tt) st = m st.
Proof.
  unfold provider.bind, provider.ret. destruct (m st) as [[e|[]] st']; reflexivity.
Qed.

(** C1: [StartContainer] looks the container up, stops the owning pod
    once and then starts that pod once, and issues nothing else (so no
    per-container start).  A failed lookup is returned after the lookup
    alone; a failed stop is returned after lookup and stop, without any
    start.  Both surfaces only pass the client's result on. *)
Theorem StartContainer_restarts_pod (c : string) (st : provider.State World) :
  let lookup := provider.ContainerInfo client c (provider.world st) in
  (forall e w1, lookup = (inl e, w1) ->
     hyper.Client.StartContainer client c st
     = (inl e, provider.extend st w1 [provider.EvContainerInfo c]))
  /\ (forall info w1, lookup = (inr info, w1) ->
      let p := types.InfoPodID info in
      (forall e w2, provider.PodStop client p w1 = (inl e, w2) ->
         hyper.Client.StartContainer client c st
         = (inl e, provider.extend st w2 [provider.EvContainerInfo c; provider.EvPodStop p]))
      /\ (forall r w2, provider.PodStop client p w1 = (inr r, w2) ->
          hyper.Client.StartContainer client c st
          = hyper.Client.StartPod client p
              (provider.extend st w2 [provider.EvContainerInfo c; provider.EvPodStop p])
          /\ exists tail,
              provider.issued (hyper.Client.StartContainer client c) st
              = [provider.EvContainerInfo c; provider.EvPodStop p; provider.EvPodStart]
                  ++ tail
              /\ (tail = [] \/ tail = [provider.EvPodStartSend p]
                  \/ tail = [provider.EvPodStartSend p; provider.EvPodStartRecv])
              /\ (fst (hyper.Client.StartContainer client c st) = inr tt ->
                  tail = [provider.EvPodStartSend p; provider.EvPodStartRecv])))
  /\ hyper.HyperRuntime.StartContainer client c st = hyper.Client.StartContainer client c st
  /\ (forall req, default "" (kubeapi.StartContainerId req) = c ->
      manager.KubeHyperManager.StartContainer client req st
      = (match fst (hyper.Client.StartContainer client c st) with
         | inl e => inl e
         | inr _ => inr kubeapi.StartContainerResponse_empty
         end,
         snd (hyper.Client.StartContainer client c st))).
Proof.
  intros lookup. subst lookup.
  split; [|split; [|split]].
  - intros e w1 H.
    unfold hyper.Client.StartContainer.
    apply run_bind_inl. rewrite run_GetContainerInfo, H. reflexivity.
  - intros info w1 H p.
    assert (Hinfo : hyper.Client.GetContainerInfo client c st
                    = (inr info, provider.extend st w1 [provider.EvContainerInfo c])).
    { rewrite run_GetContainerInfo, H. reflexivity. }
    split.
    + intros e w2 HS.
      unfold hyper.Client.StartContainer.
      rewrite (run_bind_inr _ _ _ _ _ Hinfo).
      apply run_bind_inl. rewrite run_StopPod. simpl. fold p. rewrite HS. simpl.
      rewrite extend_extend. reflexivity.
    + intros r w2 HS.
      assert (Hrun : hyper.Client.StartContainer client c st
                     = hyper.Client.StartPod client p
                         (provider.extend st w2
                            [provider.EvContainerInfo c; provider.EvPodStop p])).
      { unfold hyper.Client.StartContainer.
        rewrite (run_bind_inr _ _ _ _ _ Hinfo).
        assert (Hstop : hyper.Client.StopPod client p
                          (provider.extend st w1 [provider.EvContainerInfo c])
                        = (inr r, provider.extend st w2
                                    [provider.EvContainerInfo c; provider.EvPodStop p])).
        { rewrite run_StopPod. simpl. rewrite HS. simpl.
          rewrite extend_extend. reflexivity. }
        fold p. rewrite (run_bind_inr _ _ _ _ _ Hstop).
        apply bind_ret_tt. }
      split; [exact Hrun|].
      destruct (StartPod_issued p
                  (provider.extend st w2 [provider.EvContainerInfo c; provider.EvPodStop p]))
        as (w & tail & Hsnd & Hshape & Hok).
      exists tail. split; [|split].
      * apply issued_app. rewrite Hrun, Hsnd. unfold provider.extend; simpl.
        rewrite <- app_assoc. reflexivity.
      * exact Hshape.
      * rewrite Hrun. exact Hok.
  - unfold hyper.HyperRuntime.StartContainer. apply bind_ret_tt.
  - intros req Hreq.
    unfold manager.KubeHyperManager.StartContainer. rewrite Hreq.
    unfold provider.bind, provider.ret.
    destruct (hyper.Client.StartContainer client c st) as [[e|[]] st']; reflexivity.
Qed.

(** C2: [StopContainer] and [RemoveContainer] succeed for every id and
    timeout on every surface, issue no call and leave the daemon and the
    trace as they were; so does a second [StopContainer] after the
    first. *)
Theorem StopContainer_RemoveContainer_noop
        (id : string) (timeout : Z) (st : provider.State World) :
  hyper.Client.StopContainer (Error:=Error) id timeout st = (inr tt, st)
  /\ hyper.Client.RemoveContainer (Error:=Error) id st = (inr tt, st)
  /\ hyper.HyperRuntime.StopContainer (Error:=Error) id timeout st = (inr tt, st)
  /\ hyper.HyperRuntime.RemoveContainer (Error:=Error) id st = (inr tt, st)
  /\ (forall req,
        manager.KubeHyperManager.StopContainer (Error:=Error) req st
        = (inr kubeapi.StopContainerResponse_empty, st))
  /\ (forall req,
        manager.KubeHyperManager.RemoveContainer (Error:=Error) req st
        = (inr kubeapi.RemoveContainerResponse_empty, st))
  /\ provider.issued (hyper.HyperRuntime.StopContainer (Error:=Error) id timeout) st = []
  /\ provider.issued (hyper.HyperRuntime.RemoveContainer (Error:=Error) id) st = []
  /\ provider.bind (hyper.HyperRuntime.StopContainer (Error:=Error) id timeout)
                   (fun _ => hyper.HyperRuntime.StopContainer id timeout) st
     = (inr tt, st).
Proof.
  repeat split; try reflexivity.
  - unfold provider.issued; simpl. apply drop_all.
  - unfold provider.issued; simpl. apply drop_all.
Qed.
End Lifecycle.

(** ** Reference parser *)

Lemma sapp_nil_l (s : string) : String.append EmptyString s = s.
Proof. reflexivity. Qed.

Lemma sapp_cons a (s t : string) : String.append (String a s) t = String a (String.append s t).
Proof. reflexivity. Qed.

Lemma sapp_nil_r (s : string) : String.append s EmptyString = s.
Proof. induction s as [|a s IH]; [reflexivity|]. rewrite sapp_cons, IH. reflexivity. Qed.

Lemma sapp_assoc (s t u : string) :
  String.append (String.append s t) u = String.append s (String.append t u).
Proof.
  induction s as [|a s IH]; [reflexivity|]. rewrite !sapp_cons, IH. reflexivity.
Qed.

Section Strings.
Variable c : ascii.

Lemma Index_ge (s : string) : -1 <= gostrings.Index s c.
Proof.
  induction s as [|a s IH]; simpl; [lia|].
  destruct (Ascii.eqb a c); [lia|].
  destruct (gostrings.Index s c <? 0) eqn:E; lia.
Qed.

Lemma Contains_occurs (s : string) : gostrings.Contains s c = reference.occurs c s.
Proof.
  unfold gostrings.Contains.
  induction s as [|a s IH]; simpl; [reflexivity|].
  destruct (Ascii.eqb a c); simpl; [reflexivity|].
  rewrite <- IH. pose proof (Index_ge s).
  destruct (gostrings.Index s c <? 0) eqn:E.
  - apply Z.ltb_lt in E. transitivity false; [reflexivity|]. symmetry. apply Z.leb_gt. lia.
  - apply Z.ltb_ge in E. transitivity true; [apply Z.leb_le; lia|]. symmetry. apply Z.leb_le. lia.
Qed.

Lemma Split_nonempty (s : string) : gostrings.Split s c <> [].
Proof.
  destruct s as [|a s]; simpl; [discriminate|].
  destruct (Ascii.eqb a c); [discriminate|].
  destruct (gostrings.Split s c); discriminate.
Qed.

(** With a separator in [s] the split has at least two parts. *)
Lemma Split_two (s : string) :
  reference.occurs c s = true ->
  exists p0 p1 ps, gostrings.Split s c = p0 :: p1 :: ps.
Proof.
  induction s as [|a s IH]; simpl; [discriminate|].
  destruct (Ascii.eqb a c); simpl.
  - intros _. pose proof (Split_nonempty s).
    destruct (gostrings.Split s c) as [|p ps]; [contradiction|]. eauto.
  - intros H. destruct (IH H) as (p0 & p1 & ps & ->). eauto.
Qed.

(** The accumulating split of the reference is Go's split. *)
Lemma split_all_Split (s cur : string) :
  reference.split_all c cur s
  = match gostrings.Split s c with
    | p :: ps => String.append cur p :: ps
    | [] => [cur]
    end.
Proof.
  revert cur. induction s as [|a s IH]; intros cur; simpl.
  - rewrite sapp_nil_r. reflexivity.
  - pose proof (Split_nonempty s) as Hne.
    destruct (Ascii.eqb a c).
    + rewrite IH, sapp_nil_r.
      destruct (gostrings.Split s c) as [|p ps]; [contradiction|]. reflexivity.
    + rewrite IH.
      destruct (gostrings.Split s c) as [|p ps]; [contradiction|].
      rewrite sapp_assoc. reflexivity.
Qed.

(** The parts, joined again by the separator, give the string back, and
    no part contains the separator. *)
Lemma Split_join (s : string) : reference.join c (gostrings.Split s c) = s.
Proof.
  induction s as [|a s IH]; simpl; [reflexivity|].
  pose proof (Split_nonempty s).
  destruct (Ascii.eqb_spec a c) as [->|Hne].
  - destruct (gostrings.Split s c) as [|p ps]; [contradiction|].
    change (String.append EmptyString (String c (reference.join c (p :: ps))) = String c s).
    rewrite sapp_nil_l, IH. reflexivity.
  - destruct (gostrings.Split s c) as [|p ps]; [contradiction|].
    destruct ps as [|q ps].
    + simpl in *. congruence.
    + change (String.append (String a p) (String c (reference.join c (q :: ps))) = String a s).
      rewrite sapp_cons. f_equal. exact IH.
Qed.

Lemma Split_parts (s : string) :
  Forall (fun p => reference.occurs c p = false) (gostrings.Split s c).
Proof.
  induction s as [|a s IH]; simpl; [repeat constructor|].
  destruct (Ascii.eqb a c) eqn:E.
  - constructor; [reflexivity | exact IH].
  - destruct (gostrings.Split s c) as [|p ps]; [repeat constructor; simpl; rewrite E; reflexivity|].
    inversion IH; subst. constructor; [simpl; rewrite E; assumption | assumption].
Qed.

Lemma len_String a (s : string) : gostrings.len (String a s) = gostrings.len s + 1.
Proof. unfold gostrings.len. simpl String.length. lia. Qed.

Lemma len_nonneg (s : string) : 0 <= gostrings.len s.
Proof. unfold gostrings.len. lia. Qed.

Lemma len_app (l r : string) :
  gostrings.len (String.append l r) = gostrings.len l + gostrings.len r.
Proof.
  induction l as [|a l IH]; [rewrite sapp_nil_l; unfold gostrings.len; simpl; lia|].
  rewrite sapp_cons, !len_String, IH. lia.
Qed.

(** [LastIndex] finds the place where the reference cuts. *)
Lemma LastIndex_cut_last (s : string) :
  match reference.cut_last c s with
  | None => gostrings.LastIndex s c = -1
  | Some (l, r) =>
      gostrings.LastIndex s c = gostrings.len l /\ s = String.append l (String c r)
  end.
Proof.
  induction s as [|a s IH]; simpl; [reflexivity|].
  destruct (reference.cut_last c s) as [[l r]|].
  - destruct IH as [IH1 IH2]. rewrite IH1. pose proof (len_nonneg l).
    replace (0 <=? gostrings.len l) with true by (symmetry; apply Z.leb_le; lia).
    rewrite len_String, sapp_cons. split; [reflexivity | congruence].
  - rewrite IH. simpl.
    destruct (Ascii.eqb_spec a c) as [->|Hne]; [|reflexivity].
    split; reflexivity.
Qed.

Lemma drop_bytes_app (l r : string) :
  gostrings.drop_bytes (String.length l) (String.append l r) = r.
Proof. induction l as [|a l IH]; [reflexivity|]. rewrite sapp_cons. simpl. exact IH. Qed.

Lemma take_bytes_app (l r : string) :
  gostrings.take_bytes (String.length l) (String.append l r) = l.
Proof.
  induction l as [|a l IH]; [rewrite sapp_nil_l; destruct r; reflexivity|].
  rewrite sapp_cons. simpl. congruence.
Qed.

Lemma slice_from_cut (l r : string) :
  gostrings.slice_from (String.append l (String c r)) (gostrings.len l + 1) = Some r.
Proof.
  unfold gostrings.slice_from. rewrite len_app, len_String.
  pose proof (len_nonneg l). pose proof (len_nonneg r).
  replace (0 <=? gostrings.len l + 1) with true by (symmetry; apply Z.leb_le; lia).
  replace (gostrings.len l + 1 <=? gostrings.len l + (gostrings.len r + 1)) with true
    by (symmetry; apply Z.leb_le; lia).
  simpl. f_equal.
  replace (String.append l (String c r))
    with (String.append (String.append l (String c EmptyString)) r)
    by (rewrite sapp_assoc; reflexivity).
  replace (Z.to_nat (gostrings.len l + 1))
    with (String.length (String.append l (String c EmptyString))).
  - apply drop_bytes_app.
  - apply Nat2Z.inj. fold (gostrings.len (String.append l (String c EmptyString))).
    rewrite len_app, len_String. unfold gostrings.len at 2. simpl. lia.
Qed.

Lemma slice_to_cut (l r : string) :
  gostrings.slice_to (String.append l r) (gostrings.len l) = Some l.
Proof.
  unfold gostrings.slice_to. rewrite len_app.
  pose proof (len_nonneg l). pose proof (len_nonneg r).
  replace (0 <=? gostrings.len l) with true by (symmetry; apply Z.leb_le; lia).
  replace (gostrings.len l <=? gostrings.len l + gostrings.len r) with true
    by (symmetry; apply Z.leb_le; lia).
  simpl. f_equal. unfold gostrings.len. rewrite Nat2Z.id. apply take_bytes_app.
Qed.
End Strings.

Lemma hyper_parseRepositoryTag_reference (ref : string) :
  hyper.parseRepositoryTag ref = Some (reference.parseRepositoryTag ref).
Proof.
  unfold hyper.parseRepositoryTag, reference.parseRepositoryTag.
  fold (gostrings.Contains ref "@"). rewrite Contains_occurs.
  destruct (reference.occurs "@" ref) eqn:E.
  - destruct (Split_two _ _ E) as (p0 & p1 & ps & HS).
    rewrite split_all_Split, HS. reflexivity.
  - pose proof (LastIndex_cut_last ":" ref) as HL.
    destruct (reference.cut_last ":" ref) as [[l r]|].
    + destruct HL as [HL1 HL2]. rewrite HL1.
      pose proof (len_nonneg l).
      replace (gostrings.len l <? 0) with false by (symmetry; apply Z.ltb_ge; lia).
      rewrite HL2 at 1. rewrite slice_from_cut. simpl.
      rewrite Contains_occurs.
      destruct (reference.occurs "/" r); simpl; [reflexivity|].
      rewrite HL2 at 1. rewrite slice_to_cut. reflexivity.
    + rewrite HL. reflexivity.
Qed.

Lemma manager_parseRepositoryTag (ref : string) :
  manager.parseRepositoryTag ref = hyper.parseRepositoryTag ref.
Proof. reflexivity. Qed.

(** C6: [parseRepositoryTag] never panics and is the reference parser on
    every string, in both packages: with an ['@'] the first two parts of the
    split on all ['@'], otherwise [(ref, "latest")] or the cut at the last
    [':'] as the reference says; the four listed references evaluate as
    listed. *)
Theorem parseRepositoryTag_is_reference (ref : string) :
  hyper.parseRepositoryTag ref = Some (reference.parseRepositoryTag ref)
  /\ manager.parseRepositoryTag ref = Some (reference.parseRepositoryTag ref)
  /\ hyper.parseRepositoryTag "nginx" = Some ("nginx", "latest")
  /\ hyper.parseRepositoryTag "nginx:1.19" = Some ("nginx", "1.19")
  /\ hyper.parseRepositoryTag "localhost:5000/foo" = Some ("localhost:5000/foo", "latest")
  /\ hyper.parseRepositoryTag "repo@sha256:abcd" = Some ("repo", "sha256:abcd").
Proof.
  split; [apply hyper_parseRepositoryTag_reference|].
  split; [rewrite manager_parseRepositoryTag; apply hyper_parseRepositoryTag_reference|].
  repeat split; reflexivity.
Qed.

(** With several ['@'] everything after the second one is dropped. *)
Example parseRepositoryTag_two_at :
  hyper.parseRepositoryTag "repo@sha256:abcd@extra" = Some ("repo", "sha256:abcd").
Proof. reflexivity. Qed.

(** ** Auth config *)

Lemma hyper_getHyperAuthConfig_present (auth : kubeapi.AuthConfig) :
  hyper.getHyperAuthConfig (Some auth)
  = Some {| types.Username := reference.copied (kubeapi.Username auth);
            types.Password := reference.copied (kubeapi.Password auth);
            types.Auth := reference.copied (kubeapi.Auth auth);
            types.Serveraddress := reference.copied (kubeapi.ServerAddress auth);
            types.Registrytoken := reference.copied (kubeapi.RegistryToken auth) |}.
Proof.
  destruct auth as [[u|] [p|] [a|] [s|] [r|]]; reflexivity.
Qed.

Lemma manager_getHyperAuthConfig_present (auth : kubeapi.AuthConfig) :
  manager.getHyperAuthConfig (Some auth) = hyper.getHyperAuthConfig (Some auth).
Proof. reflexivity. Qed.

(** C9 on the code: for a present input both copies copy exactly the
    fields that are set and leave the others at their default; for an
    absent input the copy of package [hyper] returns the empty config,
    while the copy of package [manager] returns the nil pointer and no
    config at all. *)
Theorem getHyperAuthConfig_nil_differs :
  hyper.getHyperAuthConfig None = Some types.AuthConfig_zero
  /\ manager.getHyperAuthConfig None = None
  /\ manager.getHyperAuthConfig None <> Some types.AuthConfig_zero
  /\ (forall auth : kubeapi.AuthConfig,
        hyper.getHyperAuthConfig (Some auth)
        = Some {| types.Username := reference.copied (kubeapi.Username auth);
                  types.Password := reference.copied (kubeapi.Password auth);
                  types.Auth := reference.copied (kubeapi.Auth auth);
                  types.Serveraddress := reference.copied (kubeapi.ServerAddress auth);
                  types.Registrytoken := reference.copied (kubeapi.RegistryToken auth) |}
        /\ manager.getHyperAuthConfig (Some auth) = hyper.getHyperAuthConfig (Some auth)).
Proof.
  split; [reflexivity|]. split; [reflexivity|]. split; [discriminate|].
  intros auth. split; [apply hyper_getHyperAuthConfig_present | reflexivity].
Qed.

(** ** Image listing *)

Lemma inList_elem_of (x : string) (l : list string) :
  hyper.inList x l = true <-> x ∈ l.
Proof.
  induction l as [|y l IH]; simpl.
  - split; [discriminate | intros H; inversion H].
  - destruct (String.eqb_spec x y) as [->|Hne].
    + split; [intros _; constructor | reflexivity].
    + rewrite IH. split; [intros H; constructor; exact H|].
      intros H. inversion H; subst; [contradiction | assumption].
Qed.

Lemma manager_inList (x : string) (l : list string) :
  manager.inList x l = hyper.inList x l.
Proof. induction l as [|y l IH]; simpl; [reflexivity|]. rewrite IH. reflexivity. Qed.

Lemma normalized_code (image : string) :
  (if negb (gostrings.Contains image ":") then String.append image ":latest" else image)
  = reference.normalized image.
Proof.
  unfold reference.normalized. rewrite Contains_occurs.
  destruct (reference.occurs ":" image); reflexivity.
Qed.

Lemma hyper_ListImages_loop_filter (f : kubeapi.ImageFilter) images results :
  hyper.HyperRuntime.ListImages_loop (Some f) images results
  = results ++
    map reference.image_of
        (filter (fun img => reference.normalized (kubeapi.GetImage (kubeapi.FilterImage f))
                            ∈ types.RepoTags img) images).
Proof.
  revert results. induction images as [|img images IH]; intros results; simpl.
  - rewrite app_nil_r. reflexivity.
  - rewrite normalized_code. rewrite filter_cons.
    destruct (hyper.inList _ (types.RepoTags img)) eqn:E; simpl.
    + apply inList_elem_of in E. rewrite decide_True by exact E.
      rewrite IH. rewrite <- app_assoc. reflexivity.
    + rewrite decide_False; [apply IH|].
      intros H. apply inList_elem_of in H. congruence.
Qed.

Lemma manager_ListImages_loop (f : option kubeapi.ImageFilter) images results :
  manager.KubeHyperManager.ListImages_loop f images results
  = hyper.HyperRuntime.ListImages_loop f images results.
Proof.
  revert results. induction images as [|img images IH]; intros results; simpl; [reflexivity|].
  destruct f; simpl; rewrite ?manager_inList, !IH; reflexivity.
Qed.

(** C10: with a filter, [ListImages] returns, in the daemon's order,
    exactly the listed images one of whose repoTags is the normalised
    filter reference, byte for byte; the reference is normalised by
    appending [":latest"] exactly when it contains no [':'].  Whether an
    image is kept depends on its repoTags alone (not on its id or digests),
    and ["localhost:5000/foo"] is left as it is. *)
Theorem ListImages_filters_by_repoTag
        {World Error Stream : Type} (client : provider.PublicAPIClient World Error Stream)
        (f : kubeapi.ImageFilter) (st : provider.State World)
        (images : list types.ImageInfo) (w : World) :
  provider.ImageList client (provider.world st) = (inr images, w) ->
  let wanted := reference.normalized (kubeapi.GetImage (kubeapi.FilterImage f)) in
  let kept := filter (fun img => wanted ∈ types.RepoTags img) images in
  hyper.HyperRuntime.ListImages client (Some f) st
  = (inr (map reference.image_of kept), provider.extend st w [provider.EvImageList])
  /\ manager.KubeHyperManager.ListImages client {| kubeapi.ListImagesFilter := Some f |} st
     = (inr {| kubeapi.Images := map reference.image_of kept |},
        provider.extend st w [provider.EvImageList])
  /\ (forall img, img ∈ kept <-> img ∈ images /\ wanted ∈ types.RepoTags img)
  /\ (forall image, reference.normalized image
                    = if reference.occurs ":" image then image
                      else String.append image ":latest")
  /\ reference.normalized "localhost:5000/foo" = "localhost:5000/foo".
Proof.
  intros H wanted kept.
  assert (HL : hyper.Client.GetImageList client st
               = (inr images, provider.extend st w [provider.EvImageList])).
  { unfold hyper.Client.GetImageList. rewrite run_rpc, H. reflexivity. }
  split; [|split; [|split; [|split]]].
  - unfold hyper.HyperRuntime.ListImages.
    rewrite (run_bind_inr _ _ _ _ _ HL).
    rewrite hyper_ListImages_loop_filter. reflexivity.
  - unfold manager.KubeHyperManager.ListImages.
    rewrite (run_bind_inr _ _ _ _ _ HL). simpl.
    rewrite manager_ListImages_loop, hyper_ListImages_loop_filter. reflexivity.
  - intros img. unfold kept. rewrite list_elem_of_filter. tauto.
  - reflexivity.
  - reflexivity.
Qed.

(** ** Container listing *)

Section Listing.
Context {World Error Stream : Type}.
Variable client : provider.PublicAPIClient World Error Stream.

Lemma manager_ListContainers_loop filter l acc st :
  manager.KubeHyperManager.ListContainers_loop client filter l acc st
  = hyper.HyperRuntime.ListContainers_loop client filter l acc st.
Proof.
  revert acc st. induction l as [|c l IH]; intros acc st; simpl; [reflexivity|].
  change (manager.KubeHyperManager.ListContainers_skip_listed filter c)
    with (hyper.HyperRuntime.ListContainers_skip_listed filter c).
  destruct (hyper.HyperRuntime.ListContainers_skip_listed filter c _); [apply IH|].
  unfold provider.bind.
  destruct (hyper.Client.GetContainerInfo client (types.ContainerID c) st)
    as [[e|info] st']; [reflexivity|].
  change (manager.KubeHyperManager.ListContainers_skip_info filter info)
    with (hyper.HyperRuntime.ListContainers_skip_info filter info).
  change (manager.toKubeContainerState) with (hyper.toKubeContainerState).
  destruct (hyper.HyperRuntime.ListContainers_skip_info filter info _); apply IH.
Qed.

(** The loop over [pre ++ rest] is the loop over [pre] followed, when it
    did not fail, by the loop over [rest]. *)
Lemma ListContainers_loop_app filter pre rest acc st :
  hyper.HyperRuntime.ListContainers_loop client filter (pre ++ rest) acc st
  = match hyper.HyperRuntime.ListContainers_loop client filter pre acc st with
    | (inl e, st') => (inl e, st')
    | (inr acc', st') =>
        hyper.HyperRuntime.ListContainers_loop client filter rest acc' st'
    end.
Proof.
  revert acc st. induction pre as [|c pre IH]; intros acc st; simpl; [reflexivity|].
  destruct (hyper.HyperRuntime.ListContainers_skip_listed filter c _); [apply IH|].
  unfold provider.bind.
  destruct (hyper.Client.GetContainerInfo client (types.ContainerID c) st)
    as [[e|info] st']; [reflexivity|].
  destruct (hyper.HyperRuntime.ListContainers_skip_info filter info _); apply IH.
Qed.

(** A failed lookup ends the loop at once with that error. *)
Lemma ListContainers_loop_fails filter c post acc st e w :
  hyper.HyperRuntime.ListContainers_skip_listed
    filter c (gostrings.TrimPrefix (types.ContainerName c) "/") = false ->
  provider.ContainerInfo client (types.ContainerID c) (provider.world st) = (inl e, w) ->
  hyper.HyperRuntime.ListContainers_loop client filter (c :: post) acc st
  = (inl e, provider.extend st w [provider.EvContainerInfo (types.ContainerID c)]).
Proof.
  intros Hskip Hinfo. simpl. rewrite Hskip.
  apply run_bind_inl. rewrite run_GetContainerInfo, Hinfo. reflexivity.
Qed.

(** The loop fails only through a lookup it makes. *)
Lemma ListContainers_loop_error_inv filter l acc st e st' :
  hyper.HyperRuntime.ListContainers_loop client filter l acc st = (inl e, st') ->
  exists pre c post acc1 st1 w,
    l = pre ++ c :: post
    /\ hyper.HyperRuntime.ListContainers_loop client filter pre acc st = (inr acc1, st1)
    /\ hyper.HyperRuntime.ListContainers_skip_listed
         filter c (gostrings.TrimPrefix (types.ContainerName c) "/") = false
    /\ provider.ContainerInfo client (types.ContainerID c) (provider.world st1) = (inl e, w)
    /\ st' = provider.extend st1 w [provider.EvContainerInfo (types.ContainerID c)].
Proof.
  revert acc st. induction l as [|c l IH]; intros acc st H; simpl in H.
  - discriminate.
  - destruct (hyper.HyperRuntime.ListContainers_skip_listed filter c _) eqn:Hskip.
    + destruct (IH _ _ H) as (pre & c' & post & acc1 & st1 & w & -> & Hpre & Hs & Hi & ->).
      exists (c :: pre), c', post, acc1, st1, w.
      repeat split; auto. simpl. rewrite Hskip. exact Hpre.
    + unfold provider.bind in H. rewrite run_GetContainerInfo in H.
      destruct (provider.ContainerInfo client (types.ContainerID c) (provider.world st))
        as [[e0|info] w0] eqn:Hinfo; simpl in H.
      * inversion H; subst. exists [], c, l, acc, st, w0. repeat split; auto.
      * assert (Hget : hyper.Client.GetContainerInfo client (types.ContainerID c) st
                       = (inr info, provider.extend st w0
                                      [provider.EvContainerInfo (types.ContainerID c)])).
        { rewrite run_GetContainerInfo, Hinfo. reflexivity. }
        destruct (hyper.HyperRuntime.ListContainers_skip_info filter info _) eqn:Hsi;
          destruct (IH _ _ H) as (pre & c' & post & acc1 & st1 & w & -> & Hpre & Hs & Hi & ->);
          exists (c :: pre), c', post, acc1, st1, w;
          (repeat split; auto); simpl; rewrite Hskip;
          rewrite (run_bind_inr _ _ _ _ _ Hget); rewrite Hsi; exact Hpre.
Qed.
End Listing.

(** C7: when the lookup made for a listed container fails, after the
    lookups made for the containers listed before it succeeded,
    [ListContainers] returns that error and no list, on both surfaces, and
    issues nothing after the failed lookup.  (The lookup is made for the
    containers that pass the name, id and pod tests of the filter.) *)
Theorem ListContainers_lookup_failure
        {World Error Stream : Type} (client : provider.PublicAPIClient World Error Stream)
        (filter : option kubeapi.ContainerFilter) (st : provider.State World)
        (pre post : list types.ContainerListResult) (c : types.ContainerListResult)
        (w0 w2 : World) (acc : list kubeapi.Container) (st1 : provider.State World)
        (e : Error) :
  provider.ContainerList client false (provider.world st) = (inr (pre ++ c :: post), w0) ->
  hyper.HyperRuntime.ListContainers_loop client filter pre []
    (provider.extend st w0 [provider.EvContainerList false]) = (inr acc, st1) ->
  hyper.HyperRuntime.ListContainers_skip_listed
    filter c (gostrings.TrimPrefix (types.ContainerName c) "/") = false ->
  provider.ContainerInfo client (types.ContainerID c) (provider.world st1) = (inl e, w2) ->
  hyper.HyperRuntime.ListContainers client filter st
  = (inl e, provider.extend st1 w2 [provider.EvContainerInfo (types.ContainerID c)])
  /\ manager.KubeHyperManager.ListContainers
       client {| kubeapi.ListContainersFilter := filter |} st
     = (inl e, provider.extend st1 w2 [provider.EvContainerInfo (types.ContainerID c)]).
Proof.
  intros Hlist Hpre Hskip Hinfo.
  assert (HL : hyper.Client.GetContainerList client false st
               = (inr (pre ++ c :: post),
                  provider.extend st w0 [provider.EvContainerList false])).
  { unfold hyper.Client.GetContainerList. rewrite run_rpc, Hlist. reflexivity. }
  assert (Hloop : hyper.HyperRuntime.ListContainers_loop client filter (pre ++ c :: post) []
                    (provider.extend st w0 [provider.EvContainerList false])
                  = (inl e, provider.extend st1 w2
                              [provider.EvContainerInfo (types.ContainerID c)])).
  { rewrite ListContainers_loop_app, Hpre.
    apply ListContainers_loop_fails; assumption. }
  split.
  - unfold hyper.HyperRuntime.ListContainers.
    rewrite (run_bind_inr _ _ _ _ _ HL). exact Hloop.
  - unfold manager.KubeHyperManager.ListContainers.
    rewrite (run_bind_inr _ _ _ _ _ HL).
    apply run_bind_inl. simpl. rewrite manager_ListContainers_loop. exact Hloop.
Qed.

(** The third of five: the lookups for ["c1"] and ["c2"] succeed, the one
    for ["c3"] fails, and the listing is an error. *)
Lemma ListContainers_lookup_failure_witness :
  hyper.HyperRuntime.ListContainers demo.client None (demo.running [])
  = (inl "no such container",
     {| provider.world := [];
        provider.trace := [provider.EvContainerList false; provider.EvContainerInfo "c1";
                           provider.EvContainerInfo "c2"; provider.EvContainerInfo "c3"] |})
  /\ manager.KubeHyperManager.ListContainers
       demo.client {| kubeapi.ListContainersFilter := None |} (demo.running [])
     = (inl "no such container",
        {| provider.world := [];
           provider.trace := [provider.EvContainerList false; provider.EvContainerInfo "c1";
                              provider.EvContainerInfo "c2"; provider.EvContainerInfo "c3"] |}).
Proof.
  exact (ListContainers_lookup_failure demo.client None (demo.running [])
           [demo.listed "c1" "/web"; demo.listed "c2" "/db"]
           [demo.listed "c4" "/log"; demo.listed "c5" "/proxy"]
           (demo.listed "c3" "/cache") [] [] _ _ "no such container"
           eq_refl eq_refl eq_refl eq_refl).
Defined.

(** ** Timestamps *)

Section Timestamps.
Context {Time ParseError : Type}.
Variable Date_0_Local : Time.
Variable Parse : string -> string -> Time * option ParseError.
Variable Unix : Time -> Z.

(** Whatever [time.Parse] does: the empty string gives the Unix seconds
    of [time.Date(0, 0, 0, 0, 0, 0, 0, time.Local)] and no error; for a
    non-empty string the error is the parser's own, and without one the
    result is the Unix seconds of the parsed time; in both packages. *)
Lemma parseTimeString_passes_on (str : string) :
  hyper.parseTimeString Date_0_Local Parse Unix "" = (Unix Date_0_Local, None)
  /\ (str <> "" ->
      let parsed := Parse "2006-01-02T15:04:05Z" str in
      (snd (hyper.parseTimeString Date_0_Local Parse Unix str) <> None
       <-> snd parsed <> None)
      /\ snd (hyper.parseTimeString Date_0_Local Parse Unix str) = snd parsed
      /\ (snd parsed = None ->
          hyper.parseTimeString Date_0_Local Parse Unix str = (Unix (fst parsed), None)))
  /\ manager.parseTimeString Date_0_Local Parse Unix str
     = hyper.parseTimeString Date_0_Local Parse Unix str.
Proof.
  split; [reflexivity|]. split; [|reflexivity].
  intros Hne parsed. subst parsed.
  unfold hyper.parseTimeString.
  destruct (String.eqb_spec str "") as [->|_]; [contradiction|].
  destruct (Parse "2006-01-02T15:04:05Z" str) as [t [err|]]; simpl.
  - split; [tauto|]. split; [reflexivity | discriminate].
  - split; [tauto|]. split; reflexivity.
Qed.
End Timestamps.

(** *** The parser, element by element

    For every element of the layout, what it reads from a string that
    starts with the digits it expects, and what a string it reads from
    starts with. *)

Lemma isDigit_range (c : ascii) : gotime.isDigit c = true -> 0 <= gotime.digit c <= 9.
Proof.
  unfold gotime.isDigit, gotime.digit. intros H.
  apply andb_true_iff in H. destruct H as [H1 H2].
  apply N.leb_le in H1, H2. lia.
Qed.

Lemma stdLongYear_render (ds rest : string) :
  timestamp.digits_only ds = true -> String.length ds = 4%nat ->
  gotime.stdLongYear (String.append ds rest) = Some (timestamp.number ds, rest).
Proof.
  intros Hd Hl.
  destruct ds as [|a [|b [|c [|d [|e ds]]]]]; try discriminate.
  cbn in Hd. rewrite !andb_true_r in Hd.
  rewrite !sapp_cons, sapp_nil_l. cbn [gotime.stdLongYear]. rewrite <- !andb_assoc in *.
  rewrite Hd. reflexivity.
Qed.

Lemma stdLongYear_inv (value rest : string) (n : Z) :
  gotime.stdLongYear value = Some (n, rest) ->
  exists ds, value = String.append ds rest /\ timestamp.digits_only ds = true
             /\ String.length ds = 4%nat /\ n = timestamp.number ds.
Proof.
  destruct value as [|a [|b [|c [|d value]]]]; try discriminate.
  cbn [gotime.stdLongYear].
  destruct (gotime.isDigit a && gotime.isDigit b && gotime.isDigit c && gotime.isDigit d)
    eqn:Hd; [|discriminate].
  intros [= <- <-]. exists (String a (String b (String c (String d EmptyString)))).
  rewrite !sapp_cons, sapp_nil_l. cbn [timestamp.digits_only]. rewrite andb_true_r.
  rewrite <- !andb_assoc in Hd.
  split; [reflexivity|]. split; [exact Hd|]. split; reflexivity.
Qed.

Lemma getnum_fixed_render (ds rest : string) :
  timestamp.digits_only ds = true -> String.length ds = 2%nat ->
  gotime.getnum (String.append ds rest) true = Some (timestamp.number ds, rest).
Proof.
  intros Hd Hl.
  destruct ds as [|a [|b [|c ds]]]; try discriminate.
  cbn in Hd. rewrite andb_true_r in Hd. apply andb_true_iff in Hd. destruct Hd as [Ha Hb].
  rewrite !sapp_cons, sapp_nil_l. cbn [gotime.getnum]. rewrite Ha, Hb. reflexivity.
Qed.

Lemma getnum_fixed_inv (value rest : string) (n : Z) :
  gotime.getnum value true = Some (n, rest) ->
  exists ds, value = String.append ds rest /\ timestamp.digits_only ds = true
             /\ String.length ds = 2%nat /\ n = timestamp.number ds.
Proof.
  destruct value as [|a [|b value]]; cbn [gotime.getnum]; try discriminate.
  - destruct (gotime.isDigit a); discriminate.
  - destruct (gotime.isDigit a) eqn:Ha; [|discriminate].
    destruct (gotime.isDigit b) eqn:Hb; [|discriminate].
    intros [= <- <-]. exists (String a (String b EmptyString)).
    rewrite !sapp_cons, sapp_nil_l. cbn [timestamp.digits_only]. rewrite Ha, Hb.
    repeat split; reflexivity.
Qed.

Lemma getnum_free_render (ds rest : string) (sep : ascii) :
  timestamp.digits_only ds = true ->
  (String.length ds = 1%nat \/ String.length ds = 2%nat) ->
  gotime.isDigit sep = false ->
  gotime.getnum (String.append ds (String sep rest)) false
  = Some (timestamp.number ds, String sep rest).
Proof.
  intros Hd Hl Hs.
  destruct ds as [|a [|b [|c ds]]]; try (destruct Hl; discriminate).
  - cbn in Hd. rewrite andb_true_r in Hd.
    rewrite !sapp_cons, sapp_nil_l. cbn [gotime.getnum]. rewrite Hd, Hs. reflexivity.
  - cbn in Hd. rewrite andb_true_r in Hd. apply andb_true_iff in Hd. destruct Hd as [Ha Hb].
    rewrite !sapp_cons, sapp_nil_l. cbn [gotime.getnum]. rewrite Ha, Hb. reflexivity.
Qed.

Lemma getnum_free_inv (value rest : string) (n : Z) :
  gotime.getnum value false = Some (n, rest) ->
  exists ds, value = String.append ds rest /\ timestamp.digits_only ds = true
             /\ (String.length ds = 1%nat \/ String.length ds = 2%nat)
             /\ n = timestamp.number ds.
Proof.
  destruct value as [|a value]; cbn [gotime.getnum]; [discriminate|].
  destruct (gotime.isDigit a) eqn:Ha; [|discriminate].
  assert (H1 : exists ds, String a value = String.append ds value
                          /\ timestamp.digits_only ds = true
                          /\ (String.length ds = 1%nat \/ String.length ds = 2%nat)
                          /\ gotime.digit a = timestamp.number ds).
  { exists (String a EmptyString). rewrite sapp_cons, sapp_nil_l.
    cbn [timestamp.digits_only]. rewrite Ha. repeat split; auto. }
  destruct value as [|b value].
  - intros [= <- <-]. exact H1.
  - destruct (gotime.isDigit b) eqn:Hb.
    + intros [= <- <-]. exists (String a (String b EmptyString)).
      rewrite !sapp_cons, sapp_nil_l. cbn [timestamp.digits_only]. rewrite Ha, Hb.
      repeat split; auto.
    + intros [= <- <-]. exact H1.
Qed.

Lemma skip_one (value rest : string) (c : ascii) :
  gotime.skip value (String c EmptyString) = Some rest <-> value = String c rest.
Proof.
  destruct value as [|v value]; cbn [gotime.skip].
  - split; discriminate.
  - destruct (Ascii.eqb_spec v c) as [->|Hne]; cbn [gotime.skip].
    + split; [intros [= ->]; reflexivity | intros [= ->]; reflexivity].
    + split; [discriminate | intros [= -> _]; contradiction].
Qed.

Lemma leadingDigits_render (ds rest : string) (c : ascii) :
  timestamp.digits_only ds = true -> gotime.isDigit c = false ->
  gotime.leadingDigits (String.append ds (String c rest)) = (ds, String c rest).
Proof.
  intros Hd Hc. induction ds as [|a ds IH].
  - rewrite sapp_nil_l. cbn [gotime.leadingDigits]. rewrite Hc. reflexivity.
  - cbn in Hd. apply andb_true_iff in Hd. destruct Hd as [Ha Hd].
    rewrite sapp_cons. cbn [gotime.leadingDigits]. rewrite Ha, (IH Hd). reflexivity.
Qed.

Lemma leadingDigits_inv (value ds rest : string) :
  gotime.leadingDigits value = (ds, rest) ->
  value = String.append ds rest /\ timestamp.digits_only ds = true.
Proof.
  revert ds. induction value as [|a value IH]; intros ds; cbn [gotime.leadingDigits].
  - intros [= <- <-]. split; reflexivity.
  - destruct (gotime.isDigit a) eqn:Ha.
    + destruct (gotime.leadingDigits value) as [ds' rest'] eqn:Hl.
      intros [= <- <-]. destruct (IH ds' eq_refl) as [-> Hd].
      rewrite sapp_cons. cbn [timestamp.digits_only]. rewrite Ha. split; [reflexivity|exact Hd].
    + intros [= <- <-]. rewrite sapp_nil_l. split; reflexivity.
Qed.

Lemma isDigit_Z : gotime.isDigit "Z" = false.
Proof. reflexivity. Qed.

Lemma fraction_render (fr : string) :
  timestamp.fraction_ok fr = true ->
  gotime.fraction (String.append fr "Z") = (timestamp.nanoseconds fr, "Z").
Proof.
  destruct fr as [|sep ds]; [reflexivity|].
  cbn [timestamp.fraction_ok timestamp.nanoseconds]. intros H.
  apply andb_true_iff in H. destruct H as [H Hd].
  apply andb_true_iff in H. destruct H as [Hsep Hne].
  destruct ds as [|d ds]; [discriminate|].
  rewrite !sapp_cons. cbn [gotime.fraction]. unfold gotime.commaOrPeriod. rewrite Hsep.
  pose proof Hd as Hd'. cbn in Hd'. apply andb_true_iff in Hd'. destruct Hd' as [Hd0 _].
  rewrite Hd0. cbn [andb]. rewrite <- sapp_cons.
  rewrite (leadingDigits_render (String d ds) EmptyString "Z" Hd isDigit_Z). reflexivity.
Qed.

Lemma fraction_inv (value rest : string) (ns : Z) :
  gotime.fraction value = (ns, rest) ->
  exists fr, value = String.append fr rest /\ timestamp.fraction_ok fr = true
             /\ ns = timestamp.nanoseconds fr.
Proof.
  assert (Hnone : (0, value) = (ns, rest) ->
            exists fr, value = String.append fr rest /\ timestamp.fraction_ok fr = true
                       /\ ns = timestamp.nanoseconds fr).
  { intros [= <- <-]. exists EmptyString. rewrite sapp_nil_l. repeat split; reflexivity. }
  destruct value as [|sep [|d value]]; cbn [gotime.fraction]; try exact Hnone.
  destruct (gotime.commaOrPeriod sep && gotime.isDigit d) eqn:Hc; [|exact Hnone].
  apply andb_true_iff in Hc. destruct Hc as [Hsep Hd0].
  destruct (gotime.leadingDigits (String d value)) as [ds rest'] eqn:Hl.
  intros [= <- <-]. destruct (leadingDigits_inv _ _ _ Hl) as [Hv Hd].
  exists (String sep ds). rewrite sapp_cons, <- Hv.
  split; [reflexivity|]. split; [|reflexivity].
  cbn [timestamp.fraction_ok]. unfold gotime.commaOrPeriod in Hsep. rewrite Hsep, Hd.
  cbn [gotime.leadingDigits] in Hl. rewrite Hd0 in Hl.
  destruct (gotime.leadingDigits value) as [ds' r']. injection Hl as <- _. reflexivity.
Qed.

Lemma atoi_nonneg (ds : string) (acc : Z) :
  timestamp.digits_only ds = true -> 0 <= acc -> 0 <= gotime.atoi acc ds.
Proof.
  revert acc. induction ds as [|c ds IH]; intros acc Hd Hacc; [exact Hacc|].
  cbn in Hd. apply andb_true_iff in Hd. destruct Hd as [Hc Hd].
  cbn [gotime.atoi]. apply IH; [exact Hd|]. pose proof (isDigit_range c Hc). lia.
Qed.

Lemma number_nonneg (ds : string) :
  timestamp.digits_only ds = true -> 0 <= timestamp.number ds.
Proof. intros Hd. apply atoi_nonneg; [exact Hd | lia]. Qed.

Ltac split_andb :=
  repeat match goal with
         | H : _ && _ = true |- _ =>
             let H' := fresh H in apply andb_true_iff in H; destruct H as [H H']
         end.

(** The parser reads a well-formed timestamp as the time it names. *)
Lemma parse_render (p : timestamp.parts) :
  timestamp.well_formed p = true ->
  gotime.parse (timestamp.render p) = Some (timestamp.time_of p).
Proof.
  destruct p as [Y M D h m s fr]. unfold timestamp.well_formed, timestamp.render,
    timestamp.time_of.
  cbn [timestamp.Y timestamp.M timestamp.D timestamp.h timestamp.m timestamp.s
       timestamp.frac].
  intros H. split_andb.
  repeat match goal with
         | H : (_ =? _)%nat = true |- _ => apply Nat.eqb_eq in H
         | H : (_ <=? _) = true |- _ => apply Z.leb_le in H
         | H : (_ <? _) = true |- _ => apply Z.ltb_lt in H
         end.
  repeat match goal with
         | H : _ || _ = true |- _ => apply orb_true_iff in H; rewrite !Nat.eqb_eq in H
         end.
  pose proof (number_nonneg h ltac:(assumption)) as Hh0.
  pose proof (number_nonneg m ltac:(assumption)) as Hm0.
  pose proof (number_nonneg s ltac:(assumption)) as Hs0.
  unfold gotime.parse.
  rewrite stdLongYear_render by assumption. cbn [mbind option_bind].
  rewrite (proj2 (skip_one _ _ _) eq_refl). cbn [mbind option_bind].
  rewrite getnum_fixed_render by assumption. cbn [mbind option_bind].
  replace ((timestamp.number M <=? 0) || (12 <? timestamp.number M)) with false
    by (symmetry; apply orb_false_iff; split; [apply Z.leb_gt | apply Z.ltb_ge]; lia).
  rewrite (proj2 (skip_one _ _ _) eq_refl). cbn [mbind option_bind].
  rewrite getnum_fixed_render by assumption. cbn [mbind option_bind].
  rewrite (proj2 (skip_one _ _ _) eq_refl). cbn [mbind option_bind].
  rewrite getnum_free_render by (assumption || reflexivity). cbn [mbind option_bind].
  replace ((timestamp.number h <? 0) || (24 <=? timestamp.number h)) with false
    by (symmetry; apply orb_false_iff; split; [apply Z.ltb_ge | apply Z.leb_gt]; lia).
  rewrite (proj2 (skip_one _ _ _) eq_refl). cbn [mbind option_bind].
  rewrite getnum_fixed_render by assumption. cbn [mbind option_bind].
  replace ((timestamp.number m <? 0) || (60 <=? timestamp.number m)) with false
    by (symmetry; apply orb_false_iff; split; [apply Z.ltb_ge | apply Z.leb_gt]; lia).
  rewrite (proj2 (skip_one _ _ _) eq_refl). cbn [mbind option_bind].
  rewrite getnum_fixed_render by assumption. cbn [mbind option_bind].
  replace ((timestamp.number s <? 0) || (60 <=? timestamp.number s)) with false
    by (symmetry; apply orb_false_iff; split; [apply Z.ltb_ge | apply Z.leb_gt]; lia).
  rewrite fraction_render by assumption.
  rewrite (proj2 (skip_one _ _ _) eq_refl). cbn [mbind option_bind].
  change (negb (String.eqb "" "")) with false. cbv iota.
  replace ((timestamp.number D <? 1)
           || (gotime.daysIn (timestamp.number M) (timestamp.number Y) <? timestamp.number D))
    with false
    by (symmetry; apply orb_false_iff; split; apply Z.ltb_ge; lia).
  reflexivity.
Qed.

(** Whatever the parser reads is a well-formed timestamp. *)
Lemma parse_inv (str : string) (t : gotime.Time) :
  gotime.parse str = Some t ->
  exists p, timestamp.well_formed p = true /\ str = timestamp.render p
            /\ t = timestamp.time_of p.
Proof.
  unfold gotime.parse. intros H.
  destruct (gotime.stdLongYear str) as [[year v1]|] eqn:E1; [|discriminate].
  cbn [mbind option_bind] in H.
  destruct (gotime.skip v1 "-") as [v2|] eqn:E2; [|discriminate].
  cbn [mbind option_bind] in H.
  destruct (gotime.getnum v2 true) as [[month v3]|] eqn:E3; [|discriminate].
  cbn [mbind option_bind] in H.
  destruct ((month <=? 0) || (12 <? month)) eqn:G1; [discriminate|].
  destruct (gotime.skip v3 "-") as [v4|] eqn:E4; [|discriminate].
  cbn [mbind option_bind] in H.
  destruct (gotime.getnum v4 true) as [[day v5]|] eqn:E5; [|discriminate].
  cbn [mbind option_bind] in H.
  destruct (gotime.skip v5 "T") as [v6|] eqn:E6; [|discriminate].
  cbn [mbind option_bind] in H.
  destruct (gotime.getnum v6 false) as [[hour v7]|] eqn:E7; [|discriminate].
  cbn [mbind option_bind] in H.
  destruct ((hour <? 0) || (24 <=? hour)) eqn:G2; [discriminate|].
  destruct (gotime.skip v7 ":") as [v8|] eqn:E8; [|discriminate].
  cbn [mbind option_bind] in H.
  destruct (gotime.getnum v8 true) as [[min v9]|] eqn:E9; [|discriminate].
  cbn [mbind option_bind] in H.
  destruct ((min <? 0) || (60 <=? min)) eqn:G3; [discriminate|].
  destruct (gotime.skip v9 ":") as [v10|] eqn:E10; [|discriminate].
  cbn [mbind option_bind] in H.
  destruct (gotime.getnum v10 true) as [[sec v11]|] eqn:E11; [|discriminate].
  cbn [mbind option_bind] in H.
  destruct ((sec <? 0) || (60 <=? sec)) eqn:G4; [discriminate|].
  destruct (gotime.fraction v11) as [nsec v12] eqn:E12.
  destruct (gotime.skip v12 "Z") as [v13|] eqn:E13; [|discriminate].
  cbn [mbind option_bind] in H.
  destruct (String.eqb_spec v13 "") as [->|]; [|discriminate]. cbn [negb] in H.
  destruct ((day <? 1) || (gotime.daysIn month year <? day)) eqn:G5; [discriminate|].
  injection H as <-.
  apply stdLongYear_inv in E1. destruct E1 as (Y & -> & HY & HlY & ->).
  apply skip_one in E2. subst v1.
  apply getnum_fixed_inv in E3. destruct E3 as (M & -> & HM & HlM & ->).
  apply skip_one in E4. subst v3.
  apply getnum_fixed_inv in E5. destruct E5 as (D & -> & HD & HlD & ->).
  apply skip_one in E6. subst v5.
  apply getnum_free_inv in E7. destruct E7 as (h & -> & Hh & Hlh & ->).
  apply skip_one in E8. subst v7.
  apply getnum_fixed_inv in E9. destruct E9 as (m & -> & Hm & Hlm & ->).
  apply skip_one in E10. subst v9.
  apply getnum_fixed_inv in E11. destruct E11 as (s & -> & Hs & Hls & ->).
  apply fraction_inv in E12. destruct E12 as (fr & -> & Hfr & ->).
  apply skip_one in E13. subst v12.
  apply orb_false_iff in G1, G2, G3, G4, G5.
  destruct G1 as [G1a G1b], G2 as [G2a G2b], G3 as [G3a G3b], G4 as [G4a G4b],
    G5 as [G5a G5b].
  apply Z.leb_gt in G1a, G2b, G3b, G4b. apply Z.ltb_ge in G1b, G5a, G5b.
  exists {| timestamp.Y := Y; timestamp.M := M; timestamp.D := D; timestamp.h := h;
            timestamp.m := m; timestamp.s := s; timestamp.frac := fr |}.
  split; [|split; reflexivity].
  unfold timestamp.well_formed.
  cbn [timestamp.Y timestamp.M timestamp.D timestamp.h timestamp.m timestamp.s
       timestamp.frac].
  rewrite HY, HM, HD, Hh, Hm, Hs, Hfr, HlY, HlM, HlD, Hlm, Hls. cbn [Nat.eqb andb].
  replace ((String.length h =? 1)%nat || (String.length h =? 2)%nat) with true
    by (symmetry; apply orb_true_iff; rewrite !Nat.eqb_eq; exact Hlh).
  cbn [andb].
  repeat (apply andb_true_iff; split);
    first [apply Z.leb_le; lia | apply Z.ltb_lt; lia].
Qed.

(** A few timestamps, run through the parser. *)
Example parse_examples :
  gotime.parse "1970-01-01T00:00:10Z" = Some (gotime.Date 1970 1 1 0 0 10 0 gotime.UTC)
  /\ gotime.parse "1970-01-01T00:00:10.5Z"
     = Some (gotime.Date 1970 1 1 0 0 10 500000000 gotime.UTC)
  /\ gotime.parse "1970-01-01T3:00:10,25Z"
     = Some (gotime.Date 1970 1 1 3 0 10 250000000 gotime.UTC)
  /\ gotime.parse "2016-02-29T23:59:59.1234567891Z"
     = Some (gotime.Date 2016 2 29 23 59 59 123456789 gotime.UTC)
  /\ gotime.parse "2016-02-30T00:00:10Z" = None
  /\ gotime.parse "2016-02-29T23:59:60Z" = None
  /\ gotime.parse "2016-02-29T23:59:59.Z" = None
  /\ gotime.parse "2016-02-29 23:59:59Z" = None
  /\ gotime.parse "2016-02-29T23:59:59" = None.
Proof. repeat split; vm_compute; reflexivity. Qed.

(** *** The timestamps accepted *)

Lemma render_length (p : timestamp.parts) :
  gostrings.len (timestamp.render p)
  = gostrings.len (timestamp.Y p) + gostrings.len (timestamp.M p)
    + gostrings.len (timestamp.D p) + gostrings.len (timestamp.h p)
    + gostrings.len (timestamp.m p) + gostrings.len (timestamp.s p)
    + gostrings.len (timestamp.frac p) + 6.
Proof.
  unfold timestamp.render.
  repeat (rewrite len_app || rewrite len_String).
  change (gostrings.len "") with 0. lia.
Qed.

Lemma matches_layout_length (str : string) :
  timestamp.matches_layout str -> gostrings.len str = 20.
Proof.
  intros (p & Hw & Hh & Hf & ->). rewrite render_length, Hf.
  unfold timestamp.well_formed in Hw. split_andb.
  repeat match goal with
         | H : (_ =? _)%nat = true |- _ => apply Nat.eqb_eq in H
         end.
  unfold gostrings.len.
  repeat match goal with
         | H : String.length _ = _ |- _ => rewrite H
         end.
  reflexivity.
Qed.

Lemma matches_layout_accepted (str : string) :
  timestamp.matches_layout str -> timestamp.accepted str.
Proof. intros (p & Hw & _ & _ & ->). exists p. split; [exact Hw | reflexivity]. Qed.

Lemma parse_accepted (str : string) :
  gotime.parse str <> None <-> timestamp.accepted str.
Proof.
  split.
  - destruct (gotime.parse str) as [t|] eqn:Hp; [|contradiction]. intros _.
    destruct (parse_inv str t Hp) as (p & Hw & -> & _). exists p. split; [exact Hw|reflexivity].
  - intros (p & Hw & ->). rewrite parse_render by exact Hw. discriminate.
Qed.

Section ParsedTimestamps.
Variable Unix : gotime.Time -> Z.

Lemma run_parseTimeString (str : string) :
  str <> "" ->
  hyper.parseTimeString gotime.Date_0_Local gotime.Parse Unix str
  = match gotime.parse str with
    | Some t => (Unix t, None)
    | None => (Unix gotime.zero, Some gotime.errBad)
    end.
Proof.
  intros Hne. unfold hyper.parseTimeString.
  destruct (String.eqb_spec str "") as [->|_]; [contradiction|].
  unfold gotime.Parse. change (String.eqb _ "2006-01-02T15:04:05Z") with true. cbv iota.
  destruct (gotime.parse str); reflexivity.
Qed.

(** C8, as the code has it: the empty string gives the Unix seconds of
    [time.Date(0, 0, 0, 0, 0, 0, 0, time.Local)] and no error.  A
    non-empty string gives an error, next to the Unix seconds of the zero
    time, exactly when it is not of the form
    [YYYY-MM-DDTh[h]:mm:ss[fraction]Z] with a month from 01 to 12, a day
    of that month, an hour below 24 in one or two digits, a minute and a
    second below 60, and for fraction nothing or a period or comma and
    digits; a string of that form gives the Unix seconds of the time it
    names, in UTC, and no error.  Every string that matches the layout
    [YYYY-MM-DDThh:mm:ssZ] is of that form.  Both packages compute the
    same. *)
Theorem parseTimeString_accepted_forms (str : string) :
  let run := hyper.parseTimeString gotime.Date_0_Local gotime.Parse Unix in
  run "" = (Unix gotime.Date_0_Local, None)
  /\ (str <> "" ->
      (snd (run str) <> None <-> ~ timestamp.accepted str)
      /\ (snd (run str) <> None -> fst (run str) = Unix gotime.zero)
      /\ (forall p, timestamp.well_formed p = true -> str = timestamp.render p ->
          run str = (Unix (timestamp.time_of p), None))
      /\ (timestamp.matches_layout str -> snd (run str) = None))
  /\ manager.parseTimeString gotime.Date_0_Local gotime.Parse Unix str = run str.
Proof.
  intros run. subst run. split; [reflexivity|]. split; [|reflexivity].
  intros Hne. rewrite (run_parseTimeString str Hne).
  split; [|split; [|split]].
  - rewrite <- parse_accepted. destruct (gotime.parse str); cbn [snd].
    + split; [intros H; contradiction | intros H _; apply H; discriminate].
    + split; [intros _ H; apply H; reflexivity | intros _; discriminate].
  - destruct (gotime.parse str); cbn [fst snd]; [contradiction | reflexivity].
  - intros p Hw ->. rewrite parse_render by exact Hw. reflexivity.
  - intros Hm. apply matches_layout_accepted, parse_accepted in Hm.
    destruct (gotime.parse str); [reflexivity | contradiction].
Qed.

End ParsedTimestamps.

(** The claim as it is worded, an error exactly when the string does not
    match [YYYY-MM-DDThh:mm:ssZ], fails: ["1970-01-01T00:00:10.5Z"] does
    not match and is parsed. *)
Lemma parseTimeString_fractional_second :
  ~ (forall (Unix : gotime.Time -> Z) (str : string),
       str <> "" ->
       (snd (hyper.parseTimeString gotime.Date_0_Local gotime.Parse Unix str) <> None
        <-> ~ timestamp.matches_layout str)).
Proof.
  intros H.
  destruct (H (fun _ => 0) "1970-01-01T00:00:10.5Z" ltac:(discriminate)) as [_ Herr].
  apply Herr.
  - intros Hm. apply matches_layout_length in Hm. vm_compute in Hm. discriminate.
  - vm_compute. reflexivity.
Qed.

Lemma parseTimeString_accepted_forms_witness :
  hyper.parseTimeString gotime.Date_0_Local gotime.Parse demo.Unix "" = (-62169984000, None)
  /\ hyper.parseTimeString gotime.Date_0_Local gotime.Parse demo.Unix "1970-01-01T00:00:10Z"
     = (10, None)
  /\ hyper.parseTimeString gotime.Date_0_Local gotime.Parse demo.Unix "2016-02-29T7:30:00,25Z"
     = (1456731000, None)
  /\ hyper.parseTimeString gotime.Date_0_Local gotime.Parse demo.Unix "yesterday"
     = (-62135596800, Some gotime.errBad).
Proof.
  split; [|split; [|split]].
  - rewrite (proj1 (parseTimeString_accepted_forms demo.Unix "")). vm_compute. reflexivity.
  - rewrite (proj1 (proj2 (proj2 (proj1 (proj2
               (parseTimeString_accepted_forms demo.Unix "1970-01-01T00:00:10Z"))
               ltac:(discriminate))))
               {| timestamp.Y := "1970"; timestamp.M := "01"; timestamp.D := "01";
                  timestamp.h := "00"; timestamp.m := "00"; timestamp.s := "10";
                  timestamp.frac := "" |} ltac:(vm_compute; reflexivity) eq_refl).
    vm_compute. reflexivity.
  - rewrite (proj1 (proj2 (proj2 (proj1 (proj2
               (parseTimeString_accepted_forms demo.Unix "2016-02-29T7:30:00,25Z"))
               ltac:(discriminate))))
               {| timestamp.Y := "2016"; timestamp.M := "02"; timestamp.D := "29";
                  timestamp.h := "7"; timestamp.m := "30"; timestamp.s := "00";
                  timestamp.frac := ",25" |} ltac:(vm_compute; reflexivity) eq_refl).
    vm_compute. reflexivity.
  - apply injective_projections.
    + rewrite (proj1 (proj2 (proj1 (proj2
                 (parseTimeString_accepted_forms demo.Unix "yesterday"))
                 ltac:(discriminate)))); [vm_compute; reflexivity|].
      vm_compute. discriminate.
    + vm_compute. reflexivity.
Defined.

(** ** Resource translation *)

Lemma binary_round_aux_sign (sx : bool) (mx ex : Z) (lx : location) :
  match binary_round_aux gonum.prec gonum.emax sx mx ex lx with
  | S754_zero s | S754_infinity s | S754_finite s _ _ => s = sx
  | S754_nan => True
  end.
Proof.
  unfold binary_round_aux.
  destruct (shr_fexp _ _ mx ex lx) as [mrs' e'].
  destruct (shr_fexp _ _ _ e' loc_Exact) as [mrs'' e''].
  destruct (shr_m mrs''); [reflexivity | | exact I].
  destruct (e'' <=? gonum.emax - gonum.prec); reflexivity.
Qed.

Lemma fgt_f0 (limit : spec_float) :
  gonum.fgt limit gonum.f0 = true ->
  limit = S754_infinity false \/ exists m e, limit = S754_finite false m e.
Proof.
  unfold gonum.fgt, gonum.f0, SFltb, SFcompare.
  destruct limit as [s|[|]|  |[|] m e]; try discriminate; eauto.
Qed.

Lemma fadd_f0_5_sign (limit : spec_float) :
  gonum.fgt limit gonum.f0 = true ->
  reference.nonneg_or_nan (gonum.fadd limit gonum.f0_5).
Proof.
  intros H. destruct (fgt_f0 _ H) as [->|(m & e & ->)]; [reflexivity|].
  unfold gonum.fadd, gonum.f0_5, SFadd, binary_normalize.
  destruct (shl_align m e _) as [m1 e1]. destruct (shl_align _ (-53) _) as [m2 e2].
  simpl. unfold binary_round. destruct (shl_align _ _ _) as [mz ez].
  apply (binary_round_aux_sign false).
Qed.

Lemma fdiv_f1024_sign (x : spec_float) :
  reference.nonneg_or_nan x -> reference.nonneg_or_nan (gonum.fdiv x gonum.f1024).
Proof.
  destruct x as [s|s| |s m e]; simpl; intros H; subst; try reflexivity.
  unfold gonum.fdiv, gonum.f1024, SFdiv.
  destruct (SFdiv_core_binary _ _ _ _ _ _) as [[mz ez] lz].
  apply (binary_round_aux_sign false).
Qed.

Lemma Qpower_2_nonneg (e : Z) :
  0 <= e -> (Qpower 2 e == inject_Z (2 ^ e))%Q.
Proof. intros H. rewrite Zpower_Qpower by exact H. reflexivity. Qed.

(** For a float that is not negative, the integer part is the floor of the
    value. *)
Lemma trunc_floor (f : spec_float) :
  reference.nonneg_or_nan f -> reference.is_finite f = true ->
  gonum.trunc f = Some (Qfloor (reference.value f)).
Proof.
  destruct f as [s|s| |s m e]; try discriminate; intros Hs _.
  - reflexivity.
  - cbn [reference.nonneg_or_nan] in Hs. subst s.
    unfold gonum.trunc, reference.value. cbn [cond_Zopp]. f_equal.
    destruct (Z_lt_le_dec e 0) as [Hneg|Hpos].
    + rewrite <- (Z.opp_involutive e) at 1. rewrite Z.shiftl_opp_r.
      rewrite Z.shiftr_div_pow2 by lia. rewrite Zdiv_Qdiv.
      apply Qfloor_comp.
      rewrite <- (Z.opp_involutive e) at 2. rewrite Qpower_opp.
      rewrite Qpower_2_nonneg by lia. reflexivity.
    + rewrite Z.shiftl_mul_pow2 by lia.
      rewrite <- (Qfloor_Z (Z.pos m * 2 ^ e)). apply Qfloor_comp.
      rewrite Qpower_2_nonneg by lia. rewrite inject_Z_mult. reflexivity.
Qed.

Lemma int32_of_int_small (n : Z) :
  - 2 ^ 31 <= n < 2 ^ 31 -> gonum.int32_of_int n = n.
Proof.
  intros H. unfold gonum.int32_of_int.
  rewrite Z.mod_small by lia. lia.
Qed.

(** [int32(int(f))] for a non-negative finite [f] below [2^31]. *)
Lemma int32_int_floor (unrepresentable : gonum.float64 -> Z) (f : spec_float) :
  reference.nonneg_or_nan f -> reference.is_finite f = true ->
  Qfloor (reference.value f) < 2 ^ 31 ->
  0 <= Qfloor (reference.value f)
  /\ gonum.int_of_float64 unrepresentable f = Qfloor (reference.value f).
Proof.
  intros Hs Hf Hlt.
  assert (H0 : 0 <= Qfloor (reference.value f)).
  { rewrite <- (Qfloor_Z 0). apply Qfloor_resp_le.
    destruct f as [s|s| |s m e]; cbn [reference.is_finite] in Hf; try discriminate.
    cbn [reference.nonneg_or_nan] in Hs. subst s.
    unfold reference.value. cbn [cond_Zopp]. apply Qmult_le_0_compat; [discriminate|].
    apply Qpower_0_le. discriminate. }
  split; [exact H0|].
  unfold gonum.int_of_float64. rewrite (trunc_floor f Hs Hf).
  unfold gonum.fits_int.
  replace (- 2 ^ 63 <=? Qfloor (reference.value f)) with true
    by (symmetry; apply Z.leb_le; lia).
  replace (Qfloor (reference.value f) <? 2 ^ 63) with true
    by (symmetry; apply Z.ltb_lt; lia).
  reflexivity.
Qed.

Section Resources.
Variable unrepresentable : gonum.float64 -> Z.

(** The two fields of the resource built, by the limits that are set. *)
Lemma CreatePodSandbox_resource_fields (config : kubeapi.PodSandboxConfig) :
  hyper.HyperRuntime.CreatePodSandbox_resource unrepresentable config
  = {| types.Vcpu :=
         gonum.int32_of_int
           match reference.cpu_limit config with
           | Some limit =>
               if gonum.fgt limit gonum.f0 then
                 let vcpu :=
                   gonum.int_of_float64 unrepresentable (gonum.fadd limit gonum.f0_5) in
                 if vcpu =? 0 then 1 else vcpu
               else 1
           | None => 1
           end;
       types.Memory :=
         gonum.int32_of_int
           match reference.memory_limit config with
           | Some limit =>
               if gonum.fgt limit gonum.f0 then
                 gonum.int_of_float64 unrepresentable
                   (gonum.fdiv (gonum.fdiv limit gonum.f1024) gonum.f1024)
               else 128
           | None => 128
           end |}.
Proof.
  unfold hyper.HyperRuntime.CreatePodSandbox_resource,
    reference.cpu_limit, reference.memory_limit.
  destruct (kubeapi.Resources config) as [[[[[cpu|]]|] [[[mem|]]|]]|]; reflexivity.
Qed.

Lemma manager_CreatePodSandbox_resource (config : kubeapi.PodSandboxConfig) :
  manager.KubeHyperManager.CreatePodSandbox_resource unrepresentable config
  = hyper.HyperRuntime.CreatePodSandbox_resource unrepresentable config.
Proof. reflexivity. Qed.

(** The vCPU count for a positive limit whose float sum with 0.5 is
    finite and below [2^31]. *)
Lemma vcpu_of_float_sum (limit : spec_float) :
  gonum.fgt limit gonum.f0 = true ->
  let sum := gonum.fadd limit gonum.f0_5 in
  reference.is_finite sum = true ->
  Qfloor (reference.value sum) < 2 ^ 31 ->
  gonum.int32_of_int
    (let vcpu := gonum.int_of_float64 unrepresentable sum in
     if vcpu =? 0 then 1 else vcpu)
  = Z.max 1 (Qfloor (reference.value sum)).
Proof.
  intros Hpos sum Hfin Hlt.
  destruct (int32_int_floor unrepresentable sum (fadd_f0_5_sign _ Hpos) Hfin Hlt)
    as [H0 ->].
  cbv zeta. destruct (Z.eqb_spec (Qfloor (reference.value sum)) 0) as [->|Hne].
  - reflexivity.
  - rewrite int32_of_int_small by lia. lia.
Qed.

(** The memory size for a positive limit whose float quotient is finite
    and below [2^31]. *)
Lemma memory_of_float_quotient (limit : spec_float) :
  gonum.fgt limit gonum.f0 = true ->
  let quot := gonum.fdiv (gonum.fdiv limit gonum.f1024) gonum.f1024 in
  reference.is_finite quot = true ->
  Qfloor (reference.value quot) < 2 ^ 31 ->
  gonum.int32_of_int (gonum.int_of_float64 unrepresentable quot)
  = Qfloor (reference.value quot).
Proof.
  intros Hpos quot Hfin Hlt.
  assert (Hs : reference.nonneg_or_nan quot).
  { apply fdiv_f1024_sign, fdiv_f1024_sign.
    destruct (fgt_f0 _ Hpos) as [->|(m & e & ->)]; reflexivity. }
  destruct (int32_int_floor unrepresentable quot Hs Hfin Hlt) as [H0 ->].
  apply int32_of_int_small. lia.
Qed.
End Resources.

(** ** Rounding of the float64 operations

    What [SFadd] and [SFdiv] compute for the operands of the resource
    translation, on integers scaled by powers of two. *)

Lemma fexp_eq (x : Z) : fexp gonum.prec gonum.emax x = Z.max (x - 53) (-1074).
Proof. reflexivity. Qed.

Lemma digits2_pos_bounds (p : positive) :
  2 ^ (Z.pos (digits2_pos p) - 1) <= Z.pos p < 2 ^ Z.pos (digits2_pos p).
Proof.
  induction p as [p IH|p IH|]; cbn [digits2_pos].
  - rewrite Pos2Z.inj_succ. replace (Z.succ (Z.pos (digits2_pos p)) - 1) with (Z.succ (Z.pos (digits2_pos p) - 1)) by lia.
    rewrite !Z.pow_succ_r by lia. lia.
  - rewrite Pos2Z.inj_succ. replace (Z.succ (Z.pos (digits2_pos p)) - 1) with (Z.succ (Z.pos (digits2_pos p) - 1)) by lia.
    rewrite !Z.pow_succ_r by lia. lia.
  - simpl. lia.
Qed.

Lemma Zdigits2_nonneg (m : Z) : 0 <= Zdigits2 m.
Proof. destruct m; simpl; lia. Qed.

Lemma Zdigits2_bounds (m : Z) :
  0 < m -> 2 ^ (Zdigits2 m - 1) <= m < 2 ^ Zdigits2 m.
Proof. destruct m as [|p|p]; try lia. intros _. apply digits2_pos_bounds. Qed.

Lemma Zdigits2_le (m j : Z) : 0 <= m -> 0 <= j -> m < 2 ^ j -> Zdigits2 m <= j.
Proof.
  intros H0 Hj H. destruct (Z.eq_dec m 0) as [->|Hne]; [simpl; lia|].
  pose proof (Zdigits2_bounds m ltac:(lia)) as [Hl _].
  pose proof (Zdigits2_nonneg m).
  destruct (Z_lt_le_dec j (Zdigits2 m)) as [Hlt|]; [|lia].
  exfalso. assert (2 ^ j <= 2 ^ (Zdigits2 m - 1)) by (apply Z.pow_le_mono_r; lia). lia.
Qed.

Lemma Zdigits2_gt (m j : Z) : 0 <= j -> 2 ^ j <= m -> j < Zdigits2 m.
Proof.
  intros Hj H. assert (0 < 2 ^ j) by (apply Z.pow_pos_nonneg; lia).
  pose proof (Zdigits2_bounds m ltac:(lia)) as [_ Hu].
  pose proof (Zdigits2_nonneg m).
  destruct (Z_lt_le_dec j (Zdigits2 m)) as [|Hle]; [lia|].
  exfalso. assert (2 ^ Zdigits2 m <= 2 ^ j) by (apply Z.pow_le_mono_r; lia). lia.
Qed.

(** An invariant that moves with the number of iterations. *)
Lemma iter_pos_scaled {A} (f : A -> A) (P : Z -> A -> Prop) :
  (forall k x, P k x -> P (k + 1) (f x)) ->
  forall p k x, P k x -> P (k + Z.pos p) (SpecFloat.iter_pos f p x).
Proof.
  intros Hf. induction p as [p IH|p IH|]; intros k x H; cbn [SpecFloat.iter_pos].
  - replace (k + Z.pos p~1) with (k + 1 + Z.pos p + Z.pos p) by lia.
    apply IH, IH, Hf, H.
  - replace (k + Z.pos p~0) with (k + Z.pos p + Z.pos p) by lia.
    apply IH, IH, H.
  - apply Hf, H.
Qed.

Lemma shr_1_inbetween (N E m : Z) (r s : bool) :
  0 < E -> 0 <= m ->
  reference.inbetween m (loc_of_shr_record (Build_shr_record m r s)) N E ->
  0 <= shr_m (shr_1 (Build_shr_record m r s))
  /\ reference.inbetween (shr_m (shr_1 (Build_shr_record m r s)))
               (loc_of_shr_record (shr_1 (Build_shr_record m r s))) N (2 * E).
Proof.
  intros HE Hm H.
  destruct m as [|[p|p|]|p]; try lia;
    destruct r, s;
    cbn [shr_1 shr_m loc_of_shr_record reference.inbetween orb] in *;
    rewrite ?(Pos2Z.inj_xI p), ?(Pos2Z.inj_xO p) in *;
    (split; [lia|]); try lia.
Qed.

Lemma shr_1_represents (N D : Z) :
  0 < D -> forall k mrs, 0 <= k /\ reference.represents N D k mrs ->
  0 <= k + 1 /\ reference.represents N D (k + 1) (shr_1 mrs).
Proof.
  intros HD k mrs [Hk [Hm H]]. split; [lia|]. unfold reference.represents.
  rewrite Z.pow_add_r by lia. change (2 ^ 1) with 2.
  assert (0 < D * 2 ^ k) by (apply Z.mul_pos_pos; [lia | apply Z.pow_pos_nonneg; lia]).
  replace (D * (2 ^ k * 2)) with (2 * (D * 2 ^ k)) by ring.
  destruct mrs as [m r s]. apply shr_1_inbetween; assumption.
Qed.

Lemma iter_shr_1_represents (N D : Z) (p : positive) (mrs : shr_record) :
  0 < D -> reference.represents N D 0 mrs ->
  reference.represents N D (Z.pos p) (SpecFloat.iter_pos shr_1 p mrs).
Proof.
  intros HD H.
  apply (iter_pos_scaled shr_1 (fun k x => 0 <= k /\ reference.represents N D k x)
           (shr_1_represents N D HD) p 0 mrs).
  split; [lia | exact H].
Qed.

(** A shift by any amount. *)
Lemma shr_represents (N D m e n : Z) (l : location) :
  0 < D -> 0 <= m -> reference.inbetween m l N D ->
  let '(mrs, e') := shr (shr_record_of_loc m l) e n in
  e' = e + Z.max 0 n /\ reference.represents N D (Z.max 0 n) mrs.
Proof.
  intros HD Hm H.
  assert (H0 : reference.represents N D 0 (shr_record_of_loc m l)).
  { unfold reference.represents. rewrite Z.mul_1_r.
    destruct l as [|[| |]]; cbn [shr_record_of_loc shr_m loc_of_shr_record]; auto. }
  unfold shr. destruct n as [|p|p].
  - split; [lia | exact H0].
  - split; [lia|]. apply iter_shr_1_represents; assumption.
  - split; [lia | exact H0].
Qed.

Lemma round_nearest_even_spec (m : Z) (l : location) (N E : Z) :
  0 < E -> reference.inbetween m l N E ->
  let z := round_nearest_even m l in
  m <= z <= m + 1
  /\ 2 * z * E - E <= 2 * N <= 2 * z * E + E
  /\ (N = m * E -> z = m).
Proof.
  intros HE H. unfold round_nearest_even.
  destruct l as [|[| |]]; cbn [reference.inbetween] in H.
  - subst. repeat split; lia.
  - destruct (Z.even m); repeat split; try lia.
  - repeat split; lia.
  - repeat split; lia.
Qed.

Lemma inbetween_bounds (m : Z) (l : location) (N E : Z) :
  0 < E -> reference.inbetween m l N E -> m * E <= N < (m + 1) * E.
Proof. intros HE H. destruct l as [|[| |]]; cbn [reference.inbetween] in H; lia. Qed.

Lemma inbetween_div (m : Z) (l : location) (N E : Z) :
  0 < E -> reference.inbetween m l N E -> m = N / E.
Proof.
  intros HE H. apply inbetween_bounds in H; [|exact HE].
  apply Z.div_unique with (r := N - m * E); lia.
Qed.

Lemma binary_round_aux_spec (sx : bool) (mx ex : Z) (lx : location) (N D : Z) :
  0 < D -> 0 <= mx -> reference.inbetween mx lx N D ->
  let k := Z.max 0 (fexp gonum.prec gonum.emax (Zdigits2 mx + ex) - ex) in
  let E := D * 2 ^ k in
  exists z,
    N / E <= z <= N / E + 1
    /\ 2 * z * E - E <= 2 * N <= 2 * z * E + E
    /\ (N = N / E * E -> z = N / E)
    /\ -1074 <= ex + k
    /\ reference.rounded sx z (ex + k) (binary_round_aux gonum.prec gonum.emax sx mx ex lx).
Proof.
  intros HD Hmx H k E.
  assert (Hk : 0 <= k) by (unfold k; lia).
  assert (HE : 0 < E) by (apply Z.mul_pos_pos; [lia | apply Z.pow_pos_nonneg; lia]).
  pose proof (Zdigits2_nonneg mx) as Hdx.
  assert (Hkd : Zdigits2 mx - 53 <= k) by (unfold k; rewrite fexp_eq; lia).
  assert (Hek : -1074 <= ex + k) by (unfold k; rewrite fexp_eq; lia).
  unfold binary_round_aux, shr_fexp.
  pose proof (shr_represents N D mx ex
                (fexp gonum.prec gonum.emax (Zdigits2 mx + ex) - ex) lx HD Hmx H) as H1.
  destruct (shr (shr_record_of_loc mx lx) ex _) as [mrs' e'].
  fold k in H1. destruct H1 as [-> [Hm1 Hin1]]. fold E in Hin1.
  set (m1 := shr_m mrs') in *. set (l1 := loc_of_shr_record mrs') in *.
  pose proof (inbetween_div _ _ _ _ HE Hin1) as Hm1div.
  pose proof (inbetween_bounds _ _ _ _ HE Hin1) as Hm1b.
  pose proof (round_nearest_even_spec m1 l1 N E HE Hin1) as Hz. cbv zeta in Hz.
  set (z := round_nearest_even m1 l1) in *.
  destruct Hz as (Hz1 & Hz2 & Hz3).
  (* m1 < 2^53 *)
  assert (Hm1lt : m1 < 2 ^ 53).
  { pose proof (inbetween_bounds _ _ _ _ HD H) as Hb.
    destruct (Z.eq_dec mx 0) as [Hx|Hx].
    - subst mx. assert (m1 * E < D) by lia.
      assert (0 < 2 ^ k) by (apply Z.pow_pos_nonneg; lia).
      assert (0 < 2 ^ 53) by reflexivity.
      destruct (Z_lt_le_dec m1 1); [lia|]. exfalso. unfold E in *. nia.
    - pose proof (Zdigits2_bounds mx ltac:(lia)) as [_ Hu].
      assert (2 ^ Zdigits2 mx <= 2 ^ (53 + k)) by (apply Z.pow_le_mono_r; lia).
      rewrite Z.pow_add_r in H0 by lia.
      assert (0 < 2 ^ k) by (apply Z.pow_pos_nonneg; lia).
      destruct (Z_lt_le_dec m1 (2 ^ 53)); [lia|]. exfalso.
      assert (2 ^ 53 * 2 ^ k * D <= m1 * E) by (unfold E; nia).
      assert ((mx + 1) * D <= 2 ^ 53 * 2 ^ k * D) by nia. lia. }
  pose proof (shr_represents z 1 z (ex + k)
                (fexp gonum.prec gonum.emax (Zdigits2 z + (ex + k)) - (ex + k)) loc_Exact
                ltac:(lia) ltac:(lia) ltac:(cbn [reference.inbetween]; lia)) as H2.
  destruct (shr (shr_record_of_loc z loc_Exact) (ex + k) _) as [mrs'' e''].
  set (k2 := Z.max 0 (fexp gonum.prec gonum.emax (Zdigits2 z + (ex + k)) - (ex + k))) in *.
  destruct H2 as [-> [Hm3 Hin3]]. rewrite Z.mul_1_l in Hin3.
  assert (Hk2 : 0 <= k2) by (unfold k2; lia).
  assert (Hdz : Zdigits2 z <= 54).
  { apply Zdigits2_le; [lia | lia |]. assert (2 ^ 53 < 2 ^ 54) by reflexivity. lia. }
  assert (Hk2le : k2 <= 1) by (unfold k2; rewrite fexp_eq; lia).
  assert (Hm3z : shr_m mrs'' * 2 ^ k2 = z /\ shr_m mrs'' < 2 ^ 53).
  { assert (H2k : 0 < 2 ^ k2) by (apply Z.pow_pos_nonneg; lia).
    pose proof (inbetween_bounds _ _ _ _ H2k Hin3) as Hb3.
    destruct (Z.eq_dec k2 0) as [Hk0|Hk0].
    - rewrite Hk0 in *. change (2 ^ 0) with 1 in *.
      assert (shr_m mrs'' = z) by lia. split; [lia|].
      destruct (Z_lt_le_dec z (2 ^ 53)); [lia|]. exfalso.
      assert (53 < Zdigits2 z) by (apply Zdigits2_gt; lia).
      unfold k2 in Hk0. rewrite fexp_eq in Hk0. lia.
    - assert (k2 = 1) by lia. rewrite H0 in *. change (2 ^ 1) with 2 in *.
      assert (53 < Zdigits2 z) by (unfold k2 in H0; rewrite fexp_eq in H0; lia).
      assert (2 ^ 53 <= z).
      { destruct (Z_lt_le_dec z (2 ^ 53)); [|lia]. exfalso.
        assert (Zdigits2 z <= 53) by (apply Zdigits2_le; lia). lia. }
      assert (z = 2 ^ 53) by lia.
      assert (E53 : 2 ^ 53 = 2 * 2 ^ 52) by reflexivity.
      split; lia. }
  destruct Hm3z as [Hm3z Hm3lt].
  exists z. rewrite <- Hm1div.
  split; [lia|]. split; [lia|]. split; [exact Hz3|]. split; [exact Hek|].
  unfold reference.rounded.
  destruct (shr_m mrs'') as [|m3|m3] eqn:Em3; [left | right | lia].
  - split; [lia | reflexivity].
  - assert (0 < 2 ^ k2) by (apply Z.pow_pos_nonneg; lia).
    split; [nia|].
    exists m3, (ex + k + k2).
    replace (ex + k + k2 - (ex + k)) with k2 by lia.
    split; [lia|]. split; [lia|]. split; [lia|]. split; [lia|]. reflexivity.
Qed.

Lemma pow2_pos (j : Z) : 0 <= j -> 0 < 2 ^ j.
Proof. intros. apply Z.pow_pos_nonneg; lia. Qed.

Lemma iter_xO (m d : positive) : Z.pos (Pos.iter xO m d) = Z.pos m * 2 ^ Z.pos d.
Proof.
  induction d as [|d IH] using Pos.peano_ind.
  - simpl. lia.
  - rewrite Pos.iter_succ, Pos2Z.inj_xO, IH, Pos2Z.inj_succ, Z.pow_succ_r by lia. ring.
Qed.

Lemma shl_align_spec (mx : positive) (ex ex' : Z) :
  snd (shl_align mx ex ex') = Z.min ex ex'
  /\ Z.pos (fst (shl_align mx ex ex')) = Z.pos mx * 2 ^ (ex - Z.min ex ex').
Proof.
  unfold shl_align. destruct (ex' - ex) as [|d|d] eqn:E; cbn [fst snd].
  - replace (Z.min ex ex') with ex by lia. rewrite Z.sub_diag. split; lia.
  - replace (Z.min ex ex') with ex by lia. rewrite Z.sub_diag. split; lia.
  - replace (Z.min ex ex') with ex' by lia. split; [reflexivity|].
    rewrite iter_xO. f_equal. f_equal. lia.
Qed.

Lemma Zdigits2_shift (m j : Z) : 0 < m -> 0 <= j -> Zdigits2 (m * 2 ^ j) = Zdigits2 m + j.
Proof.
  intros Hm Hj. pose proof (Zdigits2_bounds m Hm) as [Hl Hu].
  pose proof (pow2_pos j Hj). pose proof (Zdigits2_nonneg m).
  assert (1 <= Zdigits2 m).
  { destruct (Z_lt_le_dec (Zdigits2 m) 1); [|lia]. exfalso.
    assert (Hd0 : Zdigits2 m = 0) by lia. rewrite Hd0 in Hu. simpl in Hu. lia. }
  apply Z.le_antisymm.
  - apply Zdigits2_le; [nia | lia |]. rewrite Z.pow_add_r by lia. nia.
  - assert (Zdigits2 m - 1 + j < Zdigits2 (m * 2 ^ j)); [|lia].
    apply Zdigits2_gt; [lia|]. rewrite Z.pow_add_r by lia. nia.
Qed.

(** [binary_round] of a positive mantissa rounds at the exponent
    [F = fexp (digits + ex)]. *)
Lemma binary_round_spec (sx : bool) (mx : positive) (ex : Z) :
  let F := fexp gonum.prec gonum.emax (Zdigits2 (Z.pos mx) + ex) in
  (F <= ex /\ reference.rounded sx (Z.pos mx * 2 ^ (ex - F)) F (binary_round gonum.prec gonum.emax sx mx ex))
  \/ (ex < F /\ exists z,
        let E := 2 ^ (F - ex) in
        Z.pos mx / E <= z <= Z.pos mx / E + 1
        /\ 2 * z * E - E <= 2 * Z.pos mx <= 2 * z * E + E
        /\ (Z.pos mx = Z.pos mx / E * E -> z = Z.pos mx / E)
        /\ reference.rounded sx z F (binary_round gonum.prec gonum.emax sx mx ex)).
Proof.
  intros F. unfold binary_round.
  change (Z.pos (digits2_pos mx)) with (Zdigits2 (Z.pos mx)). fold F.
  pose proof (shl_align_spec mx ex F) as [Hs Hf]. fold F in Hs, Hf.
  destruct (shl_align mx ex F) as [mz ez]. cbn [fst snd] in Hs, Hf. subst ez.
  pose proof (binary_round_aux_spec sx (Z.pos mz) (Z.min ex F) loc_Exact (Z.pos mz) 1
                ltac:(lia) ltac:(lia) ltac:(cbn [reference.inbetween]; lia)) as H.
  cbv zeta in H.
  assert (Hd : Zdigits2 (Z.pos mz) + Z.min ex F = Zdigits2 (Z.pos mx) + ex).
  { rewrite Hf, Zdigits2_shift by lia. lia. }
  rewrite Hd in H. fold F in H.
  destruct (Z_le_gt_dec F ex) as [HF|HF].
  - left. split; [exact HF|].
    replace (Z.min ex F) with F in * by lia.
    rewrite Z.sub_diag, Z.max_id in H. change (2 ^ 0) with 1 in H.
    rewrite Z.mul_1_l, Z.div_1_r, Z.add_0_r in H.
    destruct H as (z & _ & _ & Hz & _ & Hr).
    rewrite (Hz ltac:(lia)) in Hr. rewrite <- Hf. exact Hr.
  - right. split; [lia|].
    replace (Z.min ex F) with ex in * by lia.
    rewrite Z.sub_diag in Hf. change (2 ^ 0) with 1 in Hf. rewrite Z.mul_1_r in Hf.
    assert (mz = mx) by congruence. subst mz.
    replace (Z.max 0 (F - ex)) with (F - ex) in H by lia.
    rewrite Z.mul_1_l in H. replace (ex + (F - ex)) with F in H by lia.
    destruct H as (z & H1 & H2 & H3 & _ & Hr).
    exists z. cbv zeta. auto.
Qed.

(** The integer part of a rounded result that is not negative. *)
Lemma rounded_trunc (z e1 : Z) (f : spec_float) :
  reference.rounded false z e1 f -> e1 <= 970 ->
  gonum.trunc f = Some (Z.shiftl z e1)
  /\ reference.is_finite f = true /\ reference.nonneg_or_nan f.
Proof.
  intros [[-> ->]|(Hz & m3 & e3 & Hm & He & _ & _ & ->)] Hle.
  - rewrite Z.shiftl_0_l. repeat split.
  - replace (e3 <=? 971) with true by (symmetry; apply Z.leb_le; lia).
    cbn [gonum.trunc reference.is_finite reference.nonneg_or_nan cond_Zopp].
    repeat split. f_equal. rewrite <- Hm.
    rewrite <- Z.shiftl_mul_pow2 by lia. rewrite Z.shiftl_shiftl by lia.
    f_equal. lia.
Qed.

Lemma bounded_inv (m : positive) (e : Z) :
  bounded gonum.prec gonum.emax m e = true ->
  -1074 <= e <= 971 /\ Z.pos m < 2 ^ 53 /\ (-1074 < e -> 2 ^ 52 <= Z.pos m).
Proof.
  unfold bounded, canonical_mantissa. intros H.
  apply andb_prop in H. destruct H as [H1 H2].
  apply Z.eqb_eq in H1. apply Z.leb_le in H2.
  change (Z.pos (digits2_pos m)) with (Zdigits2 (Z.pos m)) in H1.
  rewrite fexp_eq in H1. change (gonum.emax - gonum.prec) with 971 in H2.
  pose proof (Zdigits2_bounds (Z.pos m) ltac:(lia)) as [Hl Hu].
  pose proof (Zdigits2_nonneg (Z.pos m)).
  split; [lia|]. split.
  - assert (2 ^ Zdigits2 (Z.pos m) <= 2 ^ 53) by (apply Z.pow_le_mono_r; lia). lia.
  - intros He. assert (Zdigits2 (Z.pos m) = 53) by lia.
    replace (Zdigits2 (Z.pos m) - 1) with 52 in Hl by lia. exact Hl.
Qed.

Lemma shiftl_neg (z F : Z) : F <= 0 -> Z.shiftl z F = z / 2 ^ (- F).
Proof. intros. apply Z.shiftl_div_pow2. lia. Qed.

(** The sum [limit + 0.5] in units of [2^ez]. *)
Lemma fadd_f0_5_round (m : positive) (e : Z) :
  let ez := Z.min e (-53) in
  let S := Z.pos m * 2 ^ (e - ez) + 2 ^ (-1 - ez) in
  exists Sp : positive,
    Z.pos Sp = S
    /\ gonum.fadd (S754_finite false m e) gonum.f0_5
       = binary_round gonum.prec gonum.emax false Sp ez.
Proof.
  intros ez S. unfold gonum.fadd, gonum.f0_5, SFadd. cbn [cond_Zopp].
  fold ez.
  pose proof (shl_align_spec m e ez) as [_ H1].
  pose proof (shl_align_spec 4503599627370496 (-53) ez) as [_ H2].
  replace (Z.min e ez) with ez in H1 by (unfold ez; lia).
  replace (Z.min (-53) ez) with ez in H2 by (unfold ez; lia).
  set (a := fst (shl_align m e ez)) in *.
  set (b := fst (shl_align 4503599627370496 (-53) ez)) in *.
  exists (a + b)%positive. split; [|reflexivity].
  rewrite Pos2Z.inj_add, H1, H2. unfold S. f_equal.
  change (Z.pos 4503599627370496) with (2 ^ 52).
  rewrite <- Z.pow_add_r by (unfold ez; lia). f_equal. lia.
Qed.

(** Below one half: the sum is below 1 and its rounding at most 1. *)
Lemma fadd_f0_5_small (m : positive) (e : Z) :
  bounded gonum.prec gonum.emax m e = true -> e < -53 ->
  let S := Z.pos m + 2 ^ (-1 - e) in
  S / 2 ^ (- e) = 0
  /\ exists t, gonum.trunc (gonum.fadd (S754_finite false m e) gonum.f0_5) = Some t
               /\ reference.is_finite (gonum.fadd (S754_finite false m e) gonum.f0_5) = true
               /\ 0 <= t <= 1.
Proof.
  intros Hb He S.
  destruct (bounded_inv m e Hb) as (He1 & Hm & _).
  pose proof (fadd_f0_5_round m e) as HR. cbv zeta in HR.
  replace (Z.min e (-53)) with e in HR by lia.
  rewrite Z.sub_diag in HR. change (2 ^ 0) with 1 in HR. rewrite Z.mul_1_r in HR.
  fold S in HR. destruct HR as (Sp & HSp & ->).
  assert (HH : 2 ^ 53 <= 2 ^ (-1 - e)) by (apply Z.pow_le_mono_r; lia).
  assert (HU : 2 ^ (- e) = 2 * 2 ^ (-1 - e)).
  { replace (- e) with (Z.succ (-1 - e)) by lia. rewrite Z.pow_succ_r by lia. reflexivity. }
  assert (HSlt : S < 2 ^ (- e)) by (unfold S; lia).
  assert (HSge : 2 ^ (-1 - e) <= S) by (unfold S; lia).
  split; [apply Z.div_small; lia|].
  assert (HdS : Zdigits2 S = - e).
  { apply Z.le_antisymm.
    - apply Zdigits2_le; lia.
    - assert (-1 - e < Zdigits2 S) by (apply Zdigits2_gt; lia). lia. }
  pose proof (binary_round_spec false Sp e) as HB. cbv zeta in HB.
  rewrite HSp, HdS in HB. replace (- e + e) with 0 in HB by lia.
  change (fexp gonum.prec gonum.emax 0) with (-53) in HB.
  destruct HB as [[HF _]|[_ (z & Hz1 & _ & _ & Hr)]]; [lia|].
  destruct (rounded_trunc z (-53) _ Hr ltac:(lia)) as (Ht & Hfin & _).
  exists (Z.shiftl z (-53)). split; [exact Ht|]. split; [exact Hfin|].
  rewrite shiftl_neg by lia. change (- -53) with 53.
  assert (HE : 0 < 2 ^ (-53 - e)) by (apply pow2_pos; lia).
  assert (HUE : 2 ^ (- e) = 2 ^ 53 * 2 ^ (-53 - e)).
  { rewrite <- Z.pow_add_r by lia. f_equal. lia. }
  assert (Hq : S / 2 ^ (-53 - e) < 2 ^ 53).
  { apply Z.div_lt_upper_bound; [lia|]. rewrite Z.mul_comm. lia. }
  assert (0 <= S / 2 ^ (-53 - e)) by (apply Z.div_pos; lia).
  split.
  - apply Z.div_pos; [lia | reflexivity].
  - assert (z / 2 ^ 53 < 2); [|lia].
    apply Z.div_lt_upper_bound; [reflexivity|]. change (2 ^ 53 * 2) with (2 ^ 53 + 2 ^ 53). lia.
Qed.

(** From one half on: the rounding of the sum has the floor of the sum. *)
Lemma fadd_f0_5_large (m : positive) (e : Z) :
  bounded gonum.prec gonum.emax m e = true -> -53 <= e ->
  let S := Z.pos m * 2 ^ (e + 53) + 2 ^ 52 in
  S / 2 ^ 53 < 2 ^ 31 ->
  gonum.trunc (gonum.fadd (S754_finite false m e) gonum.f0_5) = Some (S / 2 ^ 53)
  /\ reference.is_finite (gonum.fadd (S754_finite false m e) gonum.f0_5) = true.
Proof.
  intros Hb He S Hlt.
  destruct (bounded_inv m e Hb) as (He1 & Hm & Hn). specialize (Hn ltac:(lia)).
  pose proof (fadd_f0_5_round m e) as HR. cbv zeta in HR.
  replace (Z.min e (-53)) with (-53) in HR by lia.
  replace (e - -53) with (e + 53) in HR by lia.
  change (2 ^ (-1 - -53)) with (2 ^ 52) in HR.
  fold S in HR. destruct HR as (Sp & HSp & ->).
  set (a := e + 53) in *. assert (Ha : 0 <= a) by (unfold a; lia).
  assert (HA : 0 < 2 ^ a) by (apply pow2_pos; lia).
  (* size of S *)
  assert (HS84 : S < 2 ^ 84).
  { assert (S < 2 ^ 31 * 2 ^ 53); [|exact H].
    destruct (Z_lt_le_dec S (2 ^ 31 * 2 ^ 53)) as [|Hge]; [assumption|]. exfalso.
    assert (2 ^ 31 <= S / 2 ^ 53) by (apply Z.div_le_lower_bound; [reflexivity | lia]). lia. }
  assert (HS53 : 2 ^ 53 <= S).
  { unfold S. change (2 ^ 53) with (2 ^ 52 + 2 ^ 52). nia. }
  pose proof (Zdigits2_gt S 53 ltac:(lia) HS53) as Hd1.
  pose proof (Zdigits2_le S 84 ltac:(lia) ltac:(lia) HS84) as Hd2.
  set (k := Zdigits2 S - 53) in *.
  assert (Hk : 1 <= k <= 31) by (unfold k; lia).
  pose proof (Zdigits2_bounds S ltac:(lia)) as [HSl HSu].
  replace (Zdigits2 S - 1) with (52 + k) in HSl by (unfold k; lia).
  replace (Zdigits2 S) with (53 + k) in HSu by (unfold k; lia).
  pose proof (binary_round_spec false Sp (-53)) as HB. cbv zeta in HB.
  rewrite HSp in HB. rewrite fexp_eq in HB.
  replace (Z.max (Zdigits2 S + -53 - 53) (-1074)) with (k - 53) in HB by (unfold k; lia).
  replace (k - 53 - -53) with k in HB by lia.
  destruct HB as [[HF _]|[_ (z & Hz1 & Hz2 & Hz3 & Hr)]]; [lia|].
  destruct (rounded_trunc z (k - 53) _ Hr ltac:(lia)) as (Ht & Hfin & _).
  split; [|exact Hfin]. rewrite Ht. f_equal.
  rewrite shiftl_neg by lia. replace (- (k - 53)) with (53 - k) by lia.
  assert (HK : 0 < 2 ^ k) by (apply pow2_pos; lia).
  assert (HW : 0 < 2 ^ (53 - k)) by (apply pow2_pos; lia).
  assert (HKW : 2 ^ k * 2 ^ (53 - k) = 2 ^ 53).
  { rewrite <- Z.pow_add_r by lia. f_equal. lia. }
  assert (HK52 : 2 ^ k * 2 ^ (52 - k) = 2 ^ 52).
  { rewrite <- Z.pow_add_r by lia. f_equal. lia. }
  assert (HK31 : 2 ^ k <= 2 ^ 31) by (apply Z.pow_le_mono_r; lia).
  destruct (Z_le_gt_dec k a) as [Hka|Hka].
  - (* no bit is lost *)
    assert (HAk : 2 ^ a = 2 ^ k * 2 ^ (a - k)).
    { rewrite <- Z.pow_add_r by lia. f_equal. lia. }
    assert (HSk : S = (Z.pos m * 2 ^ (a - k) + 2 ^ (52 - k)) * 2 ^ k).
    { unfold S. rewrite HAk, <- HK52. ring. }
    assert (Hdiv : S / 2 ^ k = Z.pos m * 2 ^ (a - k) + 2 ^ (52 - k)).
    { rewrite HSk at 1. apply Z.div_mul. lia. }
    rewrite (Hz3 ltac:(rewrite Hdiv; exact HSk)).
    rewrite Z.div_div by lia. rewrite HKW. reflexivity.
  - (* the sum crossed a power of two *)
    assert (HL : Z.pos m * 2 ^ a < 2 ^ (52 + k)).
    { assert (2 ^ (53 + a) <= 2 ^ (52 + k)) by (apply Z.pow_le_mono_r; lia).
      rewrite Z.pow_add_r in H by lia. nia. }
    assert (HP : 2 ^ (52 + k) = 2 ^ (k - 1) * 2 ^ 53).
    { rewrite <- Z.pow_add_r by lia. f_equal. lia. }
    assert (HPk : 2 ^ (52 + k) = 2 ^ 52 * 2 ^ k) by (apply Z.pow_add_r; lia).
    assert (HN0 : 0 < 2 ^ (k - 1)) by (apply pow2_pos; lia).
    assert (HSdiv : S / 2 ^ 53 = 2 ^ (k - 1)).
    { symmetry. apply Z.div_unique with (r := S - 2 ^ (52 + k)).
      - left. unfold S in *. change (2 ^ 53) with (2 ^ 52 + 2 ^ 52). lia.
      - rewrite HP. ring. }
    rewrite HSdiv.
    assert (HN0W : 2 ^ (k - 1) * 2 ^ (53 - k) = 2 ^ 52).
    { rewrite <- Z.pow_add_r by lia. f_equal. lia. }
    assert (Hlow : 2 ^ 52 <= S / 2 ^ k).
    { apply Z.div_le_lower_bound; [lia|]. rewrite Z.mul_comm. lia. }
    symmetry. apply Z.div_unique with (r := z - 2 ^ 52).
    + left. split; [lia|].
      (* z * 2^k < 2^(52+k) + 2^53 *)
      assert (Hup : 2 * z * 2 ^ k < 2 * (2 ^ 52 * 2 ^ k) + 2 * 2 ^ 53).
      { assert (2 * S < 2 * 2 ^ (52 + k) + 2 * 2 ^ 52) by (unfold S in *; lia).
        assert (2 ^ 31 + 2 * 2 ^ 52 <= 2 * 2 ^ 53) by (vm_compute; discriminate).
        lia. }
      rewrite <- HKW in Hup.
      assert (z < 2 ^ 52 + 2 ^ (53 - k)); [|lia].
      destruct (Z_lt_le_dec z (2 ^ 52 + 2 ^ (53 - k))) as [|Hge]; [assumption|]. exfalso.
      assert (2 ^ k * (2 ^ 52 + 2 ^ (53 - k)) <= 2 ^ k * z) by (apply Z.mul_le_mono_nonneg_l; lia).
      lia.
    + rewrite Z.mul_comm, HN0W. ring.
Qed.

Lemma new_location_even_inbetween (d q r : Z) :
  0 < d -> 0 <= r < d ->
  reference.inbetween q (new_location_even d r) (d * q + r) d.
Proof.
  intros Hd Hr. unfold new_location_even.
  destruct (Z.eqb_spec r 0) as [->|Hne]; cbn [reference.inbetween]; [ring|].
  destruct (Z.compare_spec (2 * r) d); cbn [reference.inbetween]; lia.
Qed.

(** The quotient by 1024 as a rounding of [m * 2^s / 2^52] at exponent
    [e']. *)
Lemma fdiv_f1024_round (m : positive) (e : Z) :
  Z.pos m < 2 ^ 53 -> -1074 <= e ->
  let e' := Z.max (Zdigits2 (Z.pos m) + e - 64) (-1074) in
  let s := e + 42 - e' in
  0 < s
  /\ exists q loc,
      0 <= q /\ q = Z.pos m * 2 ^ s / 2 ^ 52
      /\ reference.inbetween q loc (Z.pos m * 2 ^ s) (2 ^ 52)
      /\ gonum.fdiv (S754_finite false m e) gonum.f1024
         = binary_round_aux gonum.prec gonum.emax false q e' loc.
Proof.
  intros Hm He e' s.
  pose proof (Zdigits2_nonneg (Z.pos m)) as Hd0.
  assert (Hd : Zdigits2 (Z.pos m) <= 53) by (apply Zdigits2_le; lia).
  assert (Hs : 0 < s) by (unfold s, e'; lia).
  split; [exact Hs|].
  unfold gonum.fdiv, gonum.f1024, SFdiv, SFdiv_core_binary. cbn [xorb].
  change (Zdigits2 (Z.pos 4503599627370496)) with 53.
  rewrite fexp_eq.
  replace (Z.min (Z.max (Zdigits2 (Z.pos m) + e - (53 + -42) - 53) (-1074)) (e - -42))
    with e' by (unfold e'; lia).
  replace (e - -42 - e') with s by (unfold s; lia).
  destruct s as [|sp|sp] eqn:Es; try lia.
  rewrite Z.shiftl_mul_pow2 by lia.
  change (Z.pos 4503599627370496) with (2 ^ 52).
  assert (Hde : Z.div_eucl (Z.pos m * 2 ^ Z.pos sp) (2 ^ 52)
                = (Z.pos m * 2 ^ Z.pos sp / 2 ^ 52, (Z.pos m * 2 ^ Z.pos sp) mod 2 ^ 52)).
  { unfold Z.div, Z.modulo.
    destruct (Z.div_eucl (Z.pos m * 2 ^ Z.pos sp) (2 ^ 52)); reflexivity. }
  rewrite Hde.
  pose proof (Z.mod_pos_bound (Z.pos m * 2 ^ Z.pos sp) (2 ^ 52) ltac:(reflexivity)) as Hr.
  pose proof (Z.div_mod (Z.pos m * 2 ^ Z.pos sp) (2 ^ 52) ltac:(discriminate)) as Heq.
  set (q := Z.pos m * 2 ^ Z.pos sp / 2 ^ 52) in *.
  set (r := (Z.pos m * 2 ^ Z.pos sp) mod 2 ^ 52) in *.
  exists q, (new_location (2 ^ 52) r).
  assert (0 < 2 ^ Z.pos sp) by (apply pow2_pos; lia).
  split; [unfold q; apply Z.div_pos; [lia | reflexivity]|].
  split; [reflexivity|]. split; [|reflexivity].
  rewrite Heq at 1. unfold new_location. change (Z.even (2 ^ 52)) with true.
  apply new_location_even_inbetween; [reflexivity | lia].
Qed.

(** Away from the subnormal range the quotient by 1024 is exact. *)
Lemma fdiv_f1024_exact (m : positive) (e : Z) :
  Z.pos m < 2 ^ 53 -> -1064 <= e <= 971 ->
  exists m3 e3 e1,
    gonum.fdiv (S754_finite false m e) gonum.f1024 = S754_finite false m3 e3
    /\ Z.pos m3 < 2 ^ 53 /\ -1074 <= e1 /\ e1 <= e3 /\ e1 <= e - 10 /\ e3 <= e - 9
    /\ Z.pos m3 * 2 ^ (e3 - e1) = Z.pos m * 2 ^ (e - 10 - e1).
Proof.
  intros Hm He.
  pose proof (Zdigits2_nonneg (Z.pos m)) as Hd0.
  assert (Hd : Zdigits2 (Z.pos m) <= 53) by (apply Zdigits2_le; lia).
  destruct (fdiv_f1024_round m e Hm ltac:(lia)) as (Hs & q & loc & Hq0 & Hq & Hin & ->).
  set (e' := Z.max (Zdigits2 (Z.pos m) + e - 64) (-1074)) in *.
  set (s := e + 42 - e') in *.
  assert (HS : 0 < 2 ^ s) by (apply pow2_pos; lia).
  assert (Hqlt : q < 2 ^ (s + 1)).
  { rewrite Hq. apply Z.div_lt_upper_bound; [reflexivity|].
    rewrite <- Z.pow_add_r by lia. replace (52 + (s + 1)) with (53 + s) by lia.
    rewrite Z.pow_add_r by lia. nia. }
  assert (Hdq : Zdigits2 q <= s + 1) by (apply Zdigits2_le; lia).
  pose proof (Zdigits2_nonneg q) as Hdq0.
  destruct (binary_round_aux_spec false q e' loc (Z.pos m * 2 ^ s) (2 ^ 52)
              ltac:(reflexivity) Hq0 Hin) as (z & _ & _ & Hz & He1 & Hr).
  rewrite fexp_eq in Hz, He1, Hr.
  set (k := Z.max 0 (Z.max (Zdigits2 q + e' - 53) (-1074) - e')) in *.
  assert (Hk : 0 <= k) by (unfold k; lia).
  assert (Hk2 : e' + k <= e - 10) by (unfold k, s, e' in *; lia).
  assert (HN : Z.pos m * 2 ^ s = Z.pos m * 2 ^ (e - 10 - (e' + k)) * (2 ^ 52 * 2 ^ k)).
  { rewrite <- Z.mul_assoc. f_equal. rewrite <- !Z.pow_add_r by lia. f_equal. unfold s. lia. }
  assert (HE : 0 < 2 ^ 52 * 2 ^ k).
  { apply Z.mul_pos_pos; [reflexivity | apply pow2_pos; lia]. }
  assert (Hdiv : Z.pos m * 2 ^ s / (2 ^ 52 * 2 ^ k) = Z.pos m * 2 ^ (e - 10 - (e' + k))).
  { rewrite HN at 1. apply Z.div_mul. lia. }
  rewrite Hdiv in Hz. specialize (Hz HN). subst z.
  assert (HP : 0 < 2 ^ (e - 10 - (e' + k))) by (apply pow2_pos; lia).
  destruct Hr as [[Hz0 _]|(_ & m3 & e3 & Hm3 & He3 & Hm3lt & He3lo & ->)]; [nia|].
  exists m3, e3, (e' + k).
  replace (e3 <=? 971) with true by (symmetry; apply Z.leb_le; lia).
  repeat split; try lia.
Qed.

(** A quotient of a value below [2^j] is at most [2^(j-10)], whatever is
    reference.rounded away. *)
Lemma fdiv_f1024_bound (m : positive) (e j : Z) :
  Z.pos m < 2 ^ 53 -> -1074 <= e -> -1064 <= j <= 900 -> e < j ->
  Z.pos m < 2 ^ (j - e) ->
  gonum.fdiv (S754_finite false m e) gonum.f1024 = S754_zero false
  \/ exists m3 e3,
      gonum.fdiv (S754_finite false m e) gonum.f1024 = S754_finite false m3 e3
      /\ Z.pos m3 < 2 ^ 53 /\ -1074 <= e3 /\ e3 < j - 9
      /\ Z.pos m3 < 2 ^ (j - 9 - e3).
Proof.
  intros Hm He Hj Hej Hlt.
  pose proof (Zdigits2_nonneg (Z.pos m)) as Hd0.
  assert (Hd : Zdigits2 (Z.pos m) <= 53) by (apply Zdigits2_le; lia).
  assert (Hdj : Zdigits2 (Z.pos m) <= j - e) by (apply Zdigits2_le; lia).
  destruct (fdiv_f1024_round m e Hm ltac:(lia)) as (Hs & q & loc & Hq0 & Hq & Hin & ->).
  set (e' := Z.max (Zdigits2 (Z.pos m) + e - 64) (-1074)) in *.
  set (s := e + 42 - e') in *.
  assert (He'j : e' <= j - 10) by (unfold e'; lia).
  assert (HS : 0 < 2 ^ s) by (apply pow2_pos; lia).
  assert (HNlt : Z.pos m * 2 ^ s < 2 ^ (j - 10 - e') * 2 ^ 52).
  { rewrite <- Z.pow_add_r by lia. replace (j - 10 - e' + 52) with (j - e + s) by (unfold s; lia).
    rewrite Z.pow_add_r by lia. nia. }
  assert (Hqlt : q < 2 ^ (j - 10 - e')).
  { rewrite Hq. apply Z.div_lt_upper_bound; [reflexivity|]. lia. }
  assert (Hdq : Zdigits2 q <= j - 10 - e') by (apply Zdigits2_le; lia).
  pose proof (Zdigits2_nonneg q) as Hdq0.
  destruct (binary_round_aux_spec false q e' loc (Z.pos m * 2 ^ s) (2 ^ 52)
              ltac:(reflexivity) Hq0 Hin) as (z & Hz & _ & _ & He1 & Hr).
  rewrite fexp_eq in Hz, He1, Hr.
  set (k := Z.max 0 (Z.max (Zdigits2 q + e' - 53) (-1074) - e')) in *.
  assert (Hk : 0 <= k) by (unfold k; lia).
  assert (Hk2 : e' + k <= j - 10) by (unfold k in *; lia).
  assert (HE : 0 < 2 ^ 52 * 2 ^ k).
  { apply Z.mul_pos_pos; [reflexivity | apply pow2_pos; lia]. }
  assert (Hzle : z <= 2 ^ (j - 10 - (e' + k))).
  { assert (Z.pos m * 2 ^ s / (2 ^ 52 * 2 ^ k) < 2 ^ (j - 10 - (e' + k))); [|lia].
    apply Z.div_lt_upper_bound; [lia|].
    replace (2 ^ 52 * 2 ^ k * 2 ^ (j - 10 - (e' + k))) with (2 ^ (j - 10 - e') * 2 ^ 52); [lia|].
    rewrite <- !Z.pow_add_r by lia. f_equal. lia. }
  destruct Hr as [[_ ->]|(Hz0 & m3 & e3 & Hm3 & He3 & Hm3lt & He3lo & ->)]; [left; reflexivity|].
  right. exists m3, e3.
  replace (e3 <=? 971) with true by (symmetry; apply Z.leb_le; lia).
  assert (HP : 0 < 2 ^ (e3 - (e' + k))) by (apply pow2_pos; lia).
  assert (He3j : e3 <= j - 10).
  { destruct (Z_le_gt_dec e3 (j - 10)) as [|Hgt]; [assumption|]. exfalso.
    assert (e3 = j - 9) by lia. assert (e' + k = j - 10) by lia.
    replace (e3 - (e' + k)) with 1 in * by lia.
    replace (j - 10 - (e' + k)) with 0 in * by lia.
    change (2 ^ 1) with 2 in *. change (2 ^ 0) with 1 in *. lia. }
  split; [reflexivity|]. split; [exact Hm3lt|]. split; [lia|]. split; [lia|].
  assert (Hsplit : 2 ^ (j - 10 - (e' + k)) = 2 ^ (j - 10 - e3) * 2 ^ (e3 - (e' + k))).
  { rewrite <- Z.pow_add_r by lia. f_equal. lia. }
  assert (Hm3le : Z.pos m3 <= 2 ^ (j - 10 - e3)).
  { destruct (Z_le_gt_dec (Z.pos m3) (2 ^ (j - 10 - e3))) as [|Hgt]; [assumption|]. exfalso.
    assert (2 ^ (j - 10 - e3) * 2 ^ (e3 - (e' + k)) < Z.pos m3 * 2 ^ (e3 - (e' + k)))
      by (apply Z.mul_lt_mono_pos_r; lia).
    lia. }
  replace (j - 9 - e3) with (Z.succ (j - 10 - e3)) by lia.
  rewrite Z.pow_succ_r by lia.
  assert (0 < 2 ^ (j - 10 - e3)) by (apply pow2_pos; lia). lia.
Qed.

Lemma fdiv_zero : gonum.fdiv (S754_zero false) gonum.f1024 = S754_zero false.
Proof. reflexivity. Qed.

(** [limit / 1024 / 1024] truncates to the mantissa shifted by
    [e - 20]. *)
Lemma fdiv_fdiv_trunc (m : positive) (e : Z) :
  bounded gonum.prec gonum.emax m e = true ->
  let quot := gonum.fdiv (gonum.fdiv (S754_finite false m e) gonum.f1024) gonum.f1024 in
  gonum.trunc quot = Some (Z.shiftl (Z.pos m) (e - 20))
  /\ reference.is_finite quot = true.
Proof.
  intros Hb quot. subst quot.
  destruct (bounded_inv m e Hb) as (He & Hm & Hn).
  destruct (Z_le_gt_dec (-1054) e) as [Hbig|Hsmall].
  - (* both quotients are exact *)
    specialize (Hn ltac:(lia)).
    destruct (fdiv_f1024_exact m e Hm ltac:(lia))
      as (m3 & e3 & e1 & -> & Hm3 & He1 & He13 & He1e & He3e & Hv1).
    assert (He3 : e - 10 <= e3).
    { destruct (Z_le_gt_dec (e - 10) e3) as [|Hgt]; [assumption|]. exfalso.
      assert (HP : 0 < 2 ^ (e3 - e1)) by (apply pow2_pos; lia).
      assert (Hsplit : 2 ^ (e - 10 - e1) = 2 ^ (e - 10 - e3) * 2 ^ (e3 - e1)).
      { rewrite <- Z.pow_add_r by lia. f_equal. lia. }
      assert (2 <= 2 ^ (e - 10 - e3)).
      { change 2 with (2 ^ 1) at 1. apply Z.pow_le_mono_r; lia. }
      rewrite Hsplit in Hv1.
      assert (Z.pos m3 = Z.pos m * 2 ^ (e - 10 - e3)).
      { apply (Z.mul_reg_r _ _ (2 ^ (e3 - e1))); [lia|]. rewrite Hv1. ring. }
      change (2 ^ 53) with (2 * 2 ^ 52) in Hm3. nia. }
    destruct (fdiv_f1024_exact m3 e3 Hm3 ltac:(lia))
      as (m4 & e4 & e2 & -> & Hm4 & He2 & He24 & He2e & He4e & Hv2).
    cbn [gonum.trunc reference.is_finite cond_Zopp]. split; [|reflexivity]. f_equal.
    transitivity (Z.shiftl (Z.pos m3) (e3 - 10)).
    + replace e4 with ((e4 - e2) + e2) at 1 by lia.
      rewrite <- (Z.shiftl_shiftl (Z.pos m4) (e4 - e2) e2) by lia.
      rewrite (Z.shiftl_mul_pow2 (Z.pos m4) (e4 - e2)) by lia.
      rewrite Hv2. rewrite <- (Z.shiftl_mul_pow2 (Z.pos m3)) by lia.
      rewrite Z.shiftl_shiftl by lia. f_equal. lia.
    + replace (e3 - 10) with ((e3 - e1) + (e1 - 10)) by lia.
      rewrite <- (Z.shiftl_shiftl (Z.pos m3) (e3 - e1) (e1 - 10)) by lia.
      rewrite (Z.shiftl_mul_pow2 (Z.pos m3) (e3 - e1)) by lia.
      rewrite Hv1. rewrite <- (Z.shiftl_mul_pow2 (Z.pos m)) by lia.
      rewrite Z.shiftl_shiftl by lia. f_equal. lia.
  - (* everything stays far below 1 *)
    assert (Hz : Z.shiftl (Z.pos m) (e - 20) = 0).
    { rewrite shiftl_neg by lia. apply Z.div_small. split; [lia|].
      assert (2 ^ 53 <= 2 ^ (- (e - 20))) by (apply Z.pow_le_mono_r; lia). lia. }
    rewrite Hz.
    assert (Hlt : Z.pos m < 2 ^ (-1001 - e)).
    { assert (2 ^ 53 <= 2 ^ (-1001 - e)) by (apply Z.pow_le_mono_r; lia). lia. }
    destruct (fdiv_f1024_bound m e (-1001) Hm ltac:(lia) ltac:(lia) ltac:(lia) Hlt)
      as [->|(m3 & e3 & -> & Hm3 & He3 & He3j & Hm3lt)].
    + rewrite fdiv_zero. split; reflexivity.
    + replace (-1001 - 9 - e3) with (-1010 - e3) in Hm3lt by lia.
      destruct (fdiv_f1024_bound m3 e3 (-1010) Hm3 He3 ltac:(lia) ltac:(lia) Hm3lt)
        as [->|(m4 & e4 & -> & Hm4 & He4 & He4j & Hm4lt)].
      * split; reflexivity.
      * cbn [gonum.trunc reference.is_finite cond_Zopp]. split; [|reflexivity]. f_equal.
        rewrite shiftl_neg by lia. apply Z.div_small. split; [lia|].
        assert (2 ^ (-1010 - 9 - e4) <= 2 ^ (- e4)) by (apply Z.pow_le_mono_r; lia). lia.
Qed.

(** Powers of two as rationals. *)
Lemma Qpower_2_shift (a b : Z) :
  0 <= a -> 0 <= b -> (Qpower 2 (a - b) == inject_Z (2 ^ a) / inject_Z (2 ^ b))%Q.
Proof.
  intros Ha Hb. unfold Z.sub. rewrite Qpower_plus by discriminate.
  rewrite Qpower_opp. rewrite !Zpower_Qpower by assumption. reflexivity.
Qed.

Lemma inject_Z_pow2_nonzero (b : Z) : 0 <= b -> ~ (inject_Z (2 ^ b) == 0)%Q.
Proof.
  intros Hb H. pose proof (Z.pow_pos_nonneg 2 b ltac:(lia) Hb).
  unfold Qeq in H. simpl in H. lia.
Qed.

(** The floor of [m * 2^e] times a power of two over a power of two. *)
Lemma Qfloor_value_shift (m : positive) (e j : Z) :
  Qfloor (inject_Z (Z.pos m) * Qpower 2 (e - j))%Q = Z.shiftl (Z.pos m) (e - j).
Proof.
  destruct (Z_lt_le_dec (e - j) 0) as [Hneg|Hpos].
  - rewrite shiftl_neg by lia. rewrite Zdiv_Qdiv. apply Qfloor_comp.
    replace (e - j) with (0 - (- (e - j))) at 1 by lia.
    rewrite Qpower_2_shift by lia. change (inject_Z (2 ^ 0)) with 1%Q.
    unfold Qdiv. ring.
  - rewrite Z.shiftl_mul_pow2 by lia.
    rewrite <- (Qfloor_Z (Z.pos m * 2 ^ (e - j))). apply Qfloor_comp.
    rewrite inject_Z_mult, Zpower_Qpower by lia. reflexivity.
Qed.

Lemma memoryMB_of_shift (m : positive) (e : Z) :
  reference.memoryMB_of (S754_finite false m e) = Z.shiftl (Z.pos m) (e - 20).
Proof.
  unfold reference.memoryMB_of, reference.value. cbn [cond_Zopp].
  rewrite <- Qfloor_value_shift. apply Qfloor_comp.
  unfold Z.sub. rewrite Qpower_plus by discriminate.
  change (Qpower 2 (- (20))) with (/ inject_Z 1048576)%Q.
  change (inject_Z 1024) with (1024 # 1)%Q. change (inject_Z 1048576) with (1048576 # 1)%Q.
  field.
Qed.

(** [limit + 1/2] over the common unit [2^ez]. *)
Lemma value_plus_half (m : positive) (e ez : Z) :
  ez <= e -> ez <= -1 ->
  (reference.value (S754_finite false m e) + (1 # 2)
   == inject_Z (Z.pos m * 2 ^ (e - ez) + 2 ^ (-1 - ez)) / inject_Z (2 ^ (- ez)))%Q.
Proof.
  intros H1 H2. unfold reference.value. cbn [cond_Zopp].
  replace e with ((e - ez) - (- ez)) at 1 by lia.
  rewrite Qpower_2_shift by lia.
  rewrite inject_Z_plus, inject_Z_mult.
  assert (Hh : (inject_Z (2 ^ (- ez)) == 2 * inject_Z (2 ^ (-1 - ez)))%Q).
  { replace (- ez) with (Z.succ (-1 - ez)) by lia. rewrite Z.pow_succ_r by lia.
    rewrite inject_Z_mult. reflexivity. }
  pose proof (inject_Z_pow2_nonzero (-1 - ez) ltac:(lia)) as Hnz.
  rewrite Hh. field. exact Hnz.
Qed.

Lemma vcpu_of_units (m : positive) (e ez : Z) :
  ez <= e -> ez <= -1 ->
  reference.vcpu_of (S754_finite false m e)
  = Z.max 1 ((Z.pos m * 2 ^ (e - ez) + 2 ^ (-1 - ez)) / 2 ^ (- ez)).
Proof.
  intros H1 H2. unfold reference.vcpu_of. f_equal.
  rewrite Zdiv_Qdiv. apply Qfloor_comp. apply value_plus_half; assumption.
Qed.

(** ** Resource translation against the formulas *)

Lemma value_finite_pos (m : positive) (e : Z) :
  (0 < reference.value (S754_finite false m e))%Q.
Proof.
  unfold reference.value. cbn [cond_Zopp].
  apply Qmult_lt_0_compat; [reflexivity | apply Qpower_0_lt; reflexivity].
Qed.

Lemma value_finite_neg (m : positive) (e : Z) :
  ~ (0 < reference.value (S754_finite true m e))%Q.
Proof.
  intros H. pose proof (value_finite_pos m e) as Hp.
  assert (Hopp : (reference.value (S754_finite true m e)
                  == - reference.value (S754_finite false m e))%Q).
  { unfold reference.value. cbn [cond_Zopp].
    change (Z.neg m) with (- Z.pos m). rewrite inject_Z_opp. ring. }
  rewrite Hopp in H. apply (Qlt_irrefl 0).
  apply Qlt_trans with (- reference.value (S754_finite false m e))%Q; [exact H|].
  apply Qopp_lt_compat in Hp. exact Hp.
Qed.

(** A well-formed float with a positive value is a positive finite one. *)
Lemma positive_number (limit : spec_float) :
  valid_binary 53 1024 limit = true -> (0 < reference.value limit)%Q ->
  exists m e, limit = S754_finite false m e
              /\ bounded gonum.prec gonum.emax m e = true.
Proof.
  destruct limit as [s|s| |[|] m e]; intros Hv Hp;
    try (exfalso; revert Hp; apply Qlt_irrefl).
  - exfalso. exact (value_finite_neg m e Hp).
  - exists m, e. split; [reflexivity | exact Hv].
Qed.

Lemma fgt_not_positive (limit : spec_float) :
  ~ (0 < reference.value limit)%Q -> limit <> S754_infinity false ->
  gonum.fgt limit gonum.f0 = false.
Proof.
  destruct limit as [s|[|]| |[|] m e]; intros Hp Hinf; try reflexivity.
  - contradiction.
  - exfalso. apply Hp, value_finite_pos.
Qed.

Lemma int_of_float64_trunc (unrepresentable : gonum.float64 -> Z) (f : spec_float) (t : Z) :
  gonum.trunc f = Some t -> - 2 ^ 63 <= t < 2 ^ 63 ->
  gonum.int_of_float64 unrepresentable f = t.
Proof.
  intros Ht Hr. unfold gonum.int_of_float64, gonum.fits_int. rewrite Ht.
  replace (- 2 ^ 63 <=? t) with true by (symmetry; apply Z.leb_le; lia).
  replace (t <? 2 ^ 63) with true by (symmetry; apply Z.ltb_lt; lia).
  reflexivity.
Qed.

Section Translation.
Variable unrepresentable : gonum.float64 -> Z.

(** The vCPU count of a positive number whose rounding fits 32 bits. *)
Lemma vcpu_of_positive (m : positive) (e : Z) :
  bounded gonum.prec gonum.emax m e = true ->
  reference.vcpu_of (S754_finite false m e) < 2 ^ 31 ->
  gonum.int32_of_int
    (let vcpu :=
       gonum.int_of_float64 unrepresentable
         (gonum.fadd (S754_finite false m e) gonum.f0_5) in
     if vcpu =? 0 then 1 else vcpu)
  = reference.vcpu_of (S754_finite false m e).
Proof.
  intros Hb Hlt. cbv zeta.
  destruct (bounded_inv m e Hb) as (He & Hm & Hn).
  destruct (Z_lt_le_dec e (-53)) as [Hsmall|Hlarge].
  - destruct (fadd_f0_5_small m e Hb Hsmall) as (Hdiv & t & Ht & _ & Ht01).
    rewrite (vcpu_of_units m e e) by lia.
    rewrite Z.sub_diag. change (2 ^ 0) with 1. rewrite Z.mul_1_r, Hdiv.
    rewrite (int_of_float64_trunc _ _ t Ht) by lia.
    destruct (Z.eqb_spec t 0); [reflexivity|].
    assert (t = 1) by lia. subst t. reflexivity.
  - rewrite (vcpu_of_units m e (-53)) in * by lia.
    replace (e - -53) with (e + 53) in * by lia.
    change (2 ^ (-1 - -53)) with (2 ^ 52) in *. change (2 ^ (- -53)) with (2 ^ 53) in *.
    set (S := Z.pos m * 2 ^ (e + 53) + 2 ^ 52) in *.
    assert (HS : 0 <= S).
    { unfold S. assert (0 < 2 ^ (e + 53)) by (apply pow2_pos; lia). nia. }
    assert (H0 : 0 <= S / 2 ^ 53) by (apply Z.div_pos; [exact HS | reflexivity]).
    destruct (fadd_f0_5_large m e Hb Hlarge ltac:(fold S; lia)) as (Ht & _).
    fold S in Ht.
    rewrite (int_of_float64_trunc _ _ _ Ht) by lia.
    destruct (Z.eqb_spec (S / 2 ^ 53) 0) as [->|Hne]; [reflexivity|].
    rewrite int32_of_int_small by lia. lia.
Qed.

(** The memory size of a positive number whose quotient fits 32 bits. *)
Lemma memoryMB_of_positive (m : positive) (e : Z) :
  bounded gonum.prec gonum.emax m e = true ->
  reference.memoryMB_of (S754_finite false m e) < 2 ^ 31 ->
  gonum.int32_of_int
    (gonum.int_of_float64 unrepresentable
       (gonum.fdiv (gonum.fdiv (S754_finite false m e) gonum.f1024) gonum.f1024))
  = reference.memoryMB_of (S754_finite false m e).
Proof.
  intros Hb Hlt. rewrite memoryMB_of_shift in *.
  destruct (fdiv_fdiv_trunc m e Hb) as (Ht & _).
  assert (H0 : 0 <= Z.shiftl (Z.pos m) (e - 20)) by (apply Z.shiftl_nonneg; lia).
  rewrite (int_of_float64_trunc _ _ _ Ht) by lia.
  apply int32_of_int_small. lia.
Qed.

(** C4, as the code has it: the translation is a total function (it has
    no error result) and, for limits that are unset or well-formed
    [float64] values other than [+Inf], gives what the formulas give
    whenever that is below [2^31]: vcpu 1 for an unset or non-positive
    CPU limit and otherwise [floor (limit + 0.5)], raised to 1 when 0;
    memoryMB 128 for an unset or non-positive memory limit and otherwise
    [floor (limit / 1024 / 1024)].  Both surfaces build the same resource,
    [(0.4, 0)] gives [(1, 128)] and [(2.6, 300 * 1024 * 1024)] gives
    [(3, 300)]. *)
Theorem resource_translation_in_range (config : kubeapi.PodSandboxConfig) :
  let r := hyper.HyperRuntime.CreatePodSandbox_resource unrepresentable config in
  let expected :=
    reference.translate (reference.cpu_limit config) (reference.memory_limit config) in
  (reference.number_or_unset (reference.cpu_limit config) ->
   fst expected < 2 ^ 31 -> types.Vcpu r = fst expected)
  /\ (reference.number_or_unset (reference.memory_limit config) ->
      snd expected < 2 ^ 31 -> types.Memory r = snd expected)
  /\ manager.KubeHyperManager.CreatePodSandbox_resource unrepresentable config = r
  /\ hyper.HyperRuntime.CreatePodSandbox_resource unrepresentable
       (demo.limits (Some demo.f0_4) (Some gonum.f0))
     = {| types.Vcpu := 1; types.Memory := 128 |}
  /\ hyper.HyperRuntime.CreatePodSandbox_resource unrepresentable
       (demo.limits (Some demo.f2_6) (Some demo.f300MiB))
     = {| types.Vcpu := 3; types.Memory := 300 |}.
Proof.
  intros r expected. subst r expected.
  rewrite CreatePodSandbox_resource_fields. cbn [types.Vcpu types.Memory].
  unfold reference.translate. cbn [fst snd].
  split; [|split; [|split; [|split]]].
  - destruct (reference.cpu_limit config) as [limit|]; [|reflexivity].
    intros [Hv Hinf] Hlt.
    destruct (Qlt_le_dec 0 (reference.value limit)) as [Hpos|Hnp].
    + destruct (positive_number limit Hv Hpos) as (m & e & -> & Hb).
      change (gonum.fgt (S754_finite false m e) gonum.f0) with true. cbv iota.
      apply vcpu_of_positive; assumption.
    + rewrite fgt_not_positive; [reflexivity | | exact Hinf].
      apply Qle_not_lt, Hnp.
  - destruct (reference.memory_limit config) as [limit|]; [|reflexivity].
    intros [Hv Hinf] Hlt.
    destruct (Qlt_le_dec 0 (reference.value limit)) as [Hpos|Hnp].
    + destruct (positive_number limit Hv Hpos) as (m & e & -> & Hb).
      change (gonum.fgt (S754_finite false m e) gonum.f0) with true. cbv iota.
      apply memoryMB_of_positive; assumption.
    + rewrite fgt_not_positive; [reflexivity | | exact Hinf].
      apply Qle_not_lt, Hnp.
  - rewrite manager_CreatePodSandbox_resource. apply CreatePodSandbox_resource_fields.
  - vm_compute. reflexivity.
  - vm_compute. reflexivity.
Qed.
End Translation.

(** ** The claims on the small daemon and on concrete limits *)

(** The claim without its range: a CPU limit of [2^32] cores is sent as 0
    vCPU, where the formula gives 4294967296. *)
Lemma resource_translation_overflow :
  ~ (forall (unrepresentable : gonum.float64 -> Z) (config : kubeapi.PodSandboxConfig),
       types.Vcpu (hyper.HyperRuntime.CreatePodSandbox_resource unrepresentable config)
       = fst (reference.translate (reference.cpu_limit config)
                                  (reference.memory_limit config))).
Proof.
  intros H. specialize (H (fun _ => 0) (demo.limits (Some demo.f2p32) None)).
  vm_compute in H. discriminate.
Qed.

Lemma resource_translation_in_range_witness :
  types.Vcpu (hyper.HyperRuntime.CreatePodSandbox_resource
                (fun _ => 0) (demo.limits (Some demo.f2_6) (Some demo.f300MiB))) = 3
  /\ types.Memory (hyper.HyperRuntime.CreatePodSandbox_resource
                     (fun _ => 0) (demo.limits (Some demo.f2_6) (Some demo.f300MiB))) = 300.
Proof.
  pose proof (resource_translation_in_range
                (fun _ => 0) (demo.limits (Some demo.f2_6) (Some demo.f300MiB))) as H.
  cbv zeta in H. destruct H as (Hc & Hm & _).
  assert (Hn1 : reference.number_or_unset
                  (reference.cpu_limit (demo.limits (Some demo.f2_6) (Some demo.f300MiB))))
    by (split; [vm_compute; reflexivity | discriminate]).
  assert (Hn2 : reference.number_or_unset
                  (reference.memory_limit (demo.limits (Some demo.f2_6) (Some demo.f300MiB))))
    by (split; [vm_compute; reflexivity | vm_compute; discriminate]).
  split.
  - rewrite (Hc Hn1 ltac:(vm_compute; reflexivity)). vm_compute. reflexivity.
  - rewrite (Hm Hn2 ltac:(vm_compute; reflexivity)). vm_compute. reflexivity.
Defined.

(** The literals 0.4 and 2.6 are the correctly rounded quotients. *)
Example f0_4_is_4_over_10 :
  gonum.fdiv (gonum.float64_of_Z 4) (gonum.float64_of_Z 10) = demo.f0_4
  /\ gonum.fdiv (gonum.float64_of_Z 26) (gonum.float64_of_Z 10) = demo.f2_6.
Proof. split; vm_compute; reflexivity. Qed.

Lemma Qfloor_unit (y : Q) : (0 <= y)%Q -> (y < 1)%Q -> Qfloor y = 0.
Proof.
  intros H0 H1.
  assert (0 <= Qfloor y) by (rewrite <- (Qfloor_Z 0); apply Qfloor_resp_le; exact H0).
  assert (Qfloor y < 1); [|lia].
  rewrite Zlt_Qlt. apply Qle_lt_trans with y; [apply Qfloor_le | exact H1].
Qed.

(** C5 on the code: every positive memory limit below 1048576 bytes is
    sent as 0 megabytes, on both surfaces; the clamp that [vcpu] has is
    missing for [memory]. *)
Theorem memory_below_one_megabyte
        (unrepresentable : gonum.float64 -> Z) (config : kubeapi.PodSandboxConfig)
        (limit : spec_float) :
  reference.memory_limit config = Some limit ->
  valid_binary 53 1024 limit = true ->
  (0 < reference.value limit)%Q -> (reference.value limit < inject_Z 1048576)%Q ->
  types.Memory (hyper.HyperRuntime.CreatePodSandbox_resource unrepresentable config) = 0
  /\ types.Memory (manager.KubeHyperManager.CreatePodSandbox_resource unrepresentable config)
     = 0.
Proof.
  intros Hl Hv Hpos Hlt.
  assert (H : types.Memory
                (hyper.HyperRuntime.CreatePodSandbox_resource unrepresentable config) = 0);
    [|split; exact H].
  rewrite CreatePodSandbox_resource_fields. cbn [types.Memory]. rewrite Hl.
  destruct (positive_number limit Hv Hpos) as (m & e & -> & Hb).
  change (gonum.fgt (S754_finite false m e) gonum.f0) with true. cbv iota.
  assert (Hz : reference.memoryMB_of (S754_finite false m e) = 0).
  { unfold reference.memoryMB_of. apply Qfloor_unit.
    - apply Qle_shift_div_l; [reflexivity|]. apply Qle_shift_div_l; [reflexivity|].
      rewrite !Qmult_0_l. apply Qlt_le_weak, Hpos.
    - apply Qlt_shift_div_r; [reflexivity|]. apply Qlt_shift_div_r; [reflexivity|].
      rewrite Qmult_1_l. exact Hlt. }
  rewrite memoryMB_of_positive; [exact Hz | exact Hb | rewrite Hz; reflexivity].
Qed.

Lemma memory_below_one_megabyte_witness :
  types.Memory (hyper.HyperRuntime.CreatePodSandbox_resource
                  (fun _ => 0) (demo.limits None (Some demo.f1))) = 0
  /\ types.Memory (manager.KubeHyperManager.CreatePodSandbox_resource
                     (fun _ => 0) (demo.limits None (Some demo.f1))) = 0.
Proof.
  apply (memory_below_one_megabyte (fun _ => 0) (demo.limits None (Some demo.f1)) demo.f1);
    vm_compute; reflexivity.
Defined.

Lemma StartContainer_restarts_pod_witness :
  hyper.Client.StartContainer demo.client "c1" (demo.running ["pod1"])
  = (inr tt,
     {| provider.world := ["pod1"];
        provider.trace := [provider.EvContainerInfo "c1"; provider.EvPodStop "pod1";
                           provider.EvPodStart; provider.EvPodStartSend "pod1";
                           provider.EvPodStartRecv] |})
  /\ hyper.Client.StartContainer demo.client "c1" (demo.running [])
     = (inl "pod is not running",
        {| provider.world := [];
           provider.trace := [provider.EvContainerInfo "c1"; provider.EvPodStop "pod1"] |})
  /\ hyper.Client.StartContainer demo.client "c3" (demo.running ["pod1"])
     = (inl "no such container",
        {| provider.world := ["pod1"];
           provider.trace := [provider.EvContainerInfo "c3"] |}).
Proof.
  split; [|split].
  - rewrite (proj1 (proj2 (proj1 (proj2
             (StartContainer_restarts_pod demo.client "c1" (demo.running ["pod1"])))
             demo.info1 ["pod1"] eq_refl) (0, "") [] eq_refl)).
    vm_compute. reflexivity.
  - rewrite (proj1 (proj1 (proj2
             (StartContainer_restarts_pod demo.client "c1" (demo.running [])))
             demo.info1 [] eq_refl) "pod is not running" [] eq_refl).
    vm_compute. reflexivity.
  - rewrite (proj1 (StartContainer_restarts_pod demo.client "c3" (demo.running ["pod1"]))
             "no such container" ["pod1"] eq_refl).
    vm_compute. reflexivity.
Defined.

Lemma ListImages_filters_by_repoTag_witness :
  hyper.HyperRuntime.ListImages demo.client
    (Some {| kubeapi.FilterImage := Some {| kubeapi.Image := Some "nginx" |} |})
    (demo.running [])
  = (inr [reference.image_of demo.nginx],
     {| provider.world := []; provider.trace := [provider.EvImageList] |})
  /\ hyper.HyperRuntime.ListImages demo.client
       (Some {| kubeapi.FilterImage := Some {| kubeapi.Image := Some "localhost:5000/foo" |} |})
       (demo.running [])
     = (inr [], {| provider.world := []; provider.trace := [provider.EvImageList] |}).
Proof.
  split.
  - rewrite (proj1 (ListImages_filters_by_repoTag demo.client
             {| kubeapi.FilterImage := Some {| kubeapi.Image := Some "nginx" |} |}
             (demo.running []) [demo.nginx; demo.foo] [] eq_refl)).
    vm_compute. reflexivity.
  - rewrite (proj1 (ListImages_filters_by_repoTag demo.client
             {| kubeapi.FilterImage := Some {| kubeapi.Image := Some "localhost:5000/foo" |} |}
             (demo.running []) [demo.nginx; demo.foo] [] eq_refl)).
    vm_compute. reflexivity.
Defined.

(* ===================================================================== *)
(** * Part III: more of the adapter                                        *)
(* ===================================================================== *)

(** ** Label selectors and the labels of a sandbox *)

Lemma inMap_subseteq (sel labels : gmap string string) :
  hyper.inMap sel labels = true <-> sel ⊆ labels.
Proof.
  unfold hyper.inMap.
  apply (map_fold_weak_ind
           (fun (r : bool) (m : gmap string string) => r = true <-> m ⊆ labels)).
  - split; [intros _; apply map_empty_subseteq | reflexivity].
  - intros k v m r Hk IH. rewrite andb_true_iff, IH. split.
    + intros [Hm Hv]. destruct (labels !! k) as [value|] eqn:Hl; [|discriminate].
      apply String.eqb_eq in Hv. subst value.
      apply insert_subseteq_l; assumption.
    + intros Hs. split.
      * transitivity (<[k:=v]> m); [apply insert_subseteq; exact Hk | exact Hs].
      * assert (Hl : labels !! k = Some v).
        { eapply lookup_weaken; [apply lookup_insert_eq | exact Hs]. }
        rewrite Hl. apply String.eqb_refl.
Qed.

(** X1: [inMap in dest] answers whether [in] is a sub-map of [dest]:
    true exactly when every key of [in] is in [dest] with the same value.
    So the empty selector is in every map, a selector found in [dest] is
    found in every map that extends [dest], and the copy of package
    [manager] computes the same. *)
Theorem inMap_is_submap (sel labels : gmap string string) :
  (hyper.inMap sel labels = true
   <-> forall k v, sel !! k = Some v -> labels !! k = Some v)
  /\ hyper.inMap ∅ labels = true
  /\ (forall more : gmap string string,
        hyper.inMap sel labels = true -> labels ⊆ more -> hyper.inMap sel more = true)
  /\ manager.inMap sel labels = hyper.inMap sel labels.
Proof.
  split; [|split; [|split]].
  - rewrite inMap_subseteq. apply map_subseteq_spec.
  - apply inMap_subseteq, map_empty_subseteq.
  - intros more H Hm. apply inMap_subseteq. apply inMap_subseteq in H.
    transitivity labels; assumption.
  - reflexivity.
Qed.

Lemma labels_fold_union (annotations labels : gmap string string) :
  map_fold (fun k v (acc : gmap string string) => <[k:=v]> acc) labels annotations
  = annotations ∪ labels.
Proof.
  apply (map_fold_weak_ind
           (fun (r m : gmap string string) => r = m ∪ labels)).
  - symmetry. apply (left_id_L ∅ (∪)).
  - intros k v m r Hk ->. apply insert_union_l.
Qed.

(** X2: the pod specification that [CreatePodSandbox] sends.  Its
    labels are the configuration's labels overlaid with its annotations:
    on a key that both carry the annotation wins, and every annotation is
    a label of the pod.  Name and host name default to the empty string,
    the DNS servers to none, and both surfaces build the same
    specification. *)
Theorem CreatePodSandbox_spec_fields
        (unrepresentable : gonum.float64 -> Z) (config : kubeapi.PodSandboxConfig) :
  let spec := hyper.HyperRuntime.CreatePodSandbox_spec unrepresentable config in
  (forall k,
     types.Labels spec !! k
     = match kubeapi.Annotations config !! k with
       | Some v => Some v
       | None => default ∅ (kubeapi.Labels config) !! k
       end)
  /\ kubeapi.Annotations config ⊆ types.Labels spec
  /\ types.Id spec = default "" (kubeapi.Name config)
  /\ types.Hostname spec = default "" (kubeapi.Hostname config)
  /\ types.Dns spec = default [] (kubeapi.Servers <$> kubeapi.DnsOptions config)
  /\ types.Resource spec
     = hyper.HyperRuntime.CreatePodSandbox_resource unrepresentable config
  /\ manager.KubeHyperManager.CreatePodSandbox_spec unrepresentable config = spec.
Proof.
  intros spec. subst spec.
  unfold hyper.HyperRuntime.CreatePodSandbox_spec. cbn [types.Labels types.Id types.Hostname
    types.Dns types.Resource].
  rewrite labels_fold_union.
  split; [|split; [|split; [|split; [|split; [|split]]]]].
  - intros k. rewrite lookup_union.
    destruct (kubeapi.Annotations config !! k), (default ∅ (kubeapi.Labels config) !! k);
      reflexivity.
  - apply map_union_subseteq_l.
  - reflexivity.
  - reflexivity.
  - destruct (kubeapi.DnsOptions config); reflexivity.
  - reflexivity.
  - unfold manager.KubeHyperManager.CreatePodSandbox_spec.
    rewrite labels_fold_union, manager_CreatePodSandbox_resource. reflexivity.
Qed.

(** ** Listing containers *)

Lemma skip_listed_selects (filter : option kubeapi.ContainerFilter)
      (c : types.ContainerListResult) :
  hyper.HyperRuntime.ListContainers_skip_listed filter c (selects.name_of c)
  = negb (selects.listed filter c).
Proof.
  destruct filter as [[[n|] [i|] s [p|] sel]|]; cbn;
    repeat match goal with |- context [String.eqb ?a ?b] => destruct (String.eqb a b) end;
    reflexivity.
Qed.

Lemma selects_labels_inMap (want : option (gmap string string)) (got : gmap string string) :
  selects.labels want got
  = if want is Some sel then hyper.inMap sel got else true.
Proof.
  destruct want as [sel|]; [|reflexivity]. cbn.
  destruct (hyper.inMap sel got) eqn:H.
  - apply bool_decide_eq_true, inMap_subseteq, H.
  - apply bool_decide_eq_false. intros Hs. apply inMap_subseteq in Hs. congruence.
Qed.

Lemma skip_info_selects (filter : option kubeapi.ContainerFilter)
      (info : types.ContainerInfo) :
  hyper.HyperRuntime.ListContainers_skip_info filter info
    (hyper.toKubeContainerState (types.Phase (types.InfoStatus info)))
  = negb (selects.described filter info).
Proof.
  destruct filter as [[n i s p sel]|]; [|reflexivity].
  unfold selects.described. rewrite selects_labels_inMap. cbn.
  destruct s as [s|], sel as [sel|]; cbn;
    repeat match goal with
           | |- context [kubeapi.ContainerState_eqb ?a ?b] =>
               destruct (kubeapi.ContainerState_eqb a b)
           | |- context [hyper.inMap ?a ?b] => destruct (hyper.inMap a b)
           end; reflexivity.
Qed.

Section ListingMore.
Context {World Error Stream : Type}.
Variable client : provider.PublicAPIClient World Error Stream.

Lemma extend_nil (st : provider.State World) :
  provider.extend st (provider.world st) [] = st.
Proof. destruct st as [w t]. unfold provider.extend. cbn. rewrite app_nil_r. reflexivity. Qed.

(** One round of the loop, with the tests read as selections. *)
Lemma ListContainers_loop_cons f c rest acc st :
  hyper.HyperRuntime.ListContainers_loop client f (c :: rest) acc st
  = if selects.listed f c then
      match provider.ContainerInfo client (types.ContainerID c) (provider.world st) with
      | (inl e, w) =>
          (inl e, provider.extend st w [provider.EvContainerInfo (types.ContainerID c)])
      | (inr info, w) =>
          hyper.HyperRuntime.ListContainers_loop client f rest
            (if selects.described f info
             then acc ++ [selects.container c info] else acc)
            (provider.extend st w [provider.EvContainerInfo (types.ContainerID c)])
      end
    else hyper.HyperRuntime.ListContainers_loop client f rest acc st.
Proof.
  cbn [hyper.HyperRuntime.ListContainers_loop].
  change (gostrings.TrimPrefix (types.ContainerName c) "/") with (selects.name_of c).
  rewrite skip_listed_selects.
  destruct (selects.listed f c); cbn [negb]; [|reflexivity].
  unfold provider.bind. rewrite run_GetContainerInfo.
  destruct (provider.ContainerInfo client (types.ContainerID c) (provider.world st))
    as [[e|info] w]; cbn [fst snd]; [reflexivity|].
  rewrite skip_info_selects.
  destruct (selects.described f info); reflexivity.
Qed.

(** The lookups made, whatever the daemon answers. *)
Lemma ListContainers_loop_lookups f l acc st :
  exists n w,
    snd (hyper.HyperRuntime.ListContainers_loop client f l acc st)
    = provider.extend st w
        (map (fun c => provider.EvContainerInfo (types.ContainerID c))
             (take n (filter (fun c => selects.listed f c) l)))
    /\ (n <= length (filter (fun c => selects.listed f c) l))%nat
    /\ (forall cs, fst (hyper.HyperRuntime.ListContainers_loop client f l acc st)
                   = inr cs ->
        n = length (filter (fun c => selects.listed f c) l)
        /\ (length cs <= length acc + n)%nat).
Proof.
  revert acc st. induction l as [|c rest IH]; intros acc st.
  - exists 0%nat, (provider.world st). cbn. rewrite extend_nil.
    split; [reflexivity|]. split; [lia|]. intros cs [= <-]. lia.
  - rewrite ListContainers_loop_cons.
    destruct (selects.listed f c) eqn:Hc.
    + rewrite filter_cons_True by (rewrite Hc; exact I).
      destruct (provider.ContainerInfo client (types.ContainerID c) (provider.world st))
        as [[e|info] w].
      * exists 1%nat, w. cbn. split; [reflexivity|]. split; [lia|]. intros cs [=].
      * match goal with |- context [hyper.HyperRuntime.ListContainers_loop _ _ _ ?a ?s] =>
          destruct (IH a s) as (n & w' & Hs & Hn & Hr) end.
        exists (S n), w'. rewrite Hs, extend_extend. cbn.
        split; [reflexivity|]. split; [lia|].
        intros cs Hcs. destruct (Hr cs Hcs) as [-> Hlen]. split; [reflexivity|].
        destruct (selects.described f info);
          rewrite ?length_app in Hlen; cbn in Hlen; lia.
    + rewrite filter_cons_False by (rewrite Hc; exact id).
      apply IH.
Qed.

(** What is reported was listed and selected, whatever the daemon
    answers. *)
Lemma ListContainers_loop_sound f l acc st cs st' :
  hyper.HyperRuntime.ListContainers_loop client f l acc st = (inr cs, st') ->
  exists new,
    cs = acc ++ new
    /\ Forall (fun k => exists c info,
                 c ∈ l /\ selects.listed f c = true
                 /\ selects.described f info = true
                 /\ k = selects.container c info) new
    /\ map kubeapi.ContainerId new `sublist_of` map types.ContainerID l.
Proof.
  revert acc st. induction l as [|c rest IH]; intros acc st.
  - cbn. intros [= <- <-]. exists []. rewrite app_nil_r.
    split; [reflexivity|]. split; [constructor | reflexivity].
  - rewrite ListContainers_loop_cons.
    destruct (selects.listed f c) eqn:Hc.
    + destruct (provider.ContainerInfo client (types.ContainerID c) (provider.world st))
        as [[e|info] w]; [discriminate|].
      intros H. apply IH in H. destruct H as (new & -> & Hall & Hsub).
      assert (Hall' : Forall (fun k => exists c0 info0,
                 c0 ∈ c :: rest /\ selects.listed f c0 = true
                 /\ selects.described f info0 = true
                 /\ k = selects.container c0 info0) new).
      { eapply Forall_impl; [exact Hall|]. intros k (c0 & i0 & Hin & H1 & H2 & H3).
        exists c0, i0. split; [right; exact Hin | auto]. }
      destruct (selects.described f info) eqn:Hd.
      * exists (selects.container c info :: new).
        split; [rewrite <- app_assoc; reflexivity|]. split.
        -- constructor; [|exact Hall'].
           exists c, info. split; [left | auto].
        -- cbn. apply sublist_skip. exact Hsub.
      * exists new. split; [reflexivity|]. split; [exact Hall'|].
        cbn. apply sublist_cons. exact Hsub.
    + intros H. apply IH in H. destruct H as (new & -> & Hall & Hsub).
      exists new. split; [reflexivity|]. split.
      * eapply Forall_impl; [exact Hall|]. intros k (c0 & i0 & Hin & H1 & H2 & H3).
        exists c0, i0. split; [right; exact Hin | auto].
      * cbn. apply sublist_cons. exact Hsub.
Qed.

End ListingMore.

Section ListingSurfaces.
Context {World Error Stream : Type}.
Variable client : provider.PublicAPIClient World Error Stream.

Lemma run_GetContainerList aux (st : provider.State World) :
  hyper.Client.GetContainerList client aux st
  = (fst (provider.ContainerList client aux (provider.world st)),
     provider.extend st (snd (provider.ContainerList client aux (provider.world st)))
                     [provider.EvContainerList aux]).
Proof.
  unfold hyper.Client.GetContainerList. rewrite run_rpc. reflexivity.
Qed.

Lemma hyper_ListContainers_listed f st l w0 :
  provider.ContainerList client false (provider.world st) = (inr l, w0) ->
  hyper.HyperRuntime.ListContainers client f st
  = hyper.HyperRuntime.ListContainers_loop client f l []
      (provider.extend st w0 [provider.EvContainerList false]).
Proof.
  intros Hl. unfold hyper.HyperRuntime.ListContainers, provider.bind.
  rewrite run_GetContainerList, Hl. reflexivity.
Qed.

(** The server surface runs the same loop and wraps the list. *)
Lemma manager_ListContainers f st :
  manager.KubeHyperManager.ListContainers client {| kubeapi.ListContainersFilter := f |} st
  = (match fst (hyper.HyperRuntime.ListContainers client f st) with
     | inl e => inl e
     | inr cs => inr {| kubeapi.Containers := cs |}
     end,
     snd (hyper.HyperRuntime.ListContainers client f st)).
Proof.
  unfold manager.KubeHyperManager.ListContainers, hyper.HyperRuntime.ListContainers,
    provider.bind.
  cbn [kubeapi.ListContainersFilter].
  destruct (hyper.Client.GetContainerList client false st) as [[e|l] st1]; [reflexivity|].
  rewrite manager_ListContainers_loop.
  destruct (hyper.HyperRuntime.ListContainers_loop client f l [] st1) as [[e|cs] st2];
    reflexivity.
Qed.

Lemma issued_manager_ListContainers f st :
  provider.issued
    (manager.KubeHyperManager.ListContainers client {| kubeapi.ListContainersFilter := f |}) st
  = provider.issued (hyper.HyperRuntime.ListContainers client f) st.
Proof. unfold provider.issued. rewrite manager_ListContainers. reflexivity. Qed.

End ListingSurfaces.

(** X3: once the daemon has listed its containers, [ListContainers]
    looks up only containers that pass the name, id and sandbox tests of
    the filter, each at most once and in the order of the listing; the
    lookups made are a prefix of those containers, the whole of them when
    a list is returned, and no more containers are returned than were
    looked up.  The server surface issues the same calls. *)
Theorem ListContainers_lookups_follow_listing
        {World Error Stream : Type} (client : provider.PublicAPIClient World Error Stream)
        (f : option kubeapi.ContainerFilter) (st : provider.State World)
        (l : list types.ContainerListResult) (w0 : World) :
  provider.ContainerList client false (provider.world st) = (inr l, w0) ->
  let wanted := filter (fun c => selects.listed f c) l in
  exists n,
    provider.issued (hyper.HyperRuntime.ListContainers client f) st
    = provider.EvContainerList false
      :: map (fun c => provider.EvContainerInfo (types.ContainerID c)) (take n wanted)
    /\ (n <= length wanted)%nat
    /\ (forall cs, fst (hyper.HyperRuntime.ListContainers client f st) = inr cs ->
        n = length wanted /\ (length cs <= n)%nat)
    /\ provider.issued
         (manager.KubeHyperManager.ListContainers
            client {| kubeapi.ListContainersFilter := f |}) st
       = provider.issued (hyper.HyperRuntime.ListContainers client f) st.
Proof.
  intros Hl wanted.
  destruct (ListContainers_loop_lookups client f l []
              (provider.extend st w0 [provider.EvContainerList false]))
    as (n & w & Hs & Hn & Hr).
  exists n. rewrite issued_manager_ListContainers.
  split; [|split; [exact Hn|split; [|reflexivity]]].
  - apply issued_extend with
      (r := fst (hyper.HyperRuntime.ListContainers client f st)) (w := w).
    rewrite (surjective_pairing (hyper.HyperRuntime.ListContainers client f st)).
    f_equal. rewrite (hyper_ListContainers_listed client f st l w0 Hl), Hs.
    apply extend_extend.
  - intros cs Hcs. rewrite (hyper_ListContainers_listed client f st l w0 Hl) in Hcs.
    apply Hr in Hcs. cbn in Hcs. exact Hcs.
Qed.

Lemma ListContainers_lookups_follow_listing_witness :
  exists n,
    provider.issued (hyper.HyperRuntime.ListContainers demo.client None) (demo.running [])
    = provider.EvContainerList false
      :: map (fun c => provider.EvContainerInfo (types.ContainerID c))
             (take n (filter (fun c => selects.listed None c) demo.listing))
    /\ (n <= length (filter (fun c => selects.listed None c) demo.listing))%nat
    /\ (forall cs,
          fst (hyper.HyperRuntime.ListContainers demo.client None (demo.running []))
          = inr cs ->
          n = length (filter (fun c => selects.listed None c) demo.listing)
          /\ (length cs <= n)%nat)
    /\ provider.issued
         (manager.KubeHyperManager.ListContainers
            demo.client {| kubeapi.ListContainersFilter := None |}) (demo.running [])
       = provider.issued (hyper.HyperRuntime.ListContainers demo.client None)
                         (demo.running []).
Proof.
  apply (ListContainers_lookups_follow_listing
           demo.client None (demo.running []) demo.listing []).
  reflexivity.
Defined.

(** X4: whatever the daemon answers, every container that
    [ListContainers] returns under a filter has the name, the id and the
    state that the filter sets and carries every label of the filter's
    selector; the ids returned are ids of the listing, in its order.  The
    server surface returns the same list. *)
Theorem ListContainers_reports_selected
        {World Error Stream : Type} (client : provider.PublicAPIClient World Error Stream)
        (f : kubeapi.ContainerFilter) (st st' : provider.State World)
        (cs : list kubeapi.Container) :
  hyper.HyperRuntime.ListContainers client (Some f) st = (inr cs, st') ->
  Forall (fun k =>
            (forall n, kubeapi.FilterName f = Some n -> kubeapi.ContainerName k = n)
            /\ (forall i, kubeapi.FilterId f = Some i -> kubeapi.ContainerId k = i)
            /\ (forall s, kubeapi.FilterState f = Some s -> kubeapi.ContainerState_ k = s)
            /\ (forall sel, kubeapi.FilterLabelSelector f = Some sel ->
                forall key v, sel !! key = Some v ->
                              kubeapi.ContainerLabels k !! key = Some v)) cs
  /\ exists l w0,
      provider.ContainerList client false (provider.world st) = (inr l, w0)
      /\ map kubeapi.ContainerId cs `sublist_of` map types.ContainerID l
      /\ manager.KubeHyperManager.ListContainers
           client {| kubeapi.ListContainersFilter := Some f |} st
         = (inr {| kubeapi.Containers := cs |}, st').
Proof.
  intros Hrun.
  destruct (provider.ContainerList client false (provider.world st)) as [[e|l] w0] eqn:Hl.
  { unfold hyper.HyperRuntime.ListContainers, provider.bind in Hrun.
    rewrite run_GetContainerList, Hl in Hrun. discriminate. }
  pose proof Hrun as Hm.
  rewrite (hyper_ListContainers_listed client (Some f) st l w0 Hl) in Hrun.
  apply ListContainers_loop_sound in Hrun. destruct Hrun as (new & -> & Hall & Hsub).
  cbn [app] in *. split.
  - eapply Forall_impl; [exact Hall|].
    intros k (c & info & _ & Hc & Hd & ->).
    unfold selects.listed in Hc. unfold selects.described in Hd.
    apply andb_true_iff in Hc. destruct Hc as [Hc Hp].
    apply andb_true_iff in Hc. destruct Hc as [Hn Hi].
    apply andb_true_iff in Hd. destruct Hd as [Hs Hsel].
    cbn [selects.container kubeapi.ContainerName kubeapi.ContainerId
         kubeapi.ContainerState_ kubeapi.ContainerLabels].
    split; [|split; [|split]].
    + intros n Hf. rewrite Hf in Hn. apply String.eqb_eq, Hn.
    + intros i Hf. rewrite Hf in Hi. apply String.eqb_eq, Hi.
    + intros s Hf. rewrite Hf in Hs. cbn in Hs.
      destruct (hyper.toKubeContainerState (types.Phase (types.InfoStatus info))), s;
        (reflexivity || discriminate).
    + intros sel Hf key v Hk. rewrite Hf in Hsel. cbn in Hsel.
      apply bool_decide_eq_true in Hsel.
      eapply lookup_weaken; eassumption.
  - exists l, w0. split; [reflexivity|]. split; [exact Hsub|].
    rewrite manager_ListContainers, Hm. reflexivity.
Qed.

(** *** Replies with sub-messages left out *)

Section ListingNilable.
Context {World Error Stream : Type}.
Variable client : provider.PublicAPIClient World Error Stream.
Variable reply : string -> World -> (Error + option nilable.ContainerInfo) * World.

Lemma run_nilable_GetContainerInfo c (st : provider.State World) :
  nilable.GetContainerInfo reply c st
  = (fst (reply c (provider.world st)),
     provider.extend st (snd (reply c (provider.world st))) [provider.EvContainerInfo c]).
Proof. unfold nilable.GetContainerInfo. rewrite run_rpc. reflexivity. Qed.

Lemma nilable_loop_skip f c rest acc (st : provider.State World) :
  selects.listed f c = false ->
  nilable.ListContainers_loop reply f (c :: rest) acc st
  = nilable.ListContainers_loop reply f rest acc st.
Proof.
  intros Hc. cbn [nilable.ListContainers_loop].
  change (gostrings.TrimPrefix (types.ContainerName c) "/") with (selects.name_of c).
  rewrite skip_listed_selects, Hc. reflexivity.
Qed.

(** One round of the loop on a reply with both sub-messages. *)
Lemma nilable_loop_present f c rest acc (st : provider.State World) info w :
  selects.listed f c = true ->
  reply (types.ContainerID c) (provider.world st) = (inr (Some (nilable.present info)), w) ->
  nilable.ListContainers_loop reply f (c :: rest) acc st
  = nilable.ListContainers_loop reply f rest
      (if selects.described f info then acc ++ [selects.container c info] else acc)
      (provider.extend st w [provider.EvContainerInfo (types.ContainerID c)]).
Proof.
  intros Hc Hr. cbn [nilable.ListContainers_loop].
  change (gostrings.TrimPrefix (types.ContainerName c) "/") with (selects.name_of c).
  rewrite skip_listed_selects, Hc. cbn [negb].
  unfold provider.bind. rewrite run_nilable_GetContainerInfo, Hr. cbn [fst snd].
  cbn [nilable.present nilable.Status nilable.Container].
  destruct f as [[n i s p sel]|]; [|reflexivity].
  unfold selects.described. rewrite selects_labels_inMap.
  unfold selects.field.
  cbn [kubeapi.FilterState kubeapi.FilterLabelSelector
       types.InfoStatus types.InfoContainer].
  destruct s as [s|], sel as [sel|]; cbn [negb andb];
    repeat match goal with
           | |- context [kubeapi.ContainerState_eqb ?a ?b] =>
               destruct (kubeapi.ContainerState_eqb a b); cbn [negb andb]
           | |- context [hyper.inMap ?a ?b] => destruct (hyper.inMap a b); cbn [negb andb]
           end; reflexivity.
Qed.

(** One round of the loop on a reply that makes it dereference nil. *)
Lemma nilable_loop_panic f c rest acc (st : provider.State World) r w :
  selects.listed f c = true ->
  reply (types.ContainerID c) (provider.world st) = (inr r, w) ->
  selects.nil_dereferenced f r = true ->
  nilable.ListContainers_loop reply f (c :: rest) acc st
  = (inr None, provider.extend st w [provider.EvContainerInfo (types.ContainerID c)]).
Proof.
  intros Hc Hr Hn. cbn [nilable.ListContainers_loop].
  change (gostrings.TrimPrefix (types.ContainerName c) "/") with (selects.name_of c).
  rewrite skip_listed_selects, Hc. cbn [negb].
  unfold provider.bind. rewrite run_nilable_GetContainerInfo, Hr. cbn [fst snd].
  destruct r as [[container pod [status|]]|]; [|reflexivity|reflexivity].
  cbn [nilable.Status nilable.Container selects.nil_dereferenced] in *.
  apply andb_true_iff in Hn. destruct Hn as [Hs Hk].
  destruct container as [container|]; [discriminate|].
  unfold selects.state in Hs.
  destruct f as [[n i s p sel]|]; [|reflexivity].
  cbn [kubeapi.FilterState selects.field] in *.
  destruct s as [s|]; [|reflexivity]. unfold selects.field in Hs. rewrite Hs. reflexivity.
Qed.

(** One round of the loop on a failed lookup. *)
Lemma nilable_loop_error f c rest acc (st : provider.State World) e w :
  selects.listed f c = true ->
  reply (types.ContainerID c) (provider.world st) = (inl e, w) ->
  nilable.ListContainers_loop reply f (c :: rest) acc st
  = (inl e, provider.extend st w [provider.EvContainerInfo (types.ContainerID c)]).
Proof.
  intros Hc Hr. cbn [nilable.ListContainers_loop].
  change (gostrings.TrimPrefix (types.ContainerName c) "/") with (selects.name_of c).
  rewrite skip_listed_selects, Hc. cbn [negb].
  unfold provider.bind. rewrite run_nilable_GetContainerInfo, Hr. reflexivity.
Qed.

(** All replies complete. *)
Lemma nilable_loop_complete (reply_of : string -> option nilable.ContainerInfo)
      (info_of : string -> types.ContainerInfo) f l acc (st : provider.State World) :
  (forall c w, c ∈ l ->
     reply (types.ContainerID c) w = (inr (reply_of (types.ContainerID c)), w)) ->
  (forall c, c ∈ filter (fun c => selects.listed f c) l ->
     reply_of (types.ContainerID c) = Some (nilable.present (info_of (types.ContainerID c)))) ->
  nilable.ListContainers_loop reply f l acc st
  = (inr (Some (acc ++ map (fun c => selects.container c (info_of (types.ContainerID c)))
                           (filter (fun c => selects.listed f c
                                             && selects.described f
                                                  (info_of (types.ContainerID c))) l))),
     provider.extend st (provider.world st)
       (map (fun c => provider.EvContainerInfo (types.ContainerID c))
            (filter (fun c => selects.listed f c) l))).
Proof.
  revert acc st. induction l as [|c rest IH]; intros acc st Hs Hp.
  - cbn. rewrite app_nil_r, extend_nil. reflexivity.
  - assert (Hrest : forall c0 w, c0 ∈ rest ->
              reply (types.ContainerID c0) w = (inr (reply_of (types.ContainerID c0)), w))
      by (intros c0 w Hin; apply Hs; right; exact Hin).
    destruct (selects.listed f c) eqn:Hc.
    + rewrite (filter_cons_True (fun c => selects.listed f c)) in * by (rewrite Hc; exact I).
      rewrite (nilable_loop_present f c rest acc st (info_of (types.ContainerID c))
                 (provider.world st) Hc).
      2: { rewrite (Hs c (provider.world st)) by left. rewrite (Hp c) by left. reflexivity. }
      rewrite IH; [|exact Hrest|intros c0 Hin; apply Hp; right; exact Hin].
      cbn [provider.world provider.extend].
      destruct (selects.described f (info_of (types.ContainerID c))) eqn:Hd.
      * rewrite filter_cons_True by (rewrite Hc, Hd; exact I).
        cbn [map]. rewrite <- app_assoc. cbn [app].
        unfold provider.extend. cbn. rewrite <- app_assoc. reflexivity.
      * rewrite filter_cons_False by (rewrite Hc, Hd; exact id).
        unfold provider.extend. cbn. rewrite <- app_assoc. reflexivity.
    + rewrite (filter_cons_False (fun c => selects.listed f c)) in *
        by (rewrite Hc; exact id).
      rewrite filter_cons_False by (rewrite Hc; exact id).
      rewrite nilable_loop_skip by exact Hc.
      apply IH; [exact Hrest | exact Hp].
Qed.

(** The first reply that makes the loop dereference nil. *)
Lemma nilable_loop_first_nil (reply_of : string -> option nilable.ContainerInfo)
      (info_of : string -> types.ContainerInfo) f l pre c post acc
      (st : provider.State World) :
  (forall c w, c ∈ l ->
     reply (types.ContainerID c) w = (inr (reply_of (types.ContainerID c)), w)) ->
  filter (fun c => selects.listed f c) l = pre ++ c :: post ->
  (forall c', c' ∈ pre ->
     reply_of (types.ContainerID c')
     = Some (nilable.present (info_of (types.ContainerID c')))) ->
  selects.nil_dereferenced f (reply_of (types.ContainerID c)) = true ->
  nilable.ListContainers_loop reply f l acc st
  = (inr None,
     provider.extend st (provider.world st)
       (map (fun c => provider.EvContainerInfo (types.ContainerID c)) (pre ++ [c]))).
Proof.
  revert pre acc st. induction l as [|c0 rest IH]; intros pre acc st Hs Hf Hp Hn.
  - rewrite filter_nil in Hf. destruct pre; discriminate.
  - assert (Hrest : forall c1 w, c1 ∈ rest ->
              reply (types.ContainerID c1) w = (inr (reply_of (types.ContainerID c1)), w))
      by (intros c1 w Hin; apply Hs; right; exact Hin).
    destruct (selects.listed f c0) eqn:Hc.
    + rewrite filter_cons_True in Hf by (rewrite Hc; exact I).
      destruct pre as [|p pre].
      * cbn [app] in Hf. injection Hf as <- Hpost.
        rewrite (nilable_loop_panic f c0 rest acc st (reply_of (types.ContainerID c0))
                   (provider.world st) Hc); [reflexivity | | exact Hn].
        apply Hs. left.
      * cbn [app] in Hf. injection Hf as <- Hf.
        rewrite (nilable_loop_present f c0 rest acc st (info_of (types.ContainerID c0))
                   (provider.world st) Hc).
        2: { rewrite (Hs c0 (provider.world st)) by left. rewrite (Hp c0) by left.
             reflexivity. }
        rewrite (IH pre); [|exact Hrest|exact Hf|intros c' Hin; apply Hp; right; exact Hin
                            |exact Hn].
        cbn [provider.world provider.extend]. unfold provider.extend. cbn.
        rewrite <- app_assoc. reflexivity.
    + rewrite filter_cons_False in Hf by (rewrite Hc; exact id).
      rewrite nilable_loop_skip by exact Hc.
      apply IH; assumption.
Qed.

End ListingNilable.

(** On replies that leave nothing out, the loop over nilable replies
    computes what the loop over complete infos computes. *)
Lemma nilable_loop_complete_replies
      {World Error Stream : Type} (client : provider.PublicAPIClient World Error Stream)
      f l acc (st : provider.State World) :
  nilable.ListContainers_loop (nilable.complete_replies client) f l acc st
  = (match fst (hyper.HyperRuntime.ListContainers_loop client f l acc st) with
     | inl e => inl e
     | inr cs => inr (Some cs)
     end,
     snd (hyper.HyperRuntime.ListContainers_loop client f l acc st)).
Proof.
  revert acc st. induction l as [|c rest IH]; intros acc st; [reflexivity|].
  rewrite ListContainers_loop_cons.
  destruct (selects.listed f c) eqn:Hc.
  - destruct (provider.ContainerInfo client (types.ContainerID c) (provider.world st))
      as [[e|info] w] eqn:Hi.
    + rewrite (nilable_loop_error _ f c rest acc st e w Hc); [reflexivity|].
      unfold nilable.complete_replies. rewrite Hi. reflexivity.
    + rewrite (nilable_loop_present _ f c rest acc st info w Hc); [apply IH|].
      unfold nilable.complete_replies. rewrite Hi. reflexivity.
  - rewrite nilable_loop_skip by exact Hc. apply IH.
Qed.

Lemma nilable_ListContainers_listed
      {World Error Stream : Type} (client : provider.PublicAPIClient World Error Stream)
      reply f (st : provider.State World) l w0 :
  provider.ContainerList client false (provider.world st) = (inr l, w0) ->
  nilable.ListContainers client reply f st
  = nilable.ListContainers_loop reply f l []
      (provider.extend st w0 [provider.EvContainerList false]).
Proof.
  intros Hl. unfold nilable.ListContainers, provider.bind.
  rewrite run_GetContainerList, Hl. reflexivity.
Qed.

(** X5: [ListContainers] on a daemon that lists its containers, answers
    every lookup of a listed container with the same reply and is not
    changed by it.  When the reply for every container that passes the
    name, id and sandbox tests carries its [Status] and its [Container],
    the result is exactly the listed containers that the filter selects,
    in the order of the listing and named without their leading slash,
    after one lookup for each of those containers.  When one of them has
    a reply that is nil, or without [Status], or without [Container]
    while its state passes the filter, and the replies before it are
    complete, the call panics on a nil pointer right after that lookup:
    no list and no error is returned and no later container is looked
    up. *)
Theorem ListContainers_on_steady_daemon
        {World Error Stream : Type} (client : provider.PublicAPIClient World Error Stream)
        (reply : string -> World -> (Error + option nilable.ContainerInfo) * World)
        (reply_of : string -> option nilable.ContainerInfo)
        (info_of : string -> types.ContainerInfo)
        (f : option kubeapi.ContainerFilter) (st : provider.State World)
        (l : list types.ContainerListResult) (w0 : World) :
  provider.ContainerList client false (provider.world st) = (inr l, w0) ->
  (forall c w, c ∈ l ->
     reply (types.ContainerID c) w = (inr (reply_of (types.ContainerID c)), w)) ->
  let looked_up := filter (fun c => selects.listed f c) l in
  let after cs :=
    provider.extend st w0
      (provider.EvContainerList false
       :: map (fun c => provider.EvContainerInfo (types.ContainerID c)) cs) in
  ((forall c, c ∈ looked_up ->
      reply_of (types.ContainerID c)
      = Some (nilable.present (info_of (types.ContainerID c)))) ->
   nilable.ListContainers client reply f st
   = (inr (Some (map (fun c => selects.container c (info_of (types.ContainerID c)))
                     (filter (fun c => selects.listed f c
                                       && selects.described f
                                            (info_of (types.ContainerID c))) l))),
      after looked_up))
  /\ (forall pre c post,
        looked_up = pre ++ c :: post ->
        (forall c', c' ∈ pre ->
           reply_of (types.ContainerID c')
           = Some (nilable.present (info_of (types.ContainerID c')))) ->
        selects.nil_dereferenced f (reply_of (types.ContainerID c)) = true ->
        nilable.ListContainers client reply f st = (inr None, after (pre ++ [c]))).
Proof.
  intros Hl Hs looked_up after. subst looked_up after. cbv beta.
  rewrite (nilable_ListContainers_listed client reply f st l w0 Hl).
  split.
  - intros Hp.
    rewrite (nilable_loop_complete reply reply_of info_of f l [] _ Hs Hp).
    cbn [app provider.world provider.extend]. unfold provider.extend.
    cbn [provider.world provider.trace]. rewrite <- app_assoc. reflexivity.
  - intros pre c post Hf Hp Hn.
    rewrite (nilable_loop_first_nil reply reply_of info_of f l pre c post [] _ Hs Hf Hp Hn).
    cbn [provider.world provider.extend]. unfold provider.extend.
    cbn [provider.world provider.trace]. rewrite <- app_assoc. reflexivity.
Qed.

Lemma ListContainers_on_steady_daemon_witness :
  nilable.ListContainers demo.steady
    (fun c w => (inr (Some (nilable.present (demo.info_of c))), w))
    (Some {| kubeapi.FilterName := None; kubeapi.FilterId := None;
             kubeapi.FilterState := Some kubeapi.ContainerState_CREATED;
             kubeapi.FilterPodSandboxId := Some "pod1";
             kubeapi.FilterLabelSelector := Some {[ "app" := "db" ]} |})
    (demo.running [])
  = (inr (Some [selects.container (demo.listed "c2" "/db") demo.info2]),
     {| provider.world := [];
        provider.trace := [provider.EvContainerList false; provider.EvContainerInfo "c1";
                           provider.EvContainerInfo "c2"; provider.EvContainerInfo "c3";
                           provider.EvContainerInfo "c4"; provider.EvContainerInfo "c5"] |})
  /\ nilable.ListContainers demo.steady (fun c w => (inr (demo.reply_of c), w)) None
       (demo.running [])
     = (inr None,
        {| provider.world := [];
           provider.trace := [provider.EvContainerList false; provider.EvContainerInfo "c1";
                              provider.EvContainerInfo "c2"] |}).
Proof.
  split.
  - rewrite (proj1 (ListContainers_on_steady_daemon demo.steady
                      (fun c w => (inr (Some (nilable.present (demo.info_of c))), w))
                      (fun c => Some (nilable.present (demo.info_of c))) demo.info_of _
                      (demo.running []) demo.listing [] eq_refl (fun c w _ => eq_refl))
                   (fun c _ => eq_refl)).
    vm_compute. reflexivity.
  - rewrite (proj2 (ListContainers_on_steady_daemon demo.steady
                      (fun c w => (inr (demo.reply_of c), w)) demo.reply_of (fun _ => demo.info1) None
                      (demo.running []) demo.listing [] eq_refl (fun c w _ => eq_refl))
                   [demo.listed "c1" "/web"] (demo.listed "c2" "/db")
                   [demo.listed "c3" "/cache"; demo.listed "c4" "/log";
                    demo.listed "c5" "/proxy"]).
    + reflexivity.
    + vm_compute. reflexivity.
    + intros c' Hin. apply list_elem_of_singleton in Hin. subst c'. reflexivity.
    + reflexivity.
Defined.

Lemma ListContainers_reports_selected_witness :
  Forall (fun k => kubeapi.ContainerState_ k = kubeapi.ContainerState_CREATED
                   /\ kubeapi.ContainerLabels k !! "app" = Some "db")
         [selects.container (demo.listed "c2" "/db") demo.info2].
Proof.
  assert (Hrun :
    hyper.HyperRuntime.ListContainers demo.steady
      (Some {| kubeapi.FilterName := None; kubeapi.FilterId := None;
               kubeapi.FilterState := Some kubeapi.ContainerState_CREATED;
               kubeapi.FilterPodSandboxId := Some "pod1";
               kubeapi.FilterLabelSelector := Some {[ "app" := "db" ]} |})
      (demo.running [])
    = (inr [selects.container (demo.listed "c2" "/db") demo.info2],
       {| provider.world := [];
          provider.trace := [provider.EvContainerList false; provider.EvContainerInfo "c1";
                             provider.EvContainerInfo "c2"; provider.EvContainerInfo "c3";
                             provider.EvContainerInfo "c4"; provider.EvContainerInfo "c5"] |}))
    by (vm_compute; reflexivity).
  destruct (ListContainers_reports_selected demo.steady _ _ _ _ Hrun) as [H _].
  eapply Forall_impl; [exact H|]. cbn beta. intros k (_ & _ & Hs & Hsel).
  split; [apply Hs; reflexivity | eapply Hsel; reflexivity].
Defined.

(** ** Creating a sandbox *)
Section Sandbox.
Context {World Error Stream : Type}.
Variable client : provider.PublicAPIClient World Error Stream.
Variable unrepresentable : gonum.float64 -> Z.

Lemma run_CreatePod spec (st : provider.State World) :
  hyper.Client.CreatePod client spec st
  = (fst (provider.PodCreate client spec (provider.world st)),
     provider.extend st (snd (provider.PodCreate client spec (provider.world st)))
                     [provider.EvPodCreate spec]).
Proof. unfold hyper.Client.CreatePod. rewrite run_rpc. reflexivity. Qed.

Lemma manager_CreatePodSandbox_spec config :
  manager.KubeHyperManager.CreatePodSandbox_spec unrepresentable config
  = hyper.HyperRuntime.CreatePodSandbox_spec unrepresentable config.
Proof.
  unfold manager.KubeHyperManager.CreatePodSandbox_spec,
    hyper.HyperRuntime.CreatePodSandbox_spec.
  rewrite manager_CreatePodSandbox_resource. reflexivity.
Qed.

Lemma hyper_CreatePodSandbox_run config st :
  hyper.HyperRuntime.CreatePodSandbox client unrepresentable config st
  = let spec := hyper.HyperRuntime.CreatePodSandbox_spec unrepresentable config in
    match provider.PodCreate client spec (provider.world st) with
    | (inl e, w) => (inl e, provider.extend st w [provider.EvPodCreate spec])
    | (inr id, w) =>
        let started :=
          hyper.Client.StartPod client id
            (provider.extend st w [provider.EvPodCreate spec]) in
        (match fst started with inl e => inl e | inr _ => inr id end, snd started)
    end.
Proof.
  unfold hyper.HyperRuntime.CreatePodSandbox, provider.bind. cbv zeta.
  rewrite run_CreatePod.
  destruct (provider.PodCreate client _ (provider.world st)) as [[e|id] w]; cbn [fst snd];
    [reflexivity|].
  destruct (hyper.Client.StartPod client id _) as [[e|[]] st2]; reflexivity.
Qed.

Lemma manager_CreatePodSandbox_run config st :
  manager.KubeHyperManager.CreatePodSandbox client unrepresentable
    {| kubeapi.Config := config |} st
  = (match fst (hyper.HyperRuntime.CreatePodSandbox client unrepresentable config st) with
     | inl e => inl e
     | inr id => inr {| kubeapi.PodSandboxId := Some id |}
     end,
     snd (hyper.HyperRuntime.CreatePodSandbox client unrepresentable config st)).
Proof.
  unfold manager.KubeHyperManager.CreatePodSandbox, hyper.HyperRuntime.CreatePodSandbox,
    provider.bind. cbn [kubeapi.Config]. cbv zeta.
  rewrite manager_CreatePodSandbox_spec.
  destruct (hyper.Client.CreatePod client _ st) as [[e|id] st1]; [reflexivity|].
  destruct (hyper.Client.StartPod client id st1) as [[e|[]] st2]; reflexivity.
Qed.

(** Every outcome of [StartPod], call by call. *)
Lemma run_StartPod (p : string) (st : provider.State World) :
  hyper.Client.StartPod client p st
  = match provider.PodStart client (provider.world st) with
    | (inl e, w1) => (inl e, provider.extend st w1 [provider.EvPodStart])
    | (inr stream, w1) =>
        match provider.PodStart_Send client stream p w1 with
        | (inl e, w2) =>
            (inl e, provider.extend st w2 [provider.EvPodStart; provider.EvPodStartSend p])
        | (inr _, w2) =>
            match provider.PodStart_Recv client stream w2 with
            | (inl e, w3) =>
                (inl e, provider.extend st w3 [provider.EvPodStart; provider.EvPodStartSend p;
                                               provider.EvPodStartRecv])
            | (inr _, w3) =>
                (inr tt, provider.extend st w3 [provider.EvPodStart; provider.EvPodStartSend p;
                                                provider.EvPodStartRecv])
            end
        end
    end.
Proof.
  unfold hyper.Client.StartPod, provider.bind, provider.ret, provider.rpc, provider.extend.
  cbn [provider.world provider.trace].
  destruct (provider.PodStart client (provider.world st)) as [[e|stream] w1];
    [reflexivity|].
  cbn [provider.world provider.trace].
  destruct (provider.PodStart_Send client stream p w1) as [[e|sent] w2];
    [rewrite <- app_assoc; reflexivity|].
  cbn [provider.world provider.trace].
  destruct (provider.PodStart_Recv client stream w2) as [[e|answer] w3];
    rewrite <- !app_assoc; try destruct answer; reflexivity.
Qed.

(** X6: [CreatePodSandbox] creates, then starts, and its outcome is that
    of the first call that fails.  A failed creation is returned after
    that single call.  After a successful creation the start stream is
    opened and the message sent on it carries the id the daemon gave (not
    the name in the configuration).  A failure to open the stream, to
    send, or to receive the answer is returned as the error, after
    exactly the calls up to the failing one: the pod stays created and
    its id is not reported.  The id is returned when the answer has been
    received.  The server surface wraps the same outcome. *)
Theorem CreatePodSandbox_creates_then_starts
        (config : kubeapi.PodSandboxConfig) (st : provider.State World) :
  let spec := hyper.HyperRuntime.CreatePodSandbox_spec unrepresentable config in
  let run := hyper.HyperRuntime.CreatePodSandbox client unrepresentable config st in
  let created := provider.EvPodCreate spec in
  (forall e w, provider.PodCreate client spec (provider.world st) = (inl e, w) ->
     run = (inl e, provider.extend st w [created]))
  /\ (forall id w1, provider.PodCreate client spec (provider.world st) = (inr id, w1) ->
      (forall e w2, provider.PodStart client w1 = (inl e, w2) ->
         run = (inl e, provider.extend st w2 [created; provider.EvPodStart]))
      /\ (forall stream w2, provider.PodStart client w1 = (inr stream, w2) ->
          (forall e w3, provider.PodStart_Send client stream id w2 = (inl e, w3) ->
             run = (inl e, provider.extend st w3
                             [created; provider.EvPodStart; provider.EvPodStartSend id]))
          /\ (forall sent w3, provider.PodStart_Send client stream id w2 = (inr sent, w3) ->
              (forall e w4, provider.PodStart_Recv client stream w3 = (inl e, w4) ->
                 run = (inl e, provider.extend st w4
                                 [created; provider.EvPodStart; provider.EvPodStartSend id;
                                  provider.EvPodStartRecv]))
              /\ (forall answer w4,
                    provider.PodStart_Recv client stream w3 = (inr answer, w4) ->
                    run = (inr id, provider.extend st w4
                                     [created; provider.EvPodStart;
                                      provider.EvPodStartSend id;
                                      provider.EvPodStartRecv])))))
  /\ manager.KubeHyperManager.CreatePodSandbox client unrepresentable
       {| kubeapi.Config := config |} st
     = (match fst run with
        | inl e => inl e
        | inr id => inr {| kubeapi.PodSandboxId := Some id |}
        end, snd run).
Proof.
  intros spec run created. subst run created.
  pose proof (hyper_CreatePodSandbox_run config st) as Hrun.
  cbv zeta in Hrun. fold spec in Hrun.
  split; [|split].
  - intros e w H. rewrite Hrun, H. reflexivity.
  - intros id w1 H. rewrite H in Hrun. rewrite run_StartPod in Hrun.
    cbn [provider.world provider.extend] in Hrun.
    split.
    + intros e w2 H2. rewrite H2 in Hrun. rewrite Hrun.
      cbn [fst snd]. rewrite extend_extend. reflexivity.
    + intros stream w2 H2. rewrite H2 in Hrun. split.
      * intros e w3 H3. rewrite H3 in Hrun. rewrite Hrun.
        cbn [fst snd]. rewrite extend_extend. reflexivity.
      * intros sent w3 H3. rewrite H3 in Hrun. split.
        -- intros e w4 H4. rewrite H4 in Hrun. rewrite Hrun.
           cbn [fst snd]. rewrite extend_extend. reflexivity.
        -- intros answer w4 H4. rewrite H4 in Hrun. rewrite Hrun.
           cbn [fst snd]. rewrite extend_extend. reflexivity.
  - apply manager_CreatePodSandbox_run.
Qed.

End Sandbox.

Lemma CreatePodSandbox_creates_then_starts_witness :
  hyper.HyperRuntime.CreatePodSandbox demo.steady (fun _ => 0) (demo.limits None None)
    (demo.running [])
  = (inr "pod-sandbox",
     {| provider.world := ["pod-sandbox"];
        provider.trace :=
          [provider.EvPodCreate
             (hyper.HyperRuntime.CreatePodSandbox_spec (fun _ => 0) (demo.limits None None));
           provider.EvPodStart; provider.EvPodStartSend "pod-sandbox";
           provider.EvPodStartRecv] |})
  /\ hyper.HyperRuntime.CreatePodSandbox demo.deaf (fun _ => 0) (demo.limits None None)
       (demo.running [])
     = (inl "no answer",
        {| provider.world := ["pod-sandbox"];
           provider.trace :=
             [provider.EvPodCreate
                (hyper.HyperRuntime.CreatePodSandbox_spec (fun _ => 0)
                   (demo.limits None None));
              provider.EvPodStart; provider.EvPodStartSend "pod-sandbox";
              provider.EvPodStartRecv] |}).
Proof.
  assert (Hsteady :
    provider.PodCreate demo.steady
      (hyper.HyperRuntime.CreatePodSandbox_spec (fun _ => 0) (demo.limits None None))
      (provider.world (demo.running []))
    = (inr "pod-sandbox", [])) by (vm_compute; reflexivity).
  assert (Hdeaf :
    provider.PodCreate demo.deaf
      (hyper.HyperRuntime.CreatePodSandbox_spec (fun _ => 0) (demo.limits None None))
      (provider.world (demo.running []))
    = (inr "pod-sandbox", [])) by (vm_compute; reflexivity).
  split.
  - rewrite (proj2 (proj2 (proj2 (proj1 (proj2
               (CreatePodSandbox_creates_then_starts demo.steady (fun _ => 0)
                  (demo.limits None None) (demo.running [])))
               "pod-sandbox" [] Hsteady)
               tt [] eq_refl) tt ["pod-sandbox"] eq_refl) tt ["pod-sandbox"] eq_refl).
    reflexivity.
  - rewrite (proj1 (proj2 (proj2 (proj1 (proj2
               (CreatePodSandbox_creates_then_starts demo.deaf (fun _ => 0)
                  (demo.limits None None) (demo.running [])))
               "pod-sandbox" [] Hdeaf)
               tt [] eq_refl) tt ["pod-sandbox"] eq_refl) "no answer" ["pod-sandbox"]
               eq_refl).
    reflexivity.
Defined.

(** ** Listing images without a filter *)

Lemma hyper_ListImages_loop_all images results :
  hyper.HyperRuntime.ListImages_loop None images results
  = results ++ map reference.image_of images.
Proof.
  revert results. induction images as [|img rest IH]; intros results.
  - cbn. rewrite app_nil_r. reflexivity.
  - cbn [hyper.HyperRuntime.ListImages_loop]. cbv iota. rewrite IH.
    rewrite <- app_assoc. reflexivity.
Qed.

Lemma run_GetImageList {World Error Stream : Type}
      (client : provider.PublicAPIClient World Error Stream) (st : provider.State World) :
  hyper.Client.GetImageList client st
  = (fst (provider.ImageList client (provider.world st)),
     provider.extend st (snd (provider.ImageList client (provider.world st)))
                     [provider.EvImageList]).
Proof. unfold hyper.Client.GetImageList. rewrite run_rpc. reflexivity. Qed.

(** X7: [ListImages] makes one call.  When it fails, its error is the
    result, with any filter.  When it succeeds, a nil filter returns
    every image in the daemon's order, a filter returns a sub-list of
    that, and each size is the daemon's [VirtualSize] converted to
    [uint64]: the same number when it is not negative, [2^64] more when
    it is. *)
Theorem ListImages_all_or_error
        {World Error Stream : Type} (client : provider.PublicAPIClient World Error Stream)
        (st : provider.State World) :
  (forall e w f,
     provider.ImageList client (provider.world st) = (inl e, w) ->
     hyper.HyperRuntime.ListImages client f st
     = (inl e, provider.extend st w [provider.EvImageList])
     /\ manager.KubeHyperManager.ListImages client {| kubeapi.ListImagesFilter := f |} st
        = (inl e, provider.extend st w [provider.EvImageList]))
  /\ (forall images w,
        provider.ImageList client (provider.world st) = (inr images, w) ->
        hyper.HyperRuntime.ListImages client None st
        = (inr (map reference.image_of images), provider.extend st w [provider.EvImageList])
        /\ manager.KubeHyperManager.ListImages client {| kubeapi.ListImagesFilter := None |} st
           = (inr {| kubeapi.Images := map reference.image_of images |},
              provider.extend st w [provider.EvImageList])
        /\ (forall f, exists kept,
              hyper.HyperRuntime.ListImages client (Some f) st
              = (inr kept, provider.extend st w [provider.EvImageList])
              /\ kept `sublist_of` map reference.image_of images)
        /\ Forall2 (fun img reported =>
                      0 <= kubeapi.ImageSize_ reported < 2 ^ 64
                      /\ (0 <= types.VirtualSize img < 2 ^ 63 ->
                          kubeapi.ImageSize_ reported = types.VirtualSize img)
                      /\ (- 2 ^ 63 <= types.VirtualSize img < 0 ->
                          kubeapi.ImageSize_ reported = 2 ^ 64 + types.VirtualSize img))
                   images (map reference.image_of images)).
Proof.
  split.
  - intros e w f H.
    unfold hyper.HyperRuntime.ListImages, manager.KubeHyperManager.ListImages, provider.bind.
    rewrite run_GetImageList, H. split; reflexivity.
  - intros images w H.
    unfold hyper.HyperRuntime.ListImages, manager.KubeHyperManager.ListImages, provider.bind.
    rewrite run_GetImageList, H. cbn [fst snd kubeapi.ListImagesFilter]. unfold provider.ret.
    pose proof (hyper_ListImages_loop_all images []) as Hall. cbn [app] in Hall.
    pose proof (manager_ListImages_loop None images []) as Hm. rewrite Hall in Hm.
    split; [rewrite Hall; reflexivity|]. split; [rewrite Hm; reflexivity|]. split.
    + intros f. eexists. split.
      * rewrite hyper_ListImages_loop_filter. cbn [app]. reflexivity.
      * apply fmap_sublist, sublist_filter.
    + clear. induction images as [|img rest IH]; constructor; [|exact IH].
      cbn [reference.image_of kubeapi.ImageSize_].
      split; [apply Z.mod_pos_bound; reflexivity|]. split.
      * intros Hr. apply Z.mod_small. lia.
      * intros Hr. symmetry. apply (Z.mod_unique _ _ (-1)); lia.
Qed.

Lemma ListImages_all_or_error_witness :
  hyper.HyperRuntime.ListImages demo.steady None (demo.running [])
  = (inl "daemon is busy",
     {| provider.world := []; provider.trace := [provider.EvImageList] |})
  /\ hyper.HyperRuntime.ListImages demo.client None (demo.running [])
     = (inr [reference.image_of demo.nginx; reference.image_of demo.foo],
        {| provider.world := []; provider.trace := [provider.EvImageList] |}).
Proof.
  split.
  - rewrite (proj1 (proj1 (ListImages_all_or_error demo.steady (demo.running []))
                      "daemon is busy" [] None eq_refl)).
    reflexivity.
  - rewrite (proj1 (proj2 (ListImages_all_or_error demo.client (demo.running []))
                      [demo.nginx; demo.foo] [] eq_refl)).
    reflexivity.
Defined.

(** ** Listing sandboxes *)

Lemma ListPodSandbox_skip_selects f (p : types.PodListResult) :
  hyper.HyperRuntime.ListPodSandbox_skip f p (hyper.toPodSandboxState (types.PodListStatus p))
  = negb (selects.pod f p).
Proof.
  destruct f as [[n i s sel]|]; [|reflexivity].
  unfold selects.pod, hyper.HyperRuntime.ListPodSandbox_skip.
  rewrite selects_labels_inMap. unfold selects.field.
  cbn [kubeapi.PodFilterName kubeapi.PodFilterId kubeapi.PodFilterState
       kubeapi.PodFilterLabelSelector].
  destruct n as [n|], i as [i|], s as [s|], sel as [sel|]; cbn;
    repeat match goal with
           | |- context [String.eqb ?a ?b] => destruct (String.eqb a b); cbn
           | |- context [kubeapi.PodSandBoxState_eqb ?a ?b] =>
               destruct (kubeapi.PodSandBoxState_eqb a b); cbn
           | |- context [hyper.inMap ?a ?b] => destruct (hyper.inMap a b); cbn
           end; reflexivity.
Qed.

Lemma hyper_ListPodSandbox_loop f pods items :
  hyper.HyperRuntime.ListPodSandbox_loop f pods items
  = items ++ map selects.item (filter (fun p => selects.pod f p) pods).
Proof.
  revert items. induction pods as [|p rest IH]; intros items.
  - cbn. rewrite app_nil_r. reflexivity.
  - cbn [hyper.HyperRuntime.ListPodSandbox_loop]. cbv zeta.
    rewrite ListPodSandbox_skip_selects.
    destruct (selects.pod f p) eqn:Hp; cbn [negb].
    + rewrite filter_cons_True by (rewrite Hp; exact I).
      rewrite IH, <- app_assoc. reflexivity.
    + rewrite filter_cons_False by (rewrite Hp; exact id). apply IH.
Qed.

Lemma manager_ListPodSandbox_loop f pods items :
  manager.KubeHyperManager.ListPodSandbox_loop f pods items
  = hyper.HyperRuntime.ListPodSandbox_loop f pods items.
Proof.
  revert items. induction pods as [|p rest IH]; intros items; [reflexivity|].
  cbn [manager.KubeHyperManager.ListPodSandbox_loop hyper.HyperRuntime.ListPodSandbox_loop].
  cbv zeta. rewrite !IH. reflexivity.
Qed.

(** X8: the loop of [ListPodSandbox] keeps, in order, exactly the pods
    that pass every field the filter sets (name, id, state, label
    selector); a nil filter keeps them all, a filter a sub-list of them,
    and every item returned has the fields the filter asks for.  Both
    surfaces run the same loop. *)
Theorem ListPodSandbox_selects_pods
        (f : option kubeapi.PodSandboxFilter) (pods : list types.PodListResult) :
  let items := hyper.HyperRuntime.ListPodSandbox_loop f pods [] in
  items = map selects.item (filter (fun p => selects.pod f p) pods)
  /\ manager.KubeHyperManager.ListPodSandbox_loop f pods [] = items
  /\ hyper.HyperRuntime.ListPodSandbox_loop None pods [] = map selects.item pods
  /\ items `sublist_of` hyper.HyperRuntime.ListPodSandbox_loop None pods []
  /\ Forall (fun it =>
               forall flt, f = Some flt ->
                 (forall n, kubeapi.PodFilterName flt = Some n -> kubeapi.ItemName it = n)
                 /\ (forall i, kubeapi.PodFilterId flt = Some i -> kubeapi.ItemId it = i)
                 /\ (forall s, kubeapi.PodFilterState flt = Some s ->
                     kubeapi.ItemState it = s)
                 /\ (forall sel, kubeapi.PodFilterLabelSelector flt = Some sel ->
                     forall k v, sel !! k = Some v -> kubeapi.ItemLabels it !! k = Some v))
            items.
Proof.
  intros items. subst items.
  assert (Hnone : hyper.HyperRuntime.ListPodSandbox_loop None pods [] = map selects.item pods).
  { rewrite hyper_ListPodSandbox_loop. cbn [app]. f_equal.
    clear. induction pods as [|p l IH]; [reflexivity|].
    rewrite filter_cons_True by exact I. rewrite IH. reflexivity. }
  assert (Hh : hyper.HyperRuntime.ListPodSandbox_loop f pods []
               = map selects.item (filter (fun p => selects.pod f p) pods))
    by apply hyper_ListPodSandbox_loop.
  assert (Hm : manager.KubeHyperManager.ListPodSandbox_loop f pods []
               = map selects.item (filter (fun p => selects.pod f p) pods))
    by (etransitivity; [apply manager_ListPodSandbox_loop | exact Hh]).
  split; [exact Hh|].
  split; [transitivity (map selects.item (filter (fun p => selects.pod f p) pods));
          [exact Hm | symmetry; exact Hh]|].
  split; [exact Hnone|].
  replace (hyper.HyperRuntime.ListPodSandbox_loop None pods []) with (map selects.item pods)
    by (symmetry; exact Hnone).
  replace (hyper.HyperRuntime.ListPodSandbox_loop f pods [])
    with (map selects.item (filter (fun p => selects.pod f p) pods))
    by (symmetry; exact Hh).
  clear Hh Hm Hnone. split.
  - apply fmap_sublist, sublist_filter.
  - apply Forall_fmap, Forall_forall. intros p Hp flt ->.
    apply list_elem_of_filter in Hp. destruct Hp as [Hp _].
    apply Is_true_true in Hp. unfold selects.pod in Hp.
    apply andb_true_iff in Hp. destruct Hp as [Hp Hsel].
    apply andb_true_iff in Hp. destruct Hp as [Hp Hs].
    apply andb_true_iff in Hp. destruct Hp as [Hn Hi].
    cbn [selects.item kubeapi.ItemName kubeapi.ItemId kubeapi.ItemState kubeapi.ItemLabels].
    split; [|split; [|split]].
    + intros n Hf. rewrite Hf in Hn. apply String.eqb_eq, Hn.
    + intros i Hf. rewrite Hf in Hi. apply String.eqb_eq, Hi.
    + intros s Hf. rewrite Hf in Hs. cbn in Hs.
      destruct (hyper.toPodSandboxState (types.PodListStatus p)), s;
        (reflexivity || discriminate).
    + intros sel Hf k v Hk. rewrite Hf in Hsel. cbn in Hsel.
      apply bool_decide_eq_true in Hsel. eapply lookup_weaken; eassumption.
Qed.

(** ** The mounts of a container status *)

Lemma host_path_cons (name : string) (v : types.PodVolume) (vols : list types.PodVolume) :
  selects.host_path name (v :: vols)
  = match selects.host_path name vols with
    | Some s => Some s
    | None => if String.eqb (types.VolumeName v) name then Some (types.Source v) else None
    end.
Proof.
  unfold selects.host_path. rewrite filter_cons.
  destruct (decide (types.VolumeName v = name)) as [He|Hne].
  - rewrite last_cons. apply String.eqb_eq in He. rewrite He.
    destruct (last _); reflexivity.
  - apply String.eqb_neq in Hne. rewrite Hne. destruct (last _); reflexivity.
Qed.

Lemma alter_at_length {A} (g : A -> A) (pre : list A) (x : A) (post : list A) :
  alter g (length pre) (pre ++ x :: post) = pre ++ g x :: post.
Proof. induction pre as [|a pre IH]; [reflexivity|]. cbn. f_equal. exact IH. Qed.

Lemma insert_at_length {A} (y : A) (pre : list A) (x : A) (post : list A) :
  <[length pre := y]> (pre ++ x :: post) = pre ++ y :: post.
Proof. induction pre as [|a pre IH]; [reflexivity|]. cbn. f_equal. exact IH. Qed.

Lemma ContainerStatus_hostPath_spec (mnt : types.VolumeMount) (vols : list types.PodVolume)
      (pre post : list (option kubeapi.Mount)) (m : kubeapi.Mount) :
  hyper.HyperRuntime.ContainerStatus_hostPath (length pre) mnt vols (pre ++ Some m :: post)
  = pre ++ Some {| kubeapi.MountName := kubeapi.MountName m;
                   kubeapi.MountContainerPath := kubeapi.MountContainerPath m;
                   kubeapi.MountReadonly := kubeapi.MountReadonly m;
                   kubeapi.MountHostPath :=
                     match selects.host_path (types.VolumeMountName mnt) vols with
                     | Some s => Some s
                     | None => kubeapi.MountHostPath m
                     end |} :: post.
Proof.
  revert m. induction vols as [|v rest IH]; intros m.
  - cbn. destruct m; reflexivity.
  - cbn [hyper.HyperRuntime.ContainerStatus_hostPath]. rewrite host_path_cons.
    destruct (String.eqb (types.VolumeName v) (types.VolumeMountName mnt)).
    + rewrite alter_at_length. cbn [fmap option_fmap option_map].
      rewrite IH. cbn [kubeapi.set_HostPath kubeapi.MountName kubeapi.MountContainerPath
                       kubeapi.MountReadonly kubeapi.MountHostPath].
      destruct (selects.host_path (types.VolumeMountName mnt) rest); reflexivity.
    + rewrite IH.
      destruct (selects.host_path (types.VolumeMountName mnt) rest); reflexivity.
Qed.

Lemma ContainerStatus_mounts_loop_spec (vols : list types.PodVolume)
      (vms : list types.VolumeMount) (pre post : list (option kubeapi.Mount)) :
  length post = length vms ->
  hyper.HyperRuntime.ContainerStatus_mounts_loop vols (length pre) vms (pre ++ post)
  = pre ++ map (fun mnt => Some (selects.mount vols mnt)) vms.
Proof.
  revert pre post. induction vms as [|mnt rest IH]; intros pre post Hlen.
  - destruct post; [reflexivity | discriminate].
  - destruct post as [|x post]; [discriminate|].
    cbn [hyper.HyperRuntime.ContainerStatus_mounts_loop]. cbv zeta.
    rewrite insert_at_length.
    rewrite ContainerStatus_hostPath_spec.
    cbn [kubeapi.MountName kubeapi.MountContainerPath kubeapi.MountReadonly
         kubeapi.MountHostPath].
    replace (S (length pre)) with (length (pre ++ [Some (selects.mount vols mnt)]))
      by (rewrite length_app; cbn; lia).
    replace (pre ++ Some _ :: post) with ((pre ++ [Some (selects.mount vols mnt)]) ++ post).
    + rewrite IH by (cbn in Hlen; lia). rewrite <- app_assoc. reflexivity.
    + rewrite <- app_assoc. cbn [app]. unfold selects.mount.
      destruct (selects.host_path (types.VolumeMountName mnt) vols); reflexivity.
Qed.

Lemma host_path_None (name : string) (vols : list types.PodVolume) :
  selects.host_path name vols = None
  <-> Forall (fun v => types.VolumeName v <> name) vols.
Proof.
  induction vols as [|v rest IH].
  - split; [constructor | reflexivity].
  - rewrite host_path_cons, Forall_cons, <- IH.
    destruct (selects.host_path name rest) as [s|].
    + split; [discriminate | intros [_ H]; exact H].
    + destruct (String.eqb_spec (types.VolumeName v) name) as [He|Hne].
      * split; [discriminate | intros [H _]; contradiction].
      * split; [intros _; split; [exact Hne | reflexivity] | reflexivity].
Qed.

Lemma host_path_last (name : string) (before after : list types.PodVolume)
      (v : types.PodVolume) :
  types.VolumeName v = name ->
  Forall (fun v' => types.VolumeName v' <> name) after ->
  selects.host_path name (before ++ v :: after) = Some (types.Source v).
Proof.
  intros Hv Hafter. induction before as [|b before IH].
  - cbn [app]. rewrite host_path_cons.
    apply host_path_None in Hafter. rewrite Hafter.
    apply String.eqb_eq in Hv. rewrite Hv. reflexivity.
  - cbn [app]. rewrite host_path_cons, IH. reflexivity.
Qed.

(** X9: the mounts of [ContainerStatus].  Every slot of the slice is
    filled, in the order of the container's volume mounts; a mount has no
    host path exactly when no volume of the pod has its name, and
    otherwise the source of the last volume of that name. *)
Theorem ContainerStatus_mounts_last_volume
        (volumeMounts : list types.VolumeMount) (volumes : list types.PodVolume) :
  let mounts := hyper.HyperRuntime.ContainerStatus_mounts volumeMounts volumes in
  mounts = map (fun mnt => Some (selects.mount volumes mnt)) volumeMounts
  /\ length mounts = length volumeMounts
  /\ (forall mnt,
      (kubeapi.MountHostPath (selects.mount volumes mnt) = None
       <-> Forall (fun v => types.VolumeName v <> types.VolumeMountName mnt) volumes)
      /\ (forall before v after,
            volumes = before ++ v :: after ->
            types.VolumeName v = types.VolumeMountName mnt ->
            Forall (fun v' => types.VolumeName v' <> types.VolumeMountName mnt) after ->
            kubeapi.MountHostPath (selects.mount volumes mnt) = Some (types.Source v))).
Proof.
  intros mounts.
  assert (H : mounts = map (fun mnt => Some (selects.mount volumes mnt)) volumeMounts).
  { subst mounts. unfold hyper.HyperRuntime.ContainerStatus_mounts. cbv zeta.
    apply (ContainerStatus_mounts_loop_spec volumes volumeMounts []).
    apply length_replicate. }
  split; [exact H|]. split; [rewrite H; apply length_map|].
  intros mnt. cbn [selects.mount kubeapi.MountHostPath]. split.
  - apply host_path_None.
  - intros before v after -> Hv Hafter. apply host_path_last; assumption.
Qed.

(** ** The two halves of an image reference *)

Lemma cut_last_None (c : ascii) (s : string) :
  reference.cut_last c s = None -> reference.occurs c s = false.
Proof.
  induction s as [|a s IH]; [reflexivity|]. cbn.
  destruct (reference.cut_last c s) as [[l r]|]; [discriminate|].
  destruct (Ascii.eqb a c); [discriminate|]. intros _. apply IH. reflexivity.
Qed.

Lemma cut_last_Some (c : ascii) (s l r : string) :
  reference.cut_last c s = Some (l, r) ->
  s = String.append l (String c r) /\ reference.occurs c r = false.
Proof.
  revert l. induction s as [|a s IH]; intros l; [discriminate|]. cbn.
  destruct (reference.cut_last c s) as [[l' r']|] eqn:Hc.
  - intros [= <- <-]. destruct (IH l' eq_refl) as [-> Hr].
    split; [reflexivity | exact Hr].
  - destruct (Ascii.eqb_spec a c) as [->|]; [|discriminate].
    intros [= <- <-]. split; [reflexivity | apply cut_last_None, Hc].
Qed.

Lemma join_two (c : ascii) (p0 p1 : string) (ps : list string) :
  exists rest,
    reference.join c (p0 :: p1 :: ps)
    = String.append p0 (String c (String.append p1 rest))
    /\ (rest = EmptyString \/ exists r, rest = String c r).
Proof.
  destruct ps as [|p2 ps].
  - exists EmptyString. split; [|left; reflexivity].
    cbn. rewrite sapp_nil_r. reflexivity.
  - exists (String c (reference.join c (p2 :: ps))). split; [reflexivity|].
    right. eexists. reflexivity.
Qed.

(** X10: what [parseRepositoryTag] returns are two pieces of its
    argument.  Without an ['@'], the tag contains neither ['/'] nor [':']
    and the result is either the argument with ["latest"] or a cut of the
    argument at a [':'].  With an ['@'], neither piece contains one and
    the argument starts with [repo@tag], followed by nothing or by a
    further ['@']. *)
Theorem parseRepositoryTag_cuts_reference (ref : string) :
  exists repo tag,
    hyper.parseRepositoryTag ref = Some (repo, tag)
    /\ manager.parseRepositoryTag ref = Some (repo, tag)
    /\ (gostrings.Contains ref "@" = false ->
        gostrings.Contains tag "/" = false
        /\ gostrings.Contains tag ":" = false
        /\ ((repo = ref /\ tag = "latest")
            \/ ref = String.append repo (String ":" tag)))
    /\ (gostrings.Contains ref "@" = true ->
        gostrings.Contains repo "@" = false
        /\ gostrings.Contains tag "@" = false
        /\ exists rest,
            ref = String.append repo (String "@" (String.append tag rest))
            /\ (rest = EmptyString \/ exists r, rest = String "@" r)).
Proof.
  exists (fst (reference.parseRepositoryTag ref)), (snd (reference.parseRepositoryTag ref)).
  rewrite <- surjective_pairing.
  split; [apply hyper_parseRepositoryTag_reference|].
  split; [rewrite manager_parseRepositoryTag; apply hyper_parseRepositoryTag_reference|].
  rewrite !Contains_occurs. unfold reference.parseRepositoryTag.
  destruct (reference.occurs "@" ref) eqn:Hat.
  2: { split; [|discriminate]. intros _.
       destruct (reference.cut_last ":" ref) as [[l r]|] eqn:Hc.
       + destruct (cut_last_Some _ _ _ _ Hc) as [Href Hr].
         destruct (reference.occurs "/" r) eqn:Hs; cbn [fst snd].
         * split; [reflexivity|]. split; [reflexivity|]. left. split; reflexivity.
         * split; [exact Hs|]. split; [exact Hr|]. right. exact Href.
       + cbn [fst snd]. split; [reflexivity|]. split; [reflexivity|].
         left. split; reflexivity. }
  split; [discriminate|]. intros _.
  - rewrite split_all_Split.
    destruct (Split_two "@" ref Hat) as (p0 & p1 & ps & Hsplit).
    pose proof (Split_parts "@" ref) as Hparts.
    pose proof (Split_join "@" ref) as Hjoin.
    rewrite Hsplit in *. rewrite sapp_nil_l. cbn [fst snd nth].
    apply Forall_cons in Hparts. destruct Hparts as [H0 Hparts].
    apply Forall_cons in Hparts. destruct Hparts as [H1 _].
    split; [exact H0|]. split; [exact H1|].
    destruct (join_two "@" p0 p1 ps) as (rest & Hj & Hrest).
    exists rest. split; [rewrite <- Hjoin; exact Hj | exact Hrest].
Qed.

(** ** The size of a sandbox, within the range of [int32] *)

Section Sizes.
Variable unrepresentable : gonum.float64 -> Z.

Lemma vcpu_of_bounds (limit : spec_float) :
  (reference.value limit < inject_Z 2147483647)%Q ->
  1 <= reference.vcpu_of limit < 2 ^ 31.
Proof.
  intros Hlt. unfold reference.vcpu_of.
  assert (Qfloor (reference.value limit + (1 # 2)) <= 2147483647).
  { assert (He : Qfloor (inject_Z 2147483647 + (1 # 2)) = 2147483647)
      by (vm_compute; reflexivity).
    rewrite <- He. apply Qfloor_resp_le. lra. }
  change (2 ^ 31) with 2147483648. lia.
Qed.

Lemma memoryMB_of_bounds (limit : spec_float) :
  (0 < reference.value limit)%Q ->
  (reference.value limit < inject_Z (2 ^ 51))%Q ->
  0 <= reference.memoryMB_of limit < 2 ^ 31.
Proof.
  intros Hpos Hlt. unfold reference.memoryMB_of.
  set (x := (reference.value limit / inject_Z 1024 / inject_Z 1024)%Q).
  assert (Hx : (x == reference.value limit * (1 # 1048576))%Q) by (unfold x; field).
  split.
  - rewrite <- (Qfloor_Z 0). apply Qfloor_resp_le. rewrite Hx.
    change (inject_Z 0) with 0%Q. lra.
  - rewrite Zlt_Qlt. pose proof (Qfloor_le x) as Hf.
    change (inject_Z (2 ^ 51)) with (2251799813685248 # 1)%Q in Hlt.
    change (inject_Z (2 ^ 31)) with (2147483648 # 1)%Q. lra.
Qed.

(** The vCPU count sent for a CPU limit in range. *)
Lemma Vcpu_in_range (config : kubeapi.PodSandboxConfig) (limit : spec_float) :
  reference.cpu_limit config = Some limit ->
  valid_binary 53 1024 limit = true ->
  (reference.value limit < inject_Z 2147483647)%Q ->
  limit <> S754_infinity false ->
  types.Vcpu (hyper.HyperRuntime.CreatePodSandbox_resource unrepresentable config)
  = if Qlt_le_dec 0 (reference.value limit) then reference.vcpu_of limit else 1.
Proof.
  intros Hl Hv Hlt Hinf.
  rewrite CreatePodSandbox_resource_fields. cbn [types.Vcpu]. rewrite Hl.
  destruct (Qlt_le_dec 0 (reference.value limit)) as [Hpos|Hnp].
  - pose proof (vcpu_of_bounds limit Hlt) as Hb.
    destruct (positive_number limit Hv Hpos) as (m & e & -> & Hbd).
    change (gonum.fgt (S754_finite false m e) gonum.f0) with true. cbv iota.
    apply vcpu_of_positive; [exact Hbd | apply Hb].
  - rewrite fgt_not_positive; [reflexivity | | exact Hinf].
    apply Qle_not_lt, Hnp.
Qed.

(** The memory size sent for a positive memory limit in range. *)
Lemma Memory_in_range (config : kubeapi.PodSandboxConfig) (limit : spec_float) :
  reference.memory_limit config = Some limit ->
  valid_binary 53 1024 limit = true ->
  (0 < reference.value limit)%Q ->
  (reference.value limit < inject_Z (2 ^ 51))%Q ->
  types.Memory (hyper.HyperRuntime.CreatePodSandbox_resource unrepresentable config)
  = reference.memoryMB_of limit.
Proof.
  intros Hl Hv Hpos Hlt.
  rewrite CreatePodSandbox_resource_fields. cbn [types.Memory]. rewrite Hl.
  pose proof (memoryMB_of_bounds limit Hpos Hlt) as Hb.
  destruct (positive_number limit Hv Hpos) as (m & e & -> & Hbd).
  change (gonum.fgt (S754_finite false m e) gonum.f0) with true. cbv iota.
  apply memoryMB_of_positive; [exact Hbd | apply Hb].
Qed.

(** X11: a CPU limit that is unset, or a [float64] below [2^31 - 1] and
    not [+Inf], always gives a vCPU count from 1 up to [2^31 - 1], on
    both surfaces. *)
Theorem vcpu_at_least_one (config : kubeapi.PodSandboxConfig) :
  (forall limit, reference.cpu_limit config = Some limit ->
     valid_binary 53 1024 limit = true
     /\ (reference.value limit < inject_Z 2147483647)%Q
     /\ limit <> S754_infinity false) ->
  1 <= types.Vcpu (hyper.HyperRuntime.CreatePodSandbox_resource unrepresentable config)
    < 2 ^ 31
  /\ 1 <= types.Vcpu (manager.KubeHyperManager.CreatePodSandbox_resource
                        unrepresentable config) < 2 ^ 31.
Proof.
  intros H.
  assert (Hh : 1 <= types.Vcpu (hyper.HyperRuntime.CreatePodSandbox_resource
                                  unrepresentable config) < 2 ^ 31).
  { destruct (reference.cpu_limit config) as [limit|] eqn:Hl.
    - destruct (H limit eq_refl) as (Hv & Hlt & Hinf).
      rewrite (Vcpu_in_range config limit Hl Hv Hlt Hinf).
      destruct (Qlt_le_dec 0 (reference.value limit)); [|split; [lia | reflexivity]].
      apply vcpu_of_bounds, Hlt.
    - rewrite CreatePodSandbox_resource_fields. cbn [types.Vcpu]. rewrite Hl.
      split; [vm_compute; discriminate | reflexivity]. }
  split; [exact Hh|]. rewrite manager_CreatePodSandbox_resource. exact Hh.
Qed.

Lemma memoryMB_of_whole (limit : spec_float) :
  (0 < reference.value limit)%Q ->
  (reference.value limit < inject_Z (2 ^ 51))%Q ->
  let memory := reference.memoryMB_of limit in
  0 <= memory < 2 ^ 31
  /\ (inject_Z (memory * 1048576) <= reference.value limit)%Q
  /\ (reference.value limit < inject_Z ((memory + 1) * 1048576))%Q
  /\ (1 <= memory <-> (inject_Z 1048576 <= reference.value limit)%Q).
Proof.
  intros Hpos Hlt memory. subst memory.
  pose proof (memoryMB_of_bounds limit Hpos Hlt) as Hb.
  unfold reference.memoryMB_of in *.
  set (x := (reference.value limit / inject_Z 1024 / inject_Z 1024)%Q) in *.
  assert (Hx : (x == reference.value limit * (1 # 1048576))%Q) by (unfold x; field).
  pose proof (Qfloor_le x) as Hlo. pose proof (Qlt_floor x) as Hhi.
  rewrite !inject_Z_mult. rewrite inject_Z_plus in *.
  change (inject_Z 1048576) with (1048576 # 1)%Q. change (inject_Z 1) with 1%Q in *.
  assert (Hlow : (inject_Z (Qfloor x) * (1048576 # 1) <= reference.value limit)%Q) by lra.
  assert (Hup : (reference.value limit < (inject_Z (Qfloor x) + 1) * (1048576 # 1))%Q) by lra.
  split; [exact Hb|]. split; [exact Hlow|]. split; [exact Hup|].
  split.
  - intros H1. assert ((inject_Z 1 <= inject_Z (Qfloor x))%Q) by (rewrite <- Zle_Qle; exact H1).
    change (inject_Z 1) with 1%Q in *. lra.
  - intros H1. assert (Hf : Qfloor 1 <= Qfloor x) by (apply Qfloor_resp_le; lra).
    exact Hf.
Qed.

(** X12: a positive memory limit below [2^51] bytes is sent as the
    number of whole megabytes (of [1048576] bytes) it holds:
    [memory * 1048576 <= limit < (memory + 1) * 1048576].  The memory
    sent is at least 1 exactly when the limit is at least one megabyte. *)
Theorem memory_whole_megabytes (config : kubeapi.PodSandboxConfig) (limit : spec_float) :
  reference.memory_limit config = Some limit ->
  valid_binary 53 1024 limit = true ->
  (0 < reference.value limit)%Q ->
  (reference.value limit < inject_Z (2 ^ 51))%Q ->
  let memory :=
    types.Memory (hyper.HyperRuntime.CreatePodSandbox_resource unrepresentable config) in
  0 <= memory < 2 ^ 31
  /\ (inject_Z (memory * 1048576) <= reference.value limit)%Q
  /\ (reference.value limit < inject_Z ((memory + 1) * 1048576))%Q
  /\ (1 <= memory <-> (inject_Z 1048576 <= reference.value limit)%Q)
  /\ types.Memory (manager.KubeHyperManager.CreatePodSandbox_resource
                     unrepresentable config) = memory.
Proof.
  intros Hl Hv Hpos Hlt memory.
  assert (Hmem : memory = reference.memoryMB_of limit)
    by (apply Memory_in_range; assumption).
  assert (Hman : types.Memory (manager.KubeHyperManager.CreatePodSandbox_resource
                                 unrepresentable config) = memory)
    by (unfold memory; f_equal; apply manager_CreatePodSandbox_resource).
  clearbody memory. subst memory.
  destruct (memoryMB_of_whole limit Hpos Hlt) as (H1 & H2 & H3 & H4).
  split; [exact H1|]. split; [exact H2|]. split; [exact H3|]. split; [exact H4|exact Hman].
Qed.

(** X13: within those ranges the translation is monotone: of two
    configurations, the one with the larger CPU limit gets at least as
    many vCPUs, and the one with the larger memory limit at least as much
    memory. *)
Theorem more_limit_never_less_sandbox
        (config1 config2 : kubeapi.PodSandboxConfig) (cpu1 cpu2 mem1 mem2 : spec_float) :
  reference.cpu_limit config1 = Some cpu1 -> reference.cpu_limit config2 = Some cpu2 ->
  reference.memory_limit config1 = Some mem1 -> reference.memory_limit config2 = Some mem2 ->
  valid_binary 53 1024 cpu1 = true -> valid_binary 53 1024 cpu2 = true ->
  valid_binary 53 1024 mem1 = true -> valid_binary 53 1024 mem2 = true ->
  cpu1 <> S754_infinity false -> cpu2 <> S754_infinity false ->
  (reference.value cpu1 <= reference.value cpu2)%Q ->
  (reference.value cpu2 < inject_Z 2147483647)%Q ->
  (0 < reference.value mem1)%Q ->
  (reference.value mem1 <= reference.value mem2)%Q ->
  (reference.value mem2 < inject_Z (2 ^ 51))%Q ->
  let r1 := hyper.HyperRuntime.CreatePodSandbox_resource unrepresentable config1 in
  let r2 := hyper.HyperRuntime.CreatePodSandbox_resource unrepresentable config2 in
  types.Vcpu r1 <= types.Vcpu r2 /\ types.Memory r1 <= types.Memory r2.
Proof.
  intros Hc1 Hc2 Hm1 Hm2 Hv1 Hv2 Hw1 Hw2 Hi1 Hi2 Hcle Hclt Hmpos Hmle Hmlt r1 r2.
  subst r1 r2. split.
  - rewrite (Vcpu_in_range config1 cpu1 Hc1 Hv1 ltac:(lra) Hi1).
    rewrite (Vcpu_in_range config2 cpu2 Hc2 Hv2 Hclt Hi2).
    pose proof (vcpu_of_bounds cpu2 Hclt) as Hb2.
    destruct (Qlt_le_dec 0 (reference.value cpu1)) as [Hp1|Hn1];
      destruct (Qlt_le_dec 0 (reference.value cpu2)) as [Hp2|Hn2]; try lia.
    + unfold reference.vcpu_of. apply Z.max_le_compat_l, Qfloor_resp_le. lra.
    + exfalso. lra.
  - rewrite (Memory_in_range config1 mem1 Hm1 Hw1 Hmpos ltac:(lra)).
    rewrite (Memory_in_range config2 mem2 Hm2 Hw2 ltac:(lra) Hmlt).
    unfold reference.memoryMB_of. apply Qfloor_resp_le.
    apply Qmult_le_compat_r; [|vm_compute; discriminate].
    apply Qmult_le_compat_r; [exact Hmle | vm_compute; discriminate].
Qed.

End Sizes.

Lemma vcpu_at_least_one_witness :
  1 <= types.Vcpu (hyper.HyperRuntime.CreatePodSandbox_resource
                     (fun _ => 0) (demo.limits (Some demo.f2_6) None)) < 2 ^ 31
  /\ 1 <= types.Vcpu (manager.KubeHyperManager.CreatePodSandbox_resource
                        (fun _ => 0) (demo.limits (Some demo.f2_6) None)) < 2 ^ 31.
Proof.
  apply (vcpu_at_least_one (fun _ => 0) (demo.limits (Some demo.f2_6) None)).
  intros limit H. injection H as <-.
  split; [vm_compute; reflexivity|]. split; [vm_compute; reflexivity | discriminate].
Defined.

Lemma memory_whole_megabytes_witness :
  0 <= types.Memory (hyper.HyperRuntime.CreatePodSandbox_resource
                       (fun _ => 0) (demo.limits None (Some demo.f300MiB))) < 2 ^ 31
  /\ (inject_Z (types.Memory (hyper.HyperRuntime.CreatePodSandbox_resource
                                (fun _ => 0%Z) (demo.limits None (Some demo.f300MiB)))
                * 1048576)
      <= reference.value demo.f300MiB)%Q.
Proof.
  destruct (memory_whole_megabytes (fun _ => 0) (demo.limits None (Some demo.f300MiB))
              demo.f300MiB)
    as (H1 & H2 & _); try (vm_compute; reflexivity).
  split; [exact H1 | exact H2].
Defined.

Lemma more_limit_never_less_sandbox_witness :
  types.Vcpu (hyper.HyperRuntime.CreatePodSandbox_resource
                (fun _ => 0) (demo.limits (Some demo.f0_4) (Some demo.f1)))
  <= types.Vcpu (hyper.HyperRuntime.CreatePodSandbox_resource
                   (fun _ => 0) (demo.limits (Some demo.f2_6) (Some demo.f300MiB)))
  /\ types.Memory (hyper.HyperRuntime.CreatePodSandbox_resource
                     (fun _ => 0) (demo.limits (Some demo.f0_4) (Some demo.f1)))
     <= types.Memory (hyper.HyperRuntime.CreatePodSandbox_resource
                        (fun _ => 0) (demo.limits (Some demo.f2_6) (Some demo.f300MiB))).
Proof.
  apply (more_limit_never_less_sandbox (fun _ => 0)
           (demo.limits (Some demo.f0_4) (Some demo.f1))
           (demo.limits (Some demo.f2_6) (Some demo.f300MiB))
           demo.f0_4 demo.f2_6 demo.f1 demo.f300MiB);
    try (vm_compute; reflexivity); try discriminate; vm_compute; discriminate.
Defined.

(** ** The normal form of an image filter *)

Lemma occurs_app (c : ascii) (s t : string) :
  reference.occurs c (String.append s t) = reference.occurs c s || reference.occurs c t.
Proof.
  induction s as [|a s IH]; [rewrite sapp_nil_l; reflexivity|].
  rewrite sapp_cons. cbn. rewrite IH. apply orb_assoc.
Qed.

Lemma normalized_latest (image : string) :
  reference.occurs ":" image = false ->
  reference.normalized image = String.append image ":latest"
  /\ reference.normalized (String.append image ":latest") = String.append image ":latest".
Proof.
  intros H. unfold reference.normalized. rewrite H, occurs_app, H. split; reflexivity.
Qed.

Lemma hyper_ListImages_by {World Error Stream : Type}
      (client : provider.PublicAPIClient World Error Stream)
      (f : kubeapi.ImageFilter) (st : provider.State World) :
  hyper.HyperRuntime.ListImages client (Some f) st
  = match provider.ImageList client (provider.world st) with
    | (inl e, w) => (inl e, provider.extend st w [provider.EvImageList])
    | (inr images, w) =>
        (inr (map reference.image_of
                  (filter (fun img =>
                             reference.normalized (kubeapi.GetImage (kubeapi.FilterImage f))
                             ∈ types.RepoTags img) images)),
         provider.extend st w [provider.EvImageList])
    end.
Proof.
  unfold hyper.HyperRuntime.ListImages, provider.bind. rewrite run_GetImageList.
  destruct (provider.ImageList client (provider.world st)) as [[e|images] w];
    cbn [fst snd]; [reflexivity|].
  unfold provider.ret. rewrite hyper_ListImages_loop_filter. reflexivity.
Qed.

(** X14: what an image filter means.  A name without [':'] selects what
    the same name with [":latest"] appended selects.  A filter whose
    image is nil or has no name is not the absence of a filter: it stands
    for the reference [":latest"], so it returns nothing unless an image
    carries that very tag. *)
Theorem ListImages_filter_normal_form
        {World Error Stream : Type} (client : provider.PublicAPIClient World Error Stream)
        (st : provider.State World) (image : string) :
  let by_name s :=
    hyper.HyperRuntime.ListImages client
      (Some {| kubeapi.FilterImage := Some {| kubeapi.Image := Some s |} |}) st in
  (gostrings.Contains image ":" = false ->
   by_name image = by_name (String.append image ":latest"))
  /\ hyper.HyperRuntime.ListImages client (Some {| kubeapi.FilterImage := None |}) st
     = by_name ":latest"
  /\ hyper.HyperRuntime.ListImages client
       (Some {| kubeapi.FilterImage := Some {| kubeapi.Image := None |} |}) st
     = by_name ":latest"
  /\ (forall images w,
        provider.ImageList client (provider.world st) = (inr images, w) ->
        Forall (fun img => ":latest" ∉ types.RepoTags img) images ->
        hyper.HyperRuntime.ListImages client (Some {| kubeapi.FilterImage := None |}) st
        = (inr [], provider.extend st w [provider.EvImageList])).
Proof.
  intros by_name. subst by_name. cbv beta.
  split; [|split; [|split]].
  - rewrite Contains_occurs. intros H.
    destruct (normalized_latest image H) as [H1 H2].
    rewrite !hyper_ListImages_by.
    change (kubeapi.GetImage (kubeapi.FilterImage
              {| kubeapi.FilterImage := Some {| kubeapi.Image := Some image |} |}))
      with image.
    change (kubeapi.GetImage (kubeapi.FilterImage
              {| kubeapi.FilterImage :=
                   Some {| kubeapi.Image := Some (String.append image ":latest") |} |}))
      with (String.append image ":latest").
    rewrite H1, H2. reflexivity.
  - rewrite !hyper_ListImages_by. reflexivity.
  - rewrite !hyper_ListImages_by. reflexivity.
  - intros images w Hl Hall. rewrite hyper_ListImages_by, Hl.
    cbn [kubeapi.FilterImage kubeapi.GetImage].
    change (reference.normalized "") with ":latest".
    replace (filter (fun img => ":latest" ∈ types.RepoTags img) images) with (@nil types.ImageInfo);
      [reflexivity|].
    symmetry. clear Hl. induction Hall as [|img rest Hn _ IH]; [reflexivity|].
    rewrite filter_cons_False by exact Hn. exact IH.
Qed.
